(** * Roaming assistant: session store, phase machine, HITL turn, rate limiter

    Shallow embedding of
      - src/conversation/state.js: the session store and the phase machine;
      - the chat handler imported as ./api/chat-handler.js:
        [handleChatRequest] and [analyzeAgentResponse];
      - src/agent/config.js: the [needsApproval] predicates of the gated tools;
      - the Express entry point of the server: the rate limiting middleware
        of /api/chat;
    followed by the properties of the specification that concern them.

    Conventions.
      - Timestamps are milliseconds since the epoch, as [Z].  Every
        [new Date()] / [Date.now()] of the session store and of the chat
        handler is one read of a clock [clock : nat -> Z]; the world counts
        the reads made so far, so two reads of one object literal may differ,
        and any amount of time may pass at an [await].
      - JavaScript strings are modelled by their UTF-8 bytes.  All keywords
        searched for are well-formed, so substring search on the bytes agrees
        with [String.prototype.includes] on well-formed input.
      - A JavaScript exception is the [Throw] result; effects made before
        the throw stay in the world.
      - Requests are handled one after the other: the interleaving of two
        requests at an [await] is not modelled.
      - [runWithContext] and [withTrace] only wrap the callback, and
        [console] output is left out. *)

From Stdlib Require Import ZArith Lia Bool List.
From stdpp Require Import gmap strings list.
Import ListNotations.

Local Open Scope Z_scope.
Local Open Scope string_scope.

(** ** Strings *)

Module Str.

(** [k] is a prefix of [s]. *)
Fixpoint startsWith (k s : string) : bool :=
  match k with
  | EmptyString => true
  | String a k' =>
      match s with
      | EmptyString => false
      | String b s' => if Ascii.eqb a b then startsWith k' s' else false
      end
  end.

(** [s.includes(k)] *)
Fixpoint includes (s k : string) : bool :=
  if startsWith k s then true
  else match s with
       | EmptyString => false
       | String _ s' => includes s' k
       end.

(** [keywords.some(k => s.includes(k))] *)
Definition someIncluded (keywords : list string) (s : string) : bool :=
  existsb (includes s) keywords.

(** A JavaScript string is truthy when it is not empty. *)
Definition truthy (s : string) : bool :=
  match s with EmptyString => false | _ => true end.

(** [o || d] for a possibly absent string [o]. *)
Definition orElse (o : option string) (d : string) : string :=
  match o with
  | Some s => if truthy s then s else d
  | None => d
  end.

(** ASCII part of [toLowerCase]: the bytes of 'A'..'Z' are moved to
    'a'..'z', every other byte is kept.  The trigger words compared with
    the result contain no cased letter. *)
Definition lowerByte (a : Ascii.ascii) : Ascii.ascii :=
  let n := Ascii.nat_of_ascii a in
  if (Nat.leb 65 n && Nat.leb n 90)%bool then Ascii.ascii_of_nat (n + 32) else a.

Fixpoint toLowerCase (s : string) : string :=
  match s with
  | EmptyString => EmptyString
  | String a s' => String (lowerByte a) (toLowerCase s')
  end.

(** White space recognised by [String.prototype.trim], on UTF-8 bytes:
    U+0009..U+000D, U+0020, U+00A0, U+1680, U+2000..U+200A, U+2028,
    U+2029, U+202F, U+205F, U+3000 and U+FEFF.  [blank s] says that
    [s.trim().length === 0]. *)
Definition whiteSpaceLength (l : list nat) : option nat :=
  match l with
  | c :: r =>
      if (Nat.leb 9 c && Nat.leb c 13)%bool || Nat.eqb c 32 then Some 1%nat
      else match r with
      | d :: r' =>
          if (Nat.eqb c 194 && Nat.eqb d 160)%bool then Some 2%nat
          else match r' with
          | e :: _ =>
              if (Nat.eqb c 225 && Nat.eqb d 154 && Nat.eqb e 128)%bool
                 || (Nat.eqb c 226 && Nat.eqb d 128
                     && ((Nat.leb 128 e && Nat.leb e 138) || Nat.eqb e 168
                         || Nat.eqb e 169 || Nat.eqb e 175))%bool
                 || (Nat.eqb c 226 && Nat.eqb d 129 && Nat.eqb e 159)%bool
                 || (Nat.eqb c 227 && Nat.eqb d 128 && Nat.eqb e 128)%bool
                 || (Nat.eqb c 239 && Nat.eqb d 187 && Nat.eqb e 191)%bool
              then Some 3%nat else None
          | [] => None
          end
      | [] => None
      end
  | [] => None
  end.

Fixpoint blankBytes (fuel : nat) (l : list nat) : bool :=
  match l with
  | [] => true
  | _ =>
      match fuel with
      | O => false
      | S fuel' =>
          match whiteSpaceLength l with
          | Some n => blankBytes fuel' (drop n l)
          | None => false
          end
      end
  end.

Definition blank (s : string) : bool :=
  let l := map Ascii.nat_of_ascii (String.list_ascii_of_string s) in
  blankBytes (List.length l) l.

End Str.

(** [o ?? d]: the value of an optional field, or the default. *)
Definition orField {A} (o : option A) (d : A) : A :=
  match o with Some a => a | None => d end.

(** ** Data model (src/conversation/state.js, createSession) *)

(** The five phases of the conversation.  The [phase] field is written by
    [createSession] and [transitionPhase] only, with these literals. *)
Inductive Phase :=
| IntentDetection
| Confirmation
| Approval
| DataCollection
| Recommendation.

Definition phaseName (p : Phase) : string :=
  match p with
  | IntentDetection => "intent-detection"
  | Confirmation => "confirmation"
  | Approval => "approval"
  | DataCollection => "data-collection"
  | Recommendation => "recommendation"
  end.

(** An object produced by the external agents (usage summary, plan record,
    recommendation), kept as its JSON text.  Objects are truthy. *)
Inductive Payload := payload (json : string).

Record TravelDates := { start : option Z; end_ : option Z }.

Record Intent := {
  destination : option string;
  travelDates : TravelDates;
  confirmed : bool;
  userApproved : bool;
  detectedAt : option Z;
  confirmedAt : option Z
}.

Inductive Role := user | assistant.

Record Message := { role : Role; content : string; timestamp : Z }.

(** An interruption reported by the run: a tool call awaiting approval.
    [handle] stands for the identity of the SDK object. *)
Record Interruption := {
  i_name : string;
  i_agentName : string;
  i_arguments : string;
  handle : nat
}.

(** The summary stored in [pendingInterruptions]. *)
Record PendingCall := {
  name : string;
  agentName : string;
  arguments : string;
  original : Interruption
}.

Record Session := {
  sessionId : string;
  userId : string;
  createdAt : Z;
  lastActivityAt : Z;
  expiresAt : Z;
  phase : Phase;
  intent : Intent;
  usageData : option Payload;
  roamingPlans : list Payload;
  recommendation : option Payload;
  messages : list Message;
  pendingRunState : option string;
  pendingInterruptions : list PendingCall
}.

(** The [updates] argument of [updateSession]: every key may be absent.
    [conversationsSession] is pinned by [updateSession] and carries no data
    of the model, so it is left out of [Session]. *)
Record Updates := {
  u_phase : option Phase;
  u_intent : option Intent;
  u_usageData : option (option Payload);
  u_roamingPlans : option (list Payload);
  u_recommendation : option (option Payload);
  u_messages : option (list Message);
  u_pendingRunState : option (option string);
  u_pendingInterruptions : option (list PendingCall)
}.

Definition noUpdates : Updates :=
  {| u_phase := None; u_intent := None; u_usageData := None;
     u_roamingPlans := None; u_recommendation := None; u_messages := None;
     u_pendingRunState := None; u_pendingInterruptions := None |}.

(** The object literals passed to [updateSession] by the other operations. *)
Definition intentUpdate (i : Intent) : Updates :=
  {| u_phase := None; u_intent := Some i; u_usageData := None;
     u_roamingPlans := None; u_recommendation := None; u_messages := None;
     u_pendingRunState := None; u_pendingInterruptions := None |}.

Definition phaseUpdate (p : Phase) : Updates :=
  {| u_phase := Some p; u_intent := None; u_usageData := None;
     u_roamingPlans := None; u_recommendation := None; u_messages := None;
     u_pendingRunState := None; u_pendingInterruptions := None |}.

Definition pendingUpdate (st : option string) (calls : list PendingCall) : Updates :=
  {| u_phase := None; u_intent := None; u_usageData := None;
     u_roamingPlans := None; u_recommendation := None; u_messages := None;
     u_pendingRunState := Some st; u_pendingInterruptions := Some calls |}.

Definition messagesUpdate (l : list Message) : Updates :=
  {| u_phase := None; u_intent := None; u_usageData := None;
     u_roamingPlans := None; u_recommendation := None;
     u_messages := Some l;
     u_pendingRunState := None; u_pendingInterruptions := None |}.

(** The [intentUpdates] argument of [updateIntent]: an object with any of
    the keys of the intent; a key is absent ([None]) or carries a value,
    which for [destination], [detectedAt] and [confirmedAt] may be null. *)
Record IntentUpdates := {
  iu_destination : option (option string);
  iu_travelDates : option TravelDates;
  iu_confirmed : option bool;
  iu_userApproved : option bool;
  iu_detectedAt : option (option Z);
  iu_confirmedAt : option (option Z)
}.

(** [{ ...session.intent, ...intentUpdates }]: a key of [intentUpdates]
    overrides the key of the stored intent, every other key is kept. *)
Definition mergeIntent (i : Intent) (iu : IntentUpdates) : Intent :=
  {| destination := orField (iu_destination iu) (destination i);
     travelDates := orField (iu_travelDates iu) (travelDates i);
     confirmed := orField (iu_confirmed iu) (confirmed i);
     userApproved := orField (iu_userApproved iu) (userApproved i);
     detectedAt := orField (iu_detectedAt iu) (detectedAt i);
     confirmedAt := orField (iu_confirmedAt iu) (confirmedAt i) |}.

(** ** The world and the effect monad *)

Inductive Exn :=
| Error (msg : string)
| TypeError.

Inductive Res (A : Type) :=
| Ok (a : A)
| Throw (e : Exn).
Arguments Ok {A} a.
Arguments Throw {A} e.

(** [sessions] is the module-level Map of state.js, [agentInstance] the
    singleton of chat-handler.js (true once created), [ticks] the number of
    clock reads made so far. *)
Record World := {
  sessions : gmap string Session;
  agentInstance : bool;
  ticks : nat
}.

Definition M (A : Type) : Type := World -> Res A * World.

Definition ret {A} (a : A) : M A := fun w => (Ok a, w).

Definition throw {A} (e : Exn) : M A := fun w => (Throw e, w).

Definition bind {A B} (c : M A) (k : A -> M B) : M B :=
  fun w =>
    match c w with
    | (Ok a, w') => k a w'
    | (Throw e, w') => (Throw e, w')
    end.

(** [try { c } catch (e) { h e }] *)
Definition tryCatch {A} (c : M A) (h : Exn -> M A) : M A :=
  fun w =>
    match c w with
    | (Ok a, w') => (Ok a, w')
    | (Throw e, w') => h e w'
    end.

Notation "'let!' x ':=' c 'in' k" := (bind c (fun x => k))
  (at level 10, x name, c at level 100, k at level 200).
Notation "c ';;' k" := (bind c (fun _ => k))
  (at level 100, k at level 200, right associativity).

Definition getSessions : M (gmap string Session) :=
  fun w => (Ok (sessions w), w).

Definition setSessions (m : gmap string Session) : M unit :=
  fun w => (Ok tt, {| sessions := m; agentInstance := agentInstance w; ticks := ticks w |}).

(** ** The external reasoning layer

    [run], [RunState.fromString], [createRoamingAgent] and the SDK's
    [getSessionId] belong to the external layer.  One turn sees them through
    the answers below.  A run either rejects or resolves to a result with its
    [finalOutput], its [interruptions], the text of [state.toString()] and
    the outcome of running that state again once its interruptions are
    approved; the chain of re-runs of one turn is finite.  The [newItems]
    of a result are only logged by the handler and are left out. *)

Inductive RunOutcome :=
| Rejects
| Resolves (finalOutput : option string) (interruptions : list Interruption)
           (stateString : string) (rerun : RunOutcome).

Record Reasoning := {
  (** [conversationsSession.getSessionId()]; [None] when it rejects *)
  sdkSessionId : option string;
  (** [createRoamingAgent()] resolves *)
  agentCreated : bool;
  (** [RunState.fromString(agent, s)] resolves *)
  fromString : string -> bool;
  (** [run(agent, restored)] for the state restored from [s] with the given
      interruptions approved *)
  resume : string -> list Interruption -> RunOutcome;
  (** [run(agent, message)] *)
  runMessage : string -> RunOutcome
}.

(** ** Values of one turn (src/api/chat-handler.js) *)

Record ResponseData := {
  d_intent : option Intent;
  d_usage : option Payload;
  d_plans : option (list Payload);
  d_recommendation : option Payload
}.

Record Response := {
  r_sessionId : string;
  r_response : string;
  r_phase : string;
  r_data : ResponseData
}.

(** The result of [analyzeAgentResponse]. *)
Record StateUpdates := {
  su_intent : option IntentUpdates;
  su_phase : option string
}.

Definition approvalKeywords : list string :=
  ["是"; "對"; "好"; "ok"; "OK"; "可以"; "請"; "繼續"; "要"; "需要"; "批准"; "同意"; "沒錯"].

Definition confirmationKeywords : list string :=
  ["是"; "對"; "沒錯"; "正確"; "好"; "OK"; "可以"; "請幫我"; "麻煩"; "繼續"; "要"; "需要"].

Definition countryKeywords : list string :=
  ["日本"; "韓國"; "美國"; "英國"; "法國"; "德國"; "義大利";
   "西班牙"; "泰國"; "新加坡"; "馬來西亞"; "香港"; "澳門";
   "中國"; "澳洲"; "紐西蘭"; "加拿大"; "越南"; "印尼"].

Definition defaultResponse : string := "抱歉，我遇到了一些問題。請稍後再試。".
Definition errorResponse : string := "抱歉，系統目前無法處理您的請求。請稍後再試。".
Definition pendingPrompt : string :=
  "目前有等待您確認的操作：是否允許查詢漫遊方案或產生推薦？請回覆「好」或「可以」來批准。".
Definition approvalPrompt : string :=
  "需要您的確認才能繼續：是否允許我查詢漫遊方案或產生推薦？請回覆「好」或「可以」來批准。".

Definition isApproval (message : string) : bool :=
  Str.someIncluded approvalKeywords message.

Definition isConfirmation (userMessage : string) : bool :=
  Str.someIncluded confirmationKeywords userMessage.

(** The loop over [countryKeywords]: first country, in list order, that the
    user message or the response mentions. *)
Definition detectCountry (userMessage response : string) : option string :=
  List.find (fun country =>
               Str.includes userMessage country || Str.includes response country)
            countryKeywords.

(** [firstResult.interruptions.map(i => ({name, agentName, arguments, original}))] *)
Definition simplify (i : Interruption) : PendingCall :=
  {| name := i_name i; agentName := i_agentName i;
     arguments := i_arguments i; original := i |}.

(** The approve-and-run-again loop: while the current result has
    interruptions, approve them all and run its state again.  The loop of
    the handler has no bound of its own; it ends because the chain of
    re-runs of a [RunOutcome] does, so the model covers the turns on which
    the reasoning layer stops interrupting. *)
Fixpoint approveAll (current : RunOutcome) : Res (option string) :=
  match current with
  | Rejects => Throw (Error "run")
  | Resolves finalOutput interruptions _ rerun =>
      match interruptions with
      | [] => Ok finalOutput
      | _ :: _ => approveAll rerun
      end
  end.

(** Truthiness of [session.pendingRunState] and of [intent.destination]. *)
Definition truthyOpt (o : option string) : bool :=
  match o with Some s => Str.truthy s | None => false end.

(** ** Rate limiting middleware of /api/chat (src/index.js) *)

Record RateLimitRecord := { count : Z; resetAt : Z }.

Definition RATE_LIMIT_REQUESTS : Z := 10.
Definition RATE_LIMIT_WINDOW_MS : Z := 60 * 1000.

(** [Math.ceil(a / b)] for integers [a] and [b > 0]. *)
Definition ceilDiv (a b : Z) : Z := - ((- a) / b).

Inductive Decision :=
| Next
| TooManyRequests (retryAfter : Z).

(** [req.body?.sessionId || req.ip] *)
Definition rateLimitKey (bodySessionId : option string) (ip : string) : string :=
  match bodySessionId with
  | Some s => if Str.truthy s then s else ip
  | None => ip
  end.

(** The middleware for one request with key [key] at [now = Date.now()]:
    the new rate limit store and the decision (call [next()], or answer
    429 with [retryAfter]). *)
Definition rateLimit (key : string) (now : Z) (rateLimitStore : gmap string RateLimitRecord)
  : gmap string RateLimitRecord * Decision :=
  let record :=
    match rateLimitStore !! key with
    | Some record =>
        if now >? resetAt record
        then {| count := 0; resetAt := now + RATE_LIMIT_WINDOW_MS |}
        else record
    | None => {| count := 0; resetAt := now + RATE_LIMIT_WINDOW_MS |}
    end in
  let record := {| count := count record + 1; resetAt := resetAt record |} in
  let rateLimitStore := <[key := record]> rateLimitStore in
  if count record >? RATE_LIMIT_REQUESTS
  then (rateLimitStore, TooManyRequests (ceilDiv (resetAt record - now) 1000))
  else (rateLimitStore, Next).

(** Requests of one key at the given times, in order: the decisions. *)
Fixpoint rateLimitAll (key : string) (times : list Z)
    (rateLimitStore : gmap string RateLimitRecord)
  : gmap string RateLimitRecord * list Decision :=
  match times with
  | [] => (rateLimitStore, [])
  | now :: rest =>
      let '(store1, d) := rateLimit key now rateLimitStore in
      let '(store2, ds) := rateLimitAll key rest store1 in
      (store2, d :: ds)
  end.

(** ** Approval predicates of the gated tools (src/agent/config.js) *)

(** The run context as the predicates read it: [ctx?.session?.intent?.userApproved],
    every link possibly missing. *)
Record CtxIntent := { ci_userApproved : option bool }.
Record CtxSession := { cs_intent : option CtxIntent }.
Record RunContext := { rc_session : option CtxSession }.

(** Truthiness of [ctx?.session?.intent?.userApproved]. *)
Definition ctxUserApproved (ctx : option RunContext) : bool :=
  match ctx with
  | Some c =>
      match rc_session c with
      | Some cs =>
          match cs_intent cs with
          | Some ci => orField (ci_userApproved ci) false
          | None => false
          end
      | None => false
      end
  | None => false
  end.

Definition planTriggers : list string := ["方案"; "查詢"; "推薦"; "漫遊"].

(** [needsApproval] of [query_plans] *)
Definition needsApproval_query_plans (ctx : option RunContext) (input : option string)
  : bool :=
  let lower := Str.toLowerCase (Str.orElse input EmptyString) in
  negb (ctxUserApproved ctx) && Str.someIncluded planTriggers lower.

(** [needsApproval] of [get_usage] *)
Definition needsApproval_get_usage (ctx : option RunContext) : bool :=
  negb (ctxUserApproved ctx).

(** [needsApproval] of [analyze_and_recommend] *)
Definition needsApproval_analyze_and_recommend (ctx : option RunContext) : bool :=
  negb (ctxUserApproved ctx).

(** ** Session store (src/conversation/state.js) *)

Section Core.

(** The clock read by [new Date()] and [Date.now()], and the value of
    [SESSION_TIMEOUT_MS] (the session TTL, from the environment). *)
Variable clock : nat -> Z.
Variable SESSION_TIMEOUT_MS : Z.

(** One read of the clock. *)
Definition now : M Z :=
  fun w => (Ok (clock (ticks w)),
            {| sessions := sessions w; agentInstance := agentInstance w;
               ticks := S (ticks w) |}).

(** The object literal [newSession] of [createSession]; [created],
    [lastActivity] and [t] are the three clock reads it makes, in order. *)
Definition freshSession (sdkId uid : string) (created lastActivity t : Z) : Session :=
  {| sessionId := sdkId;
     userId := uid;
     createdAt := created;
     lastActivityAt := lastActivity;
     expiresAt := t + SESSION_TIMEOUT_MS;
     phase := IntentDetection;
     intent := {| destination := None;
                  travelDates := {| start := None; end_ := None |};
                  confirmed := false;
                  userApproved := false;
                  detectedAt := None;
                  confirmedAt := None |};
     usageData := None;
     roamingPlans := [];
     recommendation := None;
     messages := [];
     pendingRunState := None;
     pendingInterruptions := [] |}.

(** [createSession(userId)]; [sdkId] is the identifier the SDK's
    [getSessionId()] resolved to. *)
Definition createSession (sdkId : string) (uid : string) : M string :=
  let! created := now in
  let! lastActivity := now in
  let! t := now in
  let newSession := freshSession sdkId uid created lastActivity t in
  let! m := getSessions in
  setSessions (<[sdkId := newSession]> m) ;;
  ret sdkId.

(** [getSession(sessionId)] *)
Definition getSession (sid : string) : M (option Session) :=
  let! m := getSessions in
  if negb (Str.truthy sid) then ret None
  else match m !! sid with
       | None => ret None
       | Some session =>
           let! t := now in
           if t >? expiresAt session
           then setSessions (delete sid m) ;; ret None
           else ret (Some session)
       end.

Definition MAX_MESSAGES : nat := 20.

(** [messages.slice(-n)] *)
Definition sliceLast {A} (n : nat) (l : list A) : list A :=
  drop (List.length l - n) l.

(** The object literal [{ ...session, ...updates, messages, lastActivityAt,
    expiresAt }] of [updateSession]; [lastActivity] and [t] are the two
    clock reads it makes, in order. *)
Definition updatedWith (session : Session) (updates : Updates)
    (lastActivity t : Z) : Session :=
  let messages0 := orField (u_messages updates) (messages session) in
  let messages1 :=
    if Nat.ltb MAX_MESSAGES (List.length messages0)
    then sliceLast MAX_MESSAGES messages0 else messages0 in
  {| sessionId := sessionId session;
     userId := userId session;
     createdAt := createdAt session;
     lastActivityAt := lastActivity;
     expiresAt := t + SESSION_TIMEOUT_MS;
     phase := orField (u_phase updates) (phase session);
     intent := orField (u_intent updates) (intent session);
     usageData := orField (u_usageData updates) (usageData session);
     roamingPlans := orField (u_roamingPlans updates) (roamingPlans session);
     recommendation := orField (u_recommendation updates) (recommendation session);
     messages := messages1;
     pendingRunState := orField (u_pendingRunState updates) (pendingRunState session);
     pendingInterruptions :=
       orField (u_pendingInterruptions updates) (pendingInterruptions session) |}.

(** [updateSession(sessionId, updates)] *)
Definition updateSession (sid : string) (updates : Updates) : M (option Session) :=
  let! o := getSession sid in
  match o with
  | None => ret None
  | Some session =>
      let! lastActivity := now in
      let! t := now in
      let updatedSession := updatedWith session updates lastActivity t in
      let! m := getSessions in
      setSessions (<[sid := updatedSession]> m) ;;
      ret (Some updatedSession)
  end.

(** [cleanupExpiredSessions()] *)
Definition cleanupExpiredSessions : M nat :=
  let! t := now in
  let! m := getSessions in
  let kept := filter (fun kv => (t <= expiresAt (snd kv))%Z) m in
  setSessions kept ;;
  ret (size m - size kept)%nat.

(** [updateIntent(sessionId, intentUpdates)] *)
Definition updateIntent (sid : string) (iu : IntentUpdates) : M (option Session) :=
  let! o := getSession sid in
  match o with
  | None => ret None
  | Some session =>
      let updatedIntent := mergeIntent (intent session) iu in
      updateSession sid (intentUpdate updatedIntent)
  end.

(** The table [validTransitions] of [transitionPhase]. *)
Definition validTransitions (p : Phase) : list Phase :=
  match p with
  | IntentDetection => [Confirmation]
  | Confirmation => [Approval; IntentDetection]
  | Approval => [DataCollection; Confirmation]
  | DataCollection => [Recommendation]
  | Recommendation => []
  end.

(** [allowedTransitions.includes(newPhase)], returning the phase found. *)
Definition findPhase (allowed : list Phase) (newPhase : string) : option Phase :=
  List.find (fun p => String.eqb (phaseName p) newPhase) allowed.

(** [transitionPhase(sessionId, newPhase)] *)
Definition transitionPhase (sid : string) (newPhase : string) : M (option Session) :=
  let! o := getSession sid in
  match o with
  | None => ret None
  | Some session =>
      let currentPhase := phase session in
      let allowedTransitions := validTransitions currentPhase in
      match findPhase allowedTransitions newPhase with
      | None => ret (Some session)
      | Some p => updateSession sid (phaseUpdate p)
      end
  end.

(** [setPendingRunState(sessionId, stateString, interruptions)] *)
Definition setPendingRunState (sid : string) (stateString : string)
    (interruptions : list PendingCall) : M (option Session) :=
  updateSession sid (pendingUpdate (Some stateString) interruptions).

(** [clearPendingRunState(sessionId)] *)
Definition clearPendingRunState (sid : string) : M (option Session) :=
  updateSession sid (pendingUpdate None []).

(** [getActiveSessionCount()] *)
Definition getActiveSessionCount : M nat :=
  cleanupExpiredSessions ;;
  let! m := getSessions in
  ret (size m).


(** ** One turn: handleChatRequest *)

(** [getAgent()] *)
Definition getAgent (ext : Reasoning) : M unit :=
  fun w =>
    if agentInstance w then (Ok tt, w)
    else if agentCreated ext
         then (Ok tt, {| sessions := sessions w; agentInstance := true; ticks := ticks w |})
         else (Throw (Error "createRoamingAgent"), w).

(** [analyzeAgentResponse(response, session, userMessage)] *)
Definition analyzeAgentResponse (response : string) (session : Session)
    (userMessage : string) : M StateUpdates :=
  let detectedCountry := detectCountry userMessage response in
  match phase session with
  | IntentDetection =>
      match detectedCountry with
      | Some country =>
          if Str.truthy country && negb (truthyOpt (destination (intent session)))
          then
            let! t := now in
            ret {| su_intent :=
                     Some {| iu_destination := Some (Some country);
                             iu_travelDates := None;
                             iu_confirmed := Some false;
                             iu_userApproved := Some false;
                             iu_detectedAt := Some (Some t);
                             iu_confirmedAt := None |};
                   su_phase := Some "confirmation" |}
          else ret {| su_intent := None; su_phase := None |}
      | None => ret {| su_intent := None; su_phase := None |}
      end
  | Confirmation =>
      if isConfirmation userMessage
      then
        let! t := now in
        ret {| su_intent :=
                 Some {| iu_destination := None;
                         iu_travelDates := None;
                         iu_confirmed := Some true;
                         iu_userApproved := Some true;
                         iu_detectedAt := None;
                         iu_confirmedAt := Some (Some t) |};
               su_phase := Some "data-collection" |}
      else ret {| su_intent := None; su_phase := None |}
  | _ => ret {| su_intent := None; su_phase := None |}
  end.

(** The session object after [session.messages.push(m)]. *)
Definition pushed (s : Session) (m : Message) : Session :=
  {| sessionId := sessionId s; userId := userId s;
     createdAt := createdAt s; lastActivityAt := lastActivityAt s;
     expiresAt := expiresAt s; phase := phase s; intent := intent s;
     usageData := usageData s; roamingPlans := roamingPlans s;
     recommendation := recommendation s;
     messages := (messages s ++ [m])%list;
     pendingRunState := pendingRunState s;
     pendingInterruptions := pendingInterruptions s |}.

(** [session.messages.push(m)] on the session object stored under [key]:
    the array is mutated in place, so the stored object changes with it. *)
Definition pushStored (key : string) (m : Message) : M unit :=
  let! store := getSessions in
  match store !! key with
  | None => ret tt
  | Some s => setSessions (<[key := pushed s m]> store)
  end.

(** Get the session named by the request, or create one.  The result is the
    key of the stored object together with the object.  When the session
    just created is not found ([session] is undefined), the handler still
    builds [userMessage], reading the clock for its [timestamp], before
    [session.messages] throws. *)
Definition openSession (ext : Reasoning) (uid : string) (sid : option string)
  : M (string * Session) :=
  match sid with
  | Some s =>
      if Str.truthy s
      then
        let! o := getSession s in
        match o with
        | None => throw (Error ("會話不存在或已過期: " ++ s))
        | Some session =>
            if String.eqb (userId session) uid
            then ret (s, session)
            else throw (Error "會話不屬於此使用者")
        end
      else
        match sdkSessionId ext with
        | None => throw (Error "getSessionId")
        | Some id =>
            let! newSessionId := createSession id uid in
            let! o := getSession newSessionId in
            match o with
            | None => now ;; throw TypeError
            | Some session => ret (newSessionId, session)
            end
        end
  | None =>
      match sdkSessionId ext with
      | None => throw (Error "getSessionId")
      | Some id =>
          let! newSessionId := createSession id uid in
          let! o := getSession newSessionId in
          match o with
          | None => now ;; throw TypeError
          | Some session => ret (newSessionId, session)
          end
      end
  end.

(** The body of the [try] block: [session] is the object obtained on entry,
    read for [pendingRunState], [pendingInterruptions] and [sessionId]. *)
Definition agentStep (ext : Reasoning) (session : Session) (message : string)
  : M string :=
  let isApprovalMessage := isApproval message in
  if truthyOpt (pendingRunState session)
  then
    if isApprovalMessage
    then
      let stateString := orField (pendingRunState session) EmptyString in
      if fromString ext stateString
      then
        clearPendingRunState (sessionId session) ;;
        match resume ext stateString (map original (pendingInterruptions session)) with
        | Rejects => throw (Error "run")
        | Resolves finalOutput _ _ _ => ret (Str.orElse finalOutput defaultResponse)
        end
      else throw (Error "RunState.fromString")
    else ret pendingPrompt
  else
    match runMessage ext message with
    | Rejects => throw (Error "run")
    | Resolves finalOutput interruptions stateString rerun =>
        match interruptions with
        | [] => ret (Str.orElse finalOutput defaultResponse)
        | _ :: _ =>
            if isApprovalMessage
            then
              match approveAll (Resolves finalOutput interruptions stateString rerun) with
              | Ok out => ret (Str.orElse out defaultResponse)
              | Throw e => throw e
              end
            else
              setPendingRunState (sessionId session) stateString
                                 (map simplify interruptions) ;;
              ret approvalPrompt
        end
    end.

Definition buildResponse (updatedSession : Session) (assistantResponse : string)
  : Response :=
  {| r_sessionId := sessionId updatedSession;
     r_response := assistantResponse;
     r_phase := phaseName (phase updatedSession);
     r_data :=
       {| d_intent :=
            if truthyOpt (destination (intent updatedSession))
            then Some (intent updatedSession) else None;
          d_usage := usageData updatedSession;
          d_plans :=
            match roamingPlans updatedSession with
            | [] => None
            | _ :: _ => Some (roamingPlans updatedSession)
            end;
          d_recommendation := recommendation updatedSession |} |}.

(** The end of [handleChatRequest], from [analyzeAgentResponse] on:
    [session] is the object obtained on entry, [userMessage] the message
    already pushed to its log. *)
Definition finishTurn (session : Session) (message : string) (userMessage : Message)
    (assistantResponse : string) : M Response :=
  let! stateUpdates := analyzeAgentResponse assistantResponse session message in
  match su_intent stateUpdates with
  | Some iu => updateIntent (sessionId session) iu ;; ret tt
  | None => ret tt
  end ;;
  match su_phase stateUpdates with
  | Some p => transitionPhase (sessionId session) p ;; ret tt
  | None => ret tt
  end ;;
  let! t2 := now in
  let assistantMessage :=
    {| role := assistant; content := assistantResponse; timestamp := t2 |} in
  let! o :=
    updateSession (sessionId session)
      (messagesUpdate (messages session ++ [userMessage; assistantMessage])%list) in
  match o with
  | None => throw TypeError
  | Some updatedSession => ret (buildResponse updatedSession assistantResponse)
  end.

(** [handleChatRequest({ userId, message, sessionId })] *)
Definition handleChatRequest (ext : Reasoning) (uid : string) (message : string)
    (sid : option string) : M Response :=
  if negb (Str.truthy uid) then throw (Error "缺少必填欄位：userId")
  else if negb (Str.truthy message) || Str.blank message
  then throw (Error "缺少必填欄位：message")
  else
    let! ks := openSession ext uid sid in
    let key := fst ks in
    let session := snd ks in
    let! t1 := now in
    let userMessage := {| role := user; content := message; timestamp := t1 |} in
    pushStored key userMessage ;;
    getAgent ext ;;
    let! assistantResponse :=
      tryCatch (agentStep ext session message) (fun _ => ret errorResponse) in
    finishTurn session message userMessage assistantResponse.

End Core.

(** ** The phase table, in the words of the specification *)

(** Modelled on the table of the specification (section 4.2), to be
    compared with [validTransitions]. *)
Inductive tableStep : Phase -> Phase -> Prop :=
| step_detect_confirm : tableStep IntentDetection Confirmation
| step_confirm_approval : tableStep Confirmation Approval
| step_confirm_detect : tableStep Confirmation IntentDetection
| step_approval_collect : tableStep Approval DataCollection
| step_approval_confirm : tableStep Approval Confirmation
| step_collect_recommend : tableStep DataCollection Recommendation.

(** ** Worlds *)

(** The world after one clock read. *)
Definition tick (w : World) : World :=
  {| sessions := sessions w; agentInstance := agentInstance w; ticks := S (ticks w) |}.

(** The world with another session map. *)
Definition withSessions (m : gmap string Session) (w : World) : World :=
  {| sessions := m; agentInstance := agentInstance w; ticks := ticks w |}.


(** ** Triples for the effect monad

    [hoare P c Q E]: from a world satisfying [P], [c] either returns [a] in
    a world satisfying [Q a], or throws [e] in a world satisfying [E e]. *)
Definition hoare {A} (P : World -> Prop) (c : M A)
    (Q : A -> World -> Prop) (E : Exn -> World -> Prop) : Prop :=
  forall w, P w ->
    match c w with
    | (Ok a, w') => Q a w'
    | (Throw e, w') => E e w'
    end.

(** Updates that leave the data of the external agents alone. *)
Definition dataFree (u : Updates) : Prop :=
  u_usageData u = None /\ u_roamingPlans u = None /\ u_recommendation u = None.

(** Updates that leave the pending approval alone. *)
Definition pendingFree (u : Updates) : Prop :=
  u_pendingRunState u = None /\ u_pendingInterruptions u = None.

(** The three data fields are as [createSession] made them. *)
Definition noData (s : Session) : Prop :=
  usageData s = None /\ roamingPlans s = [] /\ recommendation s = None.

(** Between the clock reads [lo] and [hi] less than a TTL passes. *)
Definition calm (clock : nat -> Z) (ttl : Z) (lo hi : nat) : Prop :=
  forall i j, (lo <= i < hi)%nat -> (lo <= j < hi)%nat -> clock j <= clock i + ttl.

(** The session does not expire before the clock read [hi]. *)
Definition alive (clock : nat -> Z) (lo hi : nat) (s : Session) : Prop :=
  forall j, (lo <= j < hi)%nat -> clock j <= expiresAt s.

(** At most [n] clock reads after read [lo], the session stored under [key]
    satisfies [phi] and is alive, and an agent exists or can be created
    ([ag] says that [createRoamingAgent] resolves). *)
Definition liveAt (clock : nat -> Z) (lo hi : nat) (key : string) (ag : bool)
    (phi : Session -> Prop) (n : nat) (w : World) : Prop :=
  (lo <= ticks w <= lo + n)%nat
  /\ (ag || agentInstance w = true)%bool
  /\ exists s, sessions w !! key = Some s /\ phi s /\ alive clock lo hi s.

(** The session is the one of [key] and [uid], with the given pending
    approval. *)
Definition pendingIs (key uid : string) (st : option string)
    (calls : list PendingCall) (s : Session) : Prop :=
  sessionId s = key /\ userId s = uid
  /\ pendingRunState s = st /\ pendingInterruptions s = calls.

(** The session is the one of [key] and [uid], in phase [p]. *)
Definition inPhase (key uid : string) (p : Phase) (s : Session) : Prop :=
  sessionId s = key /\ userId s = uid /\ phase s = p.

(** ... and its intent is confirmed and approved. *)
Definition approvedIn (key uid : string) (p : Phase) (s : Session) : Prop :=
  inPhase key uid p s
  /\ confirmed (intent s) = true /\ userApproved (intent s) = true.

(** The fresh run on [message] is suspended: it reports interruptions, and
    the message is not an approval; [st] and [calls] are what is stored. *)
Definition suspends (ext : Reasoning) (message : string) (st : string)
    (calls : list PendingCall) : Prop :=
  exists out i ints rerun,
    runMessage ext message = Resolves out (i :: ints) st rerun
    /\ isApproval message = false
    /\ calls = map simplify (i :: ints).

(** The pending approval after a turn that started with [st0], [calls0]:
    the same, or the one a suspension of this turn stored. *)
Definition pendingAfter (ext : Reasoning) (message : string) (key uid : string)
    (st0 : option string) (calls0 : list PendingCall) (s : Session) : Prop :=
  pendingIs key uid st0 calls0 s
  \/ exists st calls, suspends ext message st calls
                      /\ pendingIs key uid (Some st) calls s.

(** The reply of a resumed turn. *)
Definition resumedReply (o : RunOutcome) : string :=
  match o with
  | Rejects => errorResponse
  | Resolves finalOutput _ _ _ => Str.orElse finalOutput defaultResponse
  end.

(** A request the handler accepts: both fields present, the message not
    blank. *)
Definition validRequest (uid message : string) : Prop :=
  Str.truthy uid = true /\ Str.truthy message = true /\ Str.blank message = false.

(** Consecutive turns of one session with the given messages. *)
Fixpoint turns (clock : nat -> Z) (ttl : Z) (ext : Reasoning) (uid : string)
    (sid : string) (messages : list string) (w : World)
  : list (Res Response) * World :=
  match messages with
  | [] => ([], w)
  | m :: rest =>
      let '(r, w1) := handleChatRequest clock ttl ext uid m (Some sid) w in
      let '(rs, w2) := turns clock ttl ext uid sid rest w1 in
      (r :: rs, w2)
  end.

(** Every stored session satisfies [I]. *)
Definition storeInv (I : Session -> Prop) (w : World) : Prop :=
  forall k s, sessions w !! k = Some s -> I s.

(** The operations of the core on the world: turns of the chat handler,
    with any reasoning layer and any request, the sweep, and the lookups of
    the health and debug endpoints. *)
Inductive reachable (clock : nat -> Z) (ttl : Z) : World -> Prop :=
| reach_init n :
    reachable clock ttl {| sessions := ∅; agentInstance := false; ticks := n |}
| reach_turn w ext uid message sid :
    reachable clock ttl w ->
    reachable clock ttl (snd (handleChatRequest clock ttl ext uid message sid w))
| reach_sweep w :
    reachable clock ttl w ->
    reachable clock ttl (snd (cleanupExpiredSessions clock w))
| reach_count w :
    reachable clock ttl w ->
    reachable clock ttl (snd (getActiveSessionCount clock w))
| reach_get w sid :
    reachable clock ttl w ->
    reachable clock ttl (snd (getSession clock sid w))
| reach_wait w :
    reachable clock ttl w ->
    reachable clock ttl (tick w).

(** ** Sample inputs, used to run the model *)

Module Sample.

(** A clock that advances by one millisecond at every read. *)
Definition ticking (n : nat) : Z := Z.of_nat n.

(** A clock that stands still. *)
Definition frozen (n : nat) : Z := 0.

Definition TTL : Z := 30 * 60 * 1000.

Definition noIntent : Intent :=
  {| destination := None; travelDates := {| start := None; end_ := None |};
     confirmed := false; userApproved := false;
     detectedAt := None; confirmedAt := None |}.

Definition japan : Intent :=
  {| destination := Some "日本"; travelDates := {| start := None; end_ := None |};
     confirmed := false; userApproved := false;
     detectedAt := Some 0; confirmedAt := None |}.

Definition sessionIn (p : Phase) (i : Intent) (pending : option string)
    (calls : list PendingCall) : Session :=
  {| sessionId := "s1"; userId := "u1"; createdAt := 0; lastActivityAt := 0;
     expiresAt := TTL; phase := p; intent := i;
     usageData := None; roamingPlans := []; recommendation := None;
     messages := []; pendingRunState := pending; pendingInterruptions := calls |}.

Definition worldOf (s : Session) : World :=
  {| sessions := {[ "s1" := s ]}; agentInstance := true; ticks := 0 |}.

Definition emptyWorld : World :=
  {| sessions := ∅; agentInstance := false; ticks := 0 |}.

Definition planCall : Interruption :=
  {| i_name := "query_plans"; i_agentName := "漫遊客服助理";
     i_arguments := "{input: 日本}"; handle := 1 |}.

Definition usageCall : Interruption :=
  {| i_name := "get_usage"; i_agentName := "漫遊客服助理";
     i_arguments := "{}"; handle := 2 |}.

(** A reasoning layer whose fresh run asks approval for two calls and
    answers once they are approved; restoring works, resuming answers. *)
Definition helpful : Reasoning :=
  {| sdkSessionId := Some "s1";
     agentCreated := true;
     fromString := fun _ => true;
     resume := fun _ _ => Resolves (Some "為您推薦以下方案") [] EmptyString Rejects;
     runMessage := fun _ =>
       Resolves None [planCall; usageCall] "state-1"
                (Resolves (Some "為您推薦以下方案") [] EmptyString Rejects) |}.

(** A reasoning layer that answers directly. *)
Definition direct : Reasoning :=
  {| sdkSessionId := Some "s1";
     agentCreated := true;
     fromString := fun _ => true;
     resume := fun _ _ => Resolves (Some "好的！") [] EmptyString Rejects;
     runMessage := fun _ => Resolves (Some "好的！") [] EmptyString Rejects |}.

(** Restoring works, the resumed run rejects. *)
Definition resumeFails : Reasoning :=
  {| sdkSessionId := Some "s1";
     agentCreated := true;
     fromString := fun _ => true;
     resume := fun _ _ => Rejects;
     runMessage := fun _ => Rejects |}.

(** Restoring itself rejects. *)
Definition restoreFails : Reasoning :=
  {| sdkSessionId := Some "s1";
     agentCreated := true;
     fromString := fun _ => false;
     resume := fun _ _ => Rejects;
     runMessage := fun _ => Rejects |}.

End Sample.

(** A keyword is caseless when none of its bytes is an ASCII letter:
    [toLowerCase] can then neither create nor destroy an occurrence of it. *)
Definition caselessByte (a : Ascii.ascii) : bool :=
  let n := Ascii.nat_of_ascii a in
  negb ((Nat.leb 65 n && Nat.leb n 90) || (Nat.leb 97 n && Nat.leb n 122)).

Fixpoint caseless (k : string) : bool :=
  match k with
  | EmptyString => true
  | String a k' => caselessByte a && caseless k'
  end.

(** * Further definitions: sweep, router, recommendation logic *)

(** The sessions a sweep at time [t] deletes. *)
Definition expiredAt (t : Z) (m : gmap string Session) : gmap string Session :=
  filter (fun kv => expiresAt (snd kv) < t) m.

(** A request as the rate limiting middleware sees it: [req.body?.sessionId],
    [req.ip] and the value of [Date.now()]. *)
Record RateRequest := {
  rq_sessionId : option string;
  rq_ip : string;
  rq_now : Z
}.

(** The middleware over a sequence of requests. *)
Fixpoint rateLimitRequests (requests : list RateRequest)
    (rateLimitStore : gmap string RateLimitRecord)
  : gmap string RateLimitRecord * list Decision :=
  match requests with
  | [] => (rateLimitStore, [])
  | rq :: rest =>
      let '(store1, d) :=
        rateLimit (rateLimitKey (rq_sessionId rq) (rq_ip rq)) (rq_now rq) rateLimitStore in
      let '(store2, ds) := rateLimitRequests rest store1 in
      (store2, d :: ds)
  end.

(** ** The route POST /api/chat (src/api/chat.js) *)

(** What the route sends: [res.json(result)], or [res.status(n).json(...)]
    with the fields [error] and, for status 500, [message]. *)
Inductive HttpReply :=
| Reply200 (result : Response)
| ReplyError (status : Z) (error : string) (message : option string).

(** [error.message].  The text of a [TypeError] is the engine's;
    [typeErrorText] stands for it. *)
Definition errorMessage (typeErrorText : string) (e : Exn) : string :=
  match e with
  | Error msg => msg
  | TypeError => typeErrorText
  end.

(** The [try]/[catch] of the route around [handleChatRequest]. *)
Definition chatRoute (typeErrorText : string) (outcome : Res Response) : HttpReply :=
  match outcome with
  | Ok result => Reply200 result
  | Throw e =>
      let message := errorMessage typeErrorText e in
      if Str.includes message "缺少必填欄位" then ReplyError 400 message None
      else if Str.includes message "不存在或已過期" then ReplyError 404 message None
      else if Str.includes message "不屬於此使用者" then ReplyError 403 message None
      else ReplyError 500 "處理訊息時發生錯誤" (Some message)
  end.

(** [POST /api/chat] with the body fields [userId], [sessionId], [message]. *)
Definition postChat (clock : nat -> Z) (ttl : Z) (typeErrorText : string)
    (ext : Reasoning) (uid : string) (sid : option string) (message : string)
    (w : World) : HttpReply * World :=
  let '(outcome, w') := handleChatRequest clock ttl ext uid message sid w in
  (chatRoute typeErrorText outcome, w').

(** ** Invariants of reachable worlds *)

(** Every stored session satisfies [I] at its key. *)
Definition storeInvK (I : string -> Session -> Prop) (w : World) : Prop :=
  forall k s, sessions w !! k = Some s -> I k s.

(** The intent updates [analyzeAgentResponse] can ask for. *)
Definition analysisIntent (iu : IntentUpdates) : Prop :=
  (exists country t,
     iu = {| iu_destination := Some (Some country); iu_travelDates := None;
             iu_confirmed := Some false; iu_userApproved := Some false;
             iu_detectedAt := Some (Some t); iu_confirmedAt := None |})
  \/ (exists t,
        iu = {| iu_destination := None; iu_travelDates := None;
                iu_confirmed := Some true; iu_userApproved := Some true;
                iu_detectedAt := None; iu_confirmedAt := Some (Some t) |}).

Definition analysisTarget (target : string) : Prop :=
  target = "confirmation" \/ target = "data-collection".

(** The session is stored under its own identifier, is in one of the first
    two phases, and is confirmed exactly when it is approved. *)
Definition healthy (k : string) (s : Session) : Prop :=
  sessionId s = k
  /\ (phase s = IntentDetection \/ phase s = Confirmation)
  /\ confirmed (intent s) = userApproved (intent s).

(** ** The message log of a turn *)

(** The session is the one of [key] and [uid]. *)
Definition ownedBy (key uid : string) (s : Session) : Prop :=
  sessionId s = key /\ userId s = uid.

(** ... and its message log is [l]. *)
Definition logIs (key uid : string) (l : list Message) (s : Session) : Prop :=
  ownedBy key uid s /\ messages s = l.

(** The two messages that a turn logs. *)
Definition userMessageAt (message : string) (t : Z) : Message :=
  {| role := user; content := message; timestamp := t |}.

Definition assistantMessageAt (response : string) (t : Z) : Message :=
  {| role := assistant; content := response; timestamp := t |}.

(** The turn enters the approve-and-run-again loop of the handler:
    [session.pendingRunState] (here [pending]) is not set, the run on the
    message resolves with interruptions, and the message is an approval. *)
Definition entersLoop (ext : Reasoning) (pending : option string) (message : string)
  : bool :=
  negb (truthyOpt pending)
  && match runMessage ext message with
     | Rejects => false
     | Resolves _ interruptions _ _ =>
         match interruptions with
         | [] => false
         | _ :: _ => isApproval message
         end
     end.

(** * Properties *)

(** ** The phase table *)

Lemma validTransitions_table (p q : Phase) :
  In q (validTransitions p) <-> tableStep p q.
Proof.
  split.
  - destruct p; simpl; intros H;
      repeat (destruct H as [<- | H]; [constructor | ]); destruct H.
  - destruct 1; simpl; auto.
Qed.

Lemma findPhase_Some (allowed : list Phase) (target : string) (p : Phase) :
  findPhase allowed target = Some p -> In p allowed /\ phaseName p = target.
Proof.
  unfold findPhase. intros H. apply find_some in H as [Hin Heq].
  split; [exact Hin | now apply String.eqb_eq].
Qed.

Lemma findPhase_None (allowed : list Phase) (target : string) :
  findPhase allowed target = None <->
  (forall p, In p allowed -> phaseName p <> target).
Proof.
  unfold findPhase. split.
  - intros H p Hin Heq.
    pose proof (find_none _ _ H p Hin) as Hf. simpl in Hf.
    apply String.eqb_neq in Hf. contradiction.
  - intros H. destruct (find _ allowed) as [p|] eqn:E; [ | reflexivity].
    apply find_some in E as [Hin Heq]. apply String.eqb_eq in Heq.
    exfalso. exact (H p Hin Heq).
Qed.

(** ** Equations of the store operations *)

Section StoreFacts.

Variable clock : nat -> Z.
Variable SESSION_TIMEOUT_MS : Z.

Lemma getSession_eq (sid : string) (w : World) :
  getSession clock sid w =
  if Str.truthy sid then
    match sessions w !! sid with
    | None => (Ok None, w)
    | Some s =>
        if clock (ticks w) >? expiresAt s
        then (Ok None, withSessions (delete sid (sessions w)) (tick w))
        else (Ok (Some s), tick w)
    end
  else (Ok None, w).
Proof.
  unfold getSession, bind, getSessions, ret, now, setSessions.
  destruct (Str.truthy sid); simpl; [ | reflexivity].
  destruct (sessions w !! sid) as [s|]; [ | reflexivity].
  simpl. destruct (clock (ticks w) >? expiresAt s); reflexivity.
Qed.

Lemma updateSession_eq (sid : string) (u : Updates) (w : World) :
  updateSession clock SESSION_TIMEOUT_MS sid u w =
  match getSession clock sid w with
  | (Ok (Some s), w1) =>
      let s' := updatedWith SESSION_TIMEOUT_MS s u
                  (clock (ticks w1)) (clock (S (ticks w1))) in
      (Ok (Some s'), withSessions (<[sid := s']> (sessions w1)) (tick (tick w1)))
  | (Ok None, w1) => (Ok None, w1)
  | (Throw e, w1) => (Throw e, w1)
  end.
Proof.
  unfold updateSession, bind.
  destruct (getSession clock sid w) as [[[s|]|e] w1]; reflexivity.
Qed.

Lemma createSession_eq (sdkId uid : string) (w : World) :
  createSession clock SESSION_TIMEOUT_MS sdkId uid w =
  (Ok sdkId,
   withSessions
     (<[sdkId := freshSession SESSION_TIMEOUT_MS sdkId uid (clock (ticks w))
                   (clock (S (ticks w))) (clock (S (S (ticks w))))]> (sessions w))
     (tick (tick (tick w)))).
Proof. reflexivity. Qed.

(** [getSession] never throws, and returns a session only if it is the one
    stored and the clock has not passed its expiry. *)
Lemma getSession_cases (sid : string) (w : World) :
  (exists s, sessions w !! sid = Some s /\ Str.truthy sid = true
             /\ clock (ticks w) <= expiresAt s
             /\ getSession clock sid w = (Ok (Some s), tick w))
  \/ (getSession clock sid w = (Ok None, w) /\
      (Str.truthy sid = false \/ sessions w !! sid = None))
  \/ (exists s, sessions w !! sid = Some s /\ Str.truthy sid = true
                /\ expiresAt s < clock (ticks w)
                /\ getSession clock sid w
                   = (Ok None, withSessions (delete sid (sessions w)) (tick w))).
Proof.
  rewrite getSession_eq.
  destruct (Str.truthy sid) eqn:Ht; [ | right; left; auto].
  destruct (sessions w !! sid) as [s|] eqn:Hs; [ | right; left; auto].
  destruct (clock (ticks w) >? expiresAt s) eqn:Hc.
  - right; right. exists s. repeat split; auto. lia.
  - left. exists s. repeat split; auto. lia.
Qed.

End StoreFacts.

(** A live session is updated: the call returns the merged object and
    stores it, after three clock reads. *)
Lemma updateSession_live (clock : nat -> Z) (ttl : Z) (sid : string) (u : Updates)
    (w : World) (s : Session) :
  Str.truthy sid = true ->
  sessions w !! sid = Some s ->
  clock (ticks w) <= expiresAt s ->
  updateSession clock ttl sid u w =
  (Ok (Some (updatedWith ttl s u (clock (S (ticks w))) (clock (S (S (ticks w)))))),
   withSessions
     (<[sid := updatedWith ttl s u (clock (S (ticks w))) (clock (S (S (ticks w))))]>
        (sessions w))
     (tick (tick (tick w)))).
Proof.
  intros Ht Hs Hle. rewrite updateSession_eq, getSession_eq, Ht, Hs.
  destruct (clock (ticks w) >? expiresAt s) eqn:Hc; [lia | reflexivity].
Qed.

(** ** Lookup with lazy eviction *)

(** C9. For a session identifier [sid], [getSession] returns the stored
    session exactly when one is stored under [sid] and the clock reads at
    most its [expiresAt] (the instant [now = expiresAt] included), leaving
    the store as it is; when the stored session has [now > expiresAt], the
    call deletes it and returns absent, so that it is gone on this first
    access after expiry, whatever the sweep does; other keys are not touched.
    (The empty string is falsy and never names a session.) *)
Theorem getSession_lazy_eviction (clock : nat -> Z) (sid : string) (w : World) :
  Str.truthy sid = true ->
  let t := clock (ticks w) in
  let r := fst (getSession clock sid w) in
  let w' := snd (getSession clock sid w) in
  (forall s, r = Ok (Some s) <-> sessions w !! sid = Some s /\ t <= expiresAt s)
  /\ (forall s, sessions w !! sid = Some s -> t = expiresAt s -> r = Ok (Some s))
  /\ (forall s, r = Ok (Some s) -> sessions w' = sessions w)
  /\ (forall s, sessions w !! sid = Some s -> expiresAt s < t ->
        r = Ok None /\ sessions w' = delete sid (sessions w)
        /\ sessions w' !! sid = None)
  /\ (sessions w !! sid = None -> r = Ok None /\ w' = w)
  /\ (forall k, k <> sid -> sessions w' !! k = sessions w !! k).
Proof.
  intros Ht t r w'. subst t r w'. rewrite getSession_eq, Ht.
  destruct (sessions w !! sid) as [s0|] eqn:Hs.
  - destruct (clock (ticks w) >? expiresAt s0) eqn:Hc; simpl;
      (repeat split; intros; destruct_and?; simplify_eq; try lia;
       try reflexivity; try apply lookup_delete_eq;
       try (apply lookup_delete_ne; congruence)).
  - simpl. repeat split; intros; destruct_and?; simplify_eq; auto.
Qed.

Lemma getSession_lazy_eviction_witness :
  fst (getSession Sample.ticking "s1"
         {| sessions := {[ "s1" := Sample.sessionIn IntentDetection Sample.noIntent None [] ]};
            agentInstance := true; ticks := Z.to_nat Sample.TTL |})
  = Ok (Some (Sample.sessionIn IntentDetection Sample.noIntent None [])).
Proof.
  refine (proj1 (proj2
    (getSession_lazy_eviction Sample.ticking "s1"
       {| sessions := {[ "s1" := Sample.sessionIn IntentDetection Sample.noIntent None [] ]};
          agentInstance := true; ticks := Z.to_nat Sample.TTL |} eq_refl)) _ _ _).
  - vm_compute. reflexivity.
  - vm_compute. reflexivity.
Defined.

(** ** Bounded message log *)

Lemma sliceLast_spec {A} (n : nat) (l : list A) :
  (n < List.length l)%nat ->
  List.length (sliceLast n l) = n /\
  l = (take (List.length l - n) l ++ sliceLast n l)%list.
Proof.
  intros H. unfold sliceLast. split.
  - rewrite length_drop. lia.
  - symmetry. apply take_drop.
Qed.

Lemma updatedWith_messages (ttl : Z) (s : Session) (u : Updates) (a b : Z) :
  let incoming := orField (u_messages u) (messages s) in
  (List.length (messages (updatedWith ttl s u a b)) <= 20)%nat
  /\ ((List.length incoming <= 20)%nat -> messages (updatedWith ttl s u a b) = incoming)
  /\ ((20 < List.length incoming)%nat ->
        List.length (messages (updatedWith ttl s u a b)) = 20%nat
        /\ messages (updatedWith ttl s u a b) = drop (List.length incoming - 20) incoming
        /\ exists dropped,
             incoming = (dropped ++ messages (updatedWith ttl s u a b))%list).
Proof.
  intros incoming. unfold updatedWith. simpl. fold incoming. unfold MAX_MESSAGES.
  destruct (Nat.ltb 20 (List.length incoming)) eqn:E.
  - apply Nat.ltb_lt in E. destruct (sliceLast_spec 20 incoming E) as [Hl Happ].
    repeat split; try lia.
    exists (take (List.length incoming - 20) incoming). exact Happ.
  - apply Nat.ltb_ge in E. repeat split; try lia.
Qed.

(** C8. [updateSession] never throws.  It returns a session exactly when a
    session is stored under the (non-empty) identifier and has not expired
    at the first clock read; that session is then replaced in the store by
    the returned one, whose message log has at most 20 entries: the log is
    the incoming list ([updates.messages], or else the stored one) when
    that has at most 20 entries, and otherwise exactly its last 20 entries
    in their order, the oldest ones being dropped.  It returns null only
    when the identifier is empty or not stored (nothing changes) or the
    stored session has expired (it is deleted). *)
Theorem updateSession_messages_bounded (clock : nat -> Z) (ttl : Z)
    (sid : string) (u : Updates) (w : World) :
  match updateSession clock ttl sid u w with
  | (Ok (Some s'), w') =>
      sessions w' !! sid = Some s'
      /\ (List.length (messages s') <= 20)%nat
      /\ exists s, sessions w !! sid = Some s
           /\ Str.truthy sid = true
           /\ clock (ticks w) <= expiresAt s
           /\ let incoming := orField (u_messages u) (messages s) in
              ((List.length incoming <= 20)%nat -> messages s' = incoming)
              /\ ((20 < List.length incoming)%nat ->
                    List.length (messages s') = 20%nat
                    /\ messages s' = drop (List.length incoming - 20) incoming
                    /\ exists dropped, incoming = (dropped ++ messages s')%list)
  | (Ok None, w') =>
      (w' = w /\ (Str.truthy sid = false \/ sessions w !! sid = None))
      \/ (exists s, sessions w !! sid = Some s
                    /\ Str.truthy sid = true
                    /\ expiresAt s < clock (ticks w)
                    /\ sessions w' !! sid = None)
  | (Throw _, _) => False
  end.
Proof.
  rewrite updateSession_eq.
  destruct (getSession_cases clock sid w)
    as [(s & Hs & Ht & Hle & ->) | [[-> Hno] | (s & Hs & Ht & Hlt & ->)]].
  - cbv zeta. split; [apply lookup_insert_eq | ].
    pose proof (updatedWith_messages ttl s u (clock (ticks (tick w)))
                  (clock (S (ticks (tick w))))) as (H1 & H2 & H3).
    split; [exact H1 | ]. exists s. split; [exact Hs | ].
    split; [exact Ht | ]. split; [exact Hle | ]. split; assumption.
  - left. split; [reflexivity | exact Hno].
  - right. exists s. split; [exact Hs | ]. split; [exact Ht | ].
    split; [exact Hlt | apply lookup_delete_eq].
Qed.

(** ** Expiry and last activity *)

(** C7, as stated, fails: [updateSession] reads the clock once for
    [lastActivityAt] and once more for [expiresAt]; when the clock advances
    between the two reads the difference is not the TTL. *)
Lemma expiry_gap_counterexample :
  exists s' w',
    updateSession Sample.ticking Sample.TTL "s1" noUpdates
      (Sample.worldOf (Sample.sessionIn IntentDetection Sample.noIntent None []))
    = (Ok (Some s'), w')
    /\ expiresAt s' - lastActivityAt s' = Sample.TTL + 1
    /\ expiresAt s' - lastActivityAt s' <> Sample.TTL.
Proof.
  eexists. eexists. split; [vm_compute; reflexivity | ].
  split; vm_compute; congruence.
Qed.

(** C7, amended. After every successful [updateSession], and after
    [createSession], [lastActivityAt] and [expiresAt - TTL] of the stored
    session are two consecutive clock readings of that call.  So
    [expiresAt - lastActivityAt] is the TTL plus the advance of the clock
    between the two reads: it is the TTL exactly when both reads give the
    same instant, and at least the TTL when the clock does not go back. *)
Theorem expiry_after_mutation (clock : nat -> Z) (ttl : Z) :
  (forall sid u w s' w',
      updateSession clock ttl sid u w = (Ok (Some s'), w') ->
      sessions w' !! sid = Some s'
      /\ lastActivityAt s' = clock (S (ticks w))
      /\ expiresAt s' = clock (S (S (ticks w))) + ttl
      /\ (clock (S (S (ticks w))) = clock (S (ticks w)) ->
          expiresAt s' - lastActivityAt s' = ttl)
      /\ (clock (S (ticks w)) <= clock (S (S (ticks w))) ->
          ttl <= expiresAt s' - lastActivityAt s'))
  /\ (forall sid u w s,
        Str.truthy sid = true -> sessions w !! sid = Some s ->
        clock (ticks w) <= expiresAt s ->
        exists s' w', updateSession clock ttl sid u w = (Ok (Some s'), w'))
  /\ (forall sdkId uid w,
        exists s' w',
          createSession clock ttl sdkId uid w = (Ok sdkId, w')
          /\ sessions w' !! sdkId = Some s'
          /\ lastActivityAt s' = clock (S (ticks w))
          /\ expiresAt s' = clock (S (S (ticks w))) + ttl
          /\ (clock (S (S (ticks w))) = clock (S (ticks w)) ->
              expiresAt s' - lastActivityAt s' = ttl)
          /\ (clock (S (ticks w)) <= clock (S (S (ticks w))) ->
              ttl <= expiresAt s' - lastActivityAt s')).
Proof.
  split; [ | split].
  - intros sid u w s' w'. rewrite updateSession_eq.
    destruct (getSession_cases clock sid w)
      as [(s & Hs & Ht & Hle & ->) | [[-> _] | (s & Hs & Ht & Hlt & ->)]];
      try discriminate.
    cbv zeta. intros [= <- <-]. simpl.
    split; [apply lookup_insert_eq | ].
    repeat split; lia.
  - intros sid u w s Ht Hs Hle.
    rewrite (updateSession_live clock ttl sid u w s Ht Hs Hle). eauto.
  - intros sdkId uid w. rewrite createSession_eq. eexists. eexists.
    split; [reflexivity | ]. simpl.
    split; [apply lookup_insert_eq | ].
    simpl. repeat split; lia.
Qed.

Lemma expiry_after_mutation_witness :
  exists s',
    sessions (snd (updateSession Sample.frozen Sample.TTL "s1" noUpdates
                (Sample.worldOf (Sample.sessionIn IntentDetection Sample.noIntent None []))))
      !! "s1" = Some s'
    /\ expiresAt s' - lastActivityAt s' = Sample.TTL.
Proof.
  eexists.
  pose proof (proj1 (expiry_after_mutation Sample.frozen Sample.TTL) "s1" noUpdates
    (Sample.worldOf (Sample.sessionIn IntentDetection Sample.noIntent None []))
    _ _ eq_refl) as (H1 & _ & _ & H4 & _).
  split; [exact H1 | exact (H4 eq_refl)].
Defined.

(** ** Phase transitions *)

Lemma transitionPhase_eq (clock : nat -> Z) (ttl : Z) (sid target : string) (w : World) :
  transitionPhase clock ttl sid target w =
  match getSession clock sid w with
  | (Ok (Some s), w1) =>
      match findPhase (validTransitions (phase s)) target with
      | None => (Ok (Some s), w1)
      | Some p =>
          updateSession clock ttl sid (phaseUpdate p) w1
      end
  | (Ok None, w1) => (Ok None, w1)
  | (Throw e, w1) => (Throw e, w1)
  end.
Proof.
  unfold transitionPhase, bind.
  destruct (getSession clock sid w) as [[[s|]|e] w1]; try reflexivity.
  destruct (findPhase (validTransitions (phase s)) target); reflexivity.
Qed.

(** C2. [transitionPhase] never throws.  When it returns a session, either
    the target names a phase that the table allows after the current one,
    and the returned, stored session has that phase; or the target is not
    allowed, and the call returns the very session that was stored, the
    store being left as it was (phase and every other field unchanged).
    The table is: intent-detection to confirmation; confirmation to approval
    or intent-detection; approval to data-collection or confirmation;
    data-collection to recommendation; recommendation to nothing. *)
Theorem transitionPhase_follows_table (clock : nat -> Z) (ttl : Z)
    (sid target : string) (w : World) :
  (match transitionPhase clock ttl sid target w with
   | (Throw _, _) => False
   | (Ok None, w') => w' = w \/ sessions w' !! sid = None
   | (Ok (Some s'), w') =>
       exists s, sessions w !! sid = Some s /\
         ((tableStep (phase s) (phase s') /\ phaseName (phase s') = target
           /\ sessions w' !! sid = Some s')
          \/ ((forall q, tableStep (phase s) q -> phaseName q <> target)
              /\ s' = s /\ sessions w' = sessions w))
   end)
  /\ (forall s,
        Str.truthy sid = true -> sessions w !! sid = Some s ->
        clock (ticks w) <= expiresAt s ->
        (forall q, tableStep (phase s) q -> phaseName q <> target) ->
        exists w', transitionPhase clock ttl sid target w = (Ok (Some s), w')
                   /\ sessions w' = sessions w)
  /\ (forall s q,
        Str.truthy sid = true -> sessions w !! sid = Some s ->
        clock (ticks w) <= expiresAt s -> clock (S (ticks w)) <= expiresAt s ->
        tableStep (phase s) q -> phaseName q = target ->
        exists s' w', transitionPhase clock ttl sid target w = (Ok (Some s'), w')
                      /\ sessions w' !! sid = Some s' /\ phase s' = q).
Proof.
  split; [ | split].
  - rewrite transitionPhase_eq.
    destruct (getSession_cases clock sid w)
      as [(s & Hs & Ht & Hle & ->) | [[-> _] | (s & Hs & Ht & Hlt & ->)]].
    + destruct (findPhase (validTransitions (phase s)) target) as [p|] eqn:Hf.
      * apply findPhase_Some in Hf as [Hin Hname].
        apply validTransitions_table in Hin.
        rewrite updateSession_eq.
        destruct (getSession_cases clock sid (tick w))
          as [(s1 & Hs1 & _ & _ & ->) | [[-> Habs] | (s1 & Hs1 & _ & _ & ->)]].
        -- cbv zeta. exists s. split; [exact Hs | left].
           simpl in Hs1. rewrite Hs in Hs1. injection Hs1 as <-.
           simpl. repeat split; auto. apply lookup_insert_eq.
        -- exfalso. simpl in Habs. destruct Habs; congruence.
        -- right. simpl. apply lookup_delete_eq.
      * exists s. split; [exact Hs | right].
        split; [ | split; reflexivity].
        intros q Hq. apply validTransitions_table in Hq.
        exact (proj1 (findPhase_None _ _) Hf q Hq).
    + left; reflexivity.
    + right. apply lookup_delete_eq.
  - intros s Ht Hs Hle Hno. rewrite transitionPhase_eq, getSession_eq, Ht, Hs.
    destruct (clock (ticks w) >? expiresAt s) eqn:Hc; [lia | ].
    assert (findPhase (validTransitions (phase s)) target = None) as ->.
    { apply findPhase_None. intros p Hp. apply Hno.
      now apply validTransitions_table. }
    eexists. split; reflexivity.
  - intros s q Ht Hs Hle Hle2 Hstep Hname.
    rewrite transitionPhase_eq, getSession_eq, Ht, Hs.
    destruct (clock (ticks w) >? expiresAt s) eqn:Hc; [lia | ].
    destruct (findPhase (validTransitions (phase s)) target) as [p|] eqn:Hf.
    + apply findPhase_Some in Hf as [Hin Hp].
      assert (p = q) as ->.
      { rewrite <- Hname in Hp. clear - Hp. destruct p, q; simpl in Hp; congruence. }
      rewrite (updateSession_live clock ttl sid _ (tick w) s Ht Hs Hle2).
      eexists. eexists. split; [reflexivity | ].
      split; [apply lookup_insert_eq | reflexivity].
    + exfalso. apply (proj1 (findPhase_None _ _) Hf q); auto.
      now apply validTransitions_table.
Qed.

Lemma transitionPhase_follows_table_witness :
  (exists w',
     transitionPhase Sample.frozen Sample.TTL "s1" "data-collection"
       (Sample.worldOf (Sample.sessionIn Confirmation Sample.japan None []))
     = (Ok (Some (Sample.sessionIn Confirmation Sample.japan None [])), w')
     /\ sessions w'
        = sessions (Sample.worldOf (Sample.sessionIn Confirmation Sample.japan None [])))
  /\ (exists s' w',
        transitionPhase Sample.frozen Sample.TTL "s1" "confirmation"
          (Sample.worldOf (Sample.sessionIn IntentDetection Sample.japan None []))
        = (Ok (Some s'), w')
        /\ sessions w' !! "s1" = Some s' /\ phase s' = Confirmation).
Proof.
  split.
  - apply (proj1 (proj2 (transitionPhase_follows_table Sample.frozen Sample.TTL
             "s1" "data-collection"
             (Sample.worldOf (Sample.sessionIn Confirmation Sample.japan None []))))).
    + reflexivity.
    + reflexivity.
    + vm_compute. discriminate.
    + intros q Hq. inversion Hq; vm_compute; discriminate.
  - apply (proj2 (proj2 (transitionPhase_follows_table Sample.frozen Sample.TTL
             "s1" "confirmation"
             (Sample.worldOf (Sample.sessionIn IntentDetection Sample.japan None []))))
             (Sample.sessionIn IntentDetection Sample.japan None []) Confirmation).
    + reflexivity.
    + reflexivity.
    + vm_compute. discriminate.
    + vm_compute. discriminate.
    + constructor.
    + reflexivity.
Defined.

(** ** Approval predicates of the gated tools *)

Lemma eqb_lowerByte (b a : Ascii.ascii) :
  caselessByte b = true -> Ascii.eqb b (Str.lowerByte a) = Ascii.eqb b a.
Proof.
  unfold caselessByte, Str.lowerByte. intros Hb.
  destruct (Nat.leb 65 (Ascii.nat_of_ascii a) && Nat.leb (Ascii.nat_of_ascii a) 90)%bool
    eqn:Ha; [ | reflexivity].
  apply andb_true_iff in Ha as [Ha1 Ha2].
  apply Nat.leb_le in Ha1. apply Nat.leb_le in Ha2.
  apply negb_true_iff, orb_false_iff in Hb as [Hb1 Hb2].
  assert (Ascii.eqb b a = false) as ->.
  { apply Ascii.eqb_neq. intros ->.
    apply andb_false_iff in Hb1 as [H | H]; apply Nat.leb_gt in H; lia. }
  apply Ascii.eqb_neq. intros ->.
  rewrite Ascii.nat_ascii_embedding in Hb2 by lia.
  apply andb_false_iff in Hb2 as [H | H]; apply Nat.leb_gt in H; lia.
Qed.

Lemma startsWith_toLowerCase (k s : string) :
  caseless k = true ->
  Str.startsWith k (Str.toLowerCase s) = Str.startsWith k s.
Proof.
  revert s. induction k as [ | b k IH]; intros s Hk; [reflexivity | ].
  simpl in Hk. apply andb_true_iff in Hk as [Hb Hk].
  destruct s as [ | a s]; [reflexivity | ].
  simpl. rewrite (eqb_lowerByte b a Hb), (IH s Hk). reflexivity.
Qed.

Lemma includes_toLowerCase (k s : string) :
  caseless k = true ->
  Str.includes (Str.toLowerCase s) k = Str.includes s k.
Proof.
  intros Hk. induction s as [ | a s IH].
  - reflexivity.
  - change (Str.toLowerCase (String a s))
      with (String (Str.lowerByte a) (Str.toLowerCase s)).
    cbn [Str.includes].
    change (String (Str.lowerByte a) (Str.toLowerCase s))
      with (Str.toLowerCase (String a s)).
    rewrite (startsWith_toLowerCase k (String a s) Hk), IH. reflexivity.
Qed.

Lemma someIncluded_toLowerCase (keywords : list string) (s : string) :
  forallb caseless keywords = true ->
  Str.someIncluded keywords (Str.toLowerCase s) = Str.someIncluded keywords s.
Proof.
  unfold Str.someIncluded. induction keywords as [ | k l IH]; intros H; [reflexivity | ].
  simpl in H. apply andb_true_iff in H as [Hk Hl].
  simpl. rewrite (includes_toLowerCase k s Hk), (IH Hl). reflexivity.
Qed.

(** What the three [needsApproval] predicates compute: [query_plans]
    requires approval exactly when [userApproved] is not true in the run
    context and, in addition, the tool input contains one of the words
    方案, 查詢, 推薦, 漫遊; [get_usage] and [analyze_and_recommend]
    require approval exactly when [userApproved] is not true. *)
Lemma needsApproval_characterised (ctx : option RunContext) (input : option string) :
  (needsApproval_query_plans ctx input = true <->
     ctxUserApproved ctx = false
     /\ exists k, In k planTriggers
                  /\ Str.includes (Str.orElse input EmptyString) k = true)
  /\ (needsApproval_get_usage ctx = true <-> ctxUserApproved ctx = false)
  /\ (needsApproval_analyze_and_recommend ctx = true <-> ctxUserApproved ctx = false).
Proof.
  unfold needsApproval_query_plans, needsApproval_get_usage,
    needsApproval_analyze_and_recommend.
  rewrite (someIncluded_toLowerCase planTriggers _ eq_refl).
  unfold Str.someIncluded.
  split; [ | split].
  - rewrite andb_true_iff, negb_true_iff, existsb_exists. reflexivity.
  - apply negb_true_iff.
  - apply negb_true_iff.
Qed.

(** C5. The claim does not hold of the code: [query_plans] also looks at
    the input text.  Whenever [userApproved] is not true in the run context
    and the tool input contains none of the words 方案, 查詢, 推薦, 漫遊
    (so for a plain destination name such as 日本, the input that the
    description of the tool asks for), [query_plans] requires no approval,
    while [get_usage] and [analyze_and_recommend] in the same context
    require it. *)
Theorem query_plans_skips_approval (ctx : option RunContext) (input : option string) :
  ctxUserApproved ctx = false ->
  (forall k, In k planTriggers ->
             Str.includes (Str.orElse input EmptyString) k = false) ->
  needsApproval_query_plans ctx input = false
  /\ needsApproval_get_usage ctx = true
  /\ needsApproval_analyze_and_recommend ctx = true.
Proof.
  intros Hctx Hnone.
  destruct (needsApproval_characterised ctx input) as (Hq & Hu & Hr).
  split; [ | split; [now apply Hu | now apply Hr]].
  destruct (needsApproval_query_plans ctx input); [ | reflexivity].
  destruct (proj1 Hq eq_refl) as (_ & k & Hk & Hin).
  rewrite (Hnone k Hk) in Hin. discriminate.
Qed.

Lemma query_plans_skips_approval_witness :
  needsApproval_query_plans
    (Some {| rc_session :=
               Some {| cs_intent := Some {| ci_userApproved := Some false |} |} |})
    (Some "日本") = false
  /\ needsApproval_get_usage
       (Some {| rc_session :=
                  Some {| cs_intent := Some {| ci_userApproved := Some false |} |} |})
     = true
  /\ needsApproval_analyze_and_recommend
       (Some {| rc_session :=
                  Some {| cs_intent := Some {| ci_userApproved := Some false |} |} |})
     = true.
Proof.
  apply (query_plans_skips_approval
           (Some {| rc_session :=
                      Some {| cs_intent := Some {| ci_userApproved := Some false |} |} |})
           (Some "日本")).
  - reflexivity.
  - intros k [<- | [<- | [<- | [<- | []]]]]; reflexivity.
Defined.

(** ** Rate limiting *)

Lemma ceilDiv_bounds (a : Z) :
  1000 * (ceilDiv a 1000 - 1) < a <= 1000 * ceilDiv a 1000.
Proof.
  unfold ceilDiv.
  pose proof (Z.div_mod (- a) 1000 ltac:(lia)) as H.
  pose proof (Z.mod_pos_bound (- a) 1000 ltac:(lia)) as Hm.
  lia.
Qed.

Lemma rateLimit_fresh (key : string) (now : Z) (store : gmap string RateLimitRecord) :
  (store !! key = None \/ exists r, store !! key = Some r /\ resetAt r < now) ->
  rateLimit key now store
  = (<[key := {| count := 1; resetAt := now + RATE_LIMIT_WINDOW_MS |}]> store, Next).
Proof.
  unfold rateLimit. intros [-> | (r & -> & Hr)].
  - reflexivity.
  - destruct (now >? resetAt r) eqn:E; [reflexivity | lia].
Qed.

Lemma rateLimit_counted (key : string) (now : Z) (store : gmap string RateLimitRecord)
    (r : RateLimitRecord) :
  store !! key = Some r -> now <= resetAt r ->
  rateLimit key now store
  = (<[key := {| count := count r + 1; resetAt := resetAt r |}]> store,
     if count r + 1 >? RATE_LIMIT_REQUESTS
     then TooManyRequests (ceilDiv (resetAt r - now) 1000) else Next).
Proof.
  unfold rateLimit. intros -> Hr.
  destruct (now >? resetAt r) eqn:E; [lia | ]. simpl.
  destruct (count r + 1 >? RATE_LIMIT_REQUESTS); reflexivity.
Qed.

(** Requests inside the window, while the threshold is not exceeded, are
    all accepted and counted. *)
Lemma rateLimitAll_accepts (key : string) (times : list Z) :
  forall (store : gmap string RateLimitRecord) (r : RateLimitRecord),
    store !! key = Some r ->
    Forall (fun t => t <= resetAt r) times ->
    count r + Z.of_nat (List.length times) <= RATE_LIMIT_REQUESTS ->
    exists store',
      rateLimitAll key times store = (store', repeat Next (List.length times))
      /\ store' !! key
         = Some {| count := count r + Z.of_nat (List.length times);
                   resetAt := resetAt r |}
      /\ (forall k, k <> key -> store' !! k = store !! k).
Proof.
  induction times as [ | t times IH]; intros store r Hs Hall Hc.
  - exists store. simpl. rewrite Z.add_0_r. destruct r; auto.
  - inversion Hall as [ | ? ? Ht Hrest]; subst.
    cbn [rateLimitAll]. rewrite (rateLimit_counted key t store r Hs Ht).
    destruct (count r + 1 >? RATE_LIMIT_REQUESTS) eqn:E.
    { simpl in Hc. unfold RATE_LIMIT_REQUESTS in *. lia. }
    destruct (IH (<[key := {| count := count r + 1; resetAt := resetAt r |}]> store)
                 {| count := count r + 1; resetAt := resetAt r |})
      as (store' & Heq & Hk & Hother).
    + apply lookup_insert_eq.
    + exact Hrest.
    + simpl in *. lia.
    + exists store'. rewrite Heq. simpl in *. split; [reflexivity | ].
      split.
      * rewrite Hk. f_equal. f_equal. lia.
      * intros k Hne. rewrite (Hother k Hne). now apply lookup_insert_ne.
Qed.

(** C6, as stated, fails: the eleventh request of a window, arriving at
    the very instant [resetAt] (the window is not yet over, since the test
    is [now > resetAt]), is rejected with [retryAfter = 0], which is not
    positive. *)
Lemma rateLimit_retry_counterexample :
  exists store' retry,
    rateLimitAll "s1" [0; 1; 2; 3; 4; 5; 6; 7; 8; 9; 60000] ∅
    = (store', (repeat Next 10 ++ [TooManyRequests retry])%list)
    /\ ~ 0 < retry.
Proof.
  eexists. exists 0. split; [vm_compute; reflexivity | lia].
Qed.

(** C6, amended. With W = 60 s and N = 10, for every key:
    a request that finds no record, or one with [now > resetAt], stores the
    record [{count: 1, resetAt: now + W}] (counter reset to 0, window
    advanced, then incremented) and is accepted; so the first request after
    the window rolls over is accepted.  If that request is followed by nine
    more and then an eleventh, all at times up to [resetAt], the first ten
    are accepted and the eleventh is rejected with
    [retryAfter = ceil((resetAt - now) / 1000)], which is never negative,
    is positive exactly when [now < resetAt] (it is 0 at [now = resetAt]),
    and is at most 60 when the eleventh does not precede the first. *)
Theorem rateLimit_window (key : string) (store : gmap string RateLimitRecord)
    (t0 : Z) (rest : list Z) (t : Z) :
  (store !! key = None \/ exists r, store !! key = Some r /\ resetAt r < t0) ->
  List.length rest = 9%nat ->
  Forall (fun x => x <= t0 + RATE_LIMIT_WINDOW_MS) rest ->
  t <= t0 + RATE_LIMIT_WINDOW_MS ->
  let retry := ceilDiv (t0 + RATE_LIMIT_WINDOW_MS - t) 1000 in
  rateLimit key t0 store
  = (<[key := {| count := 1; resetAt := t0 + RATE_LIMIT_WINDOW_MS |}]> store, Next)
  /\ exists store1 store2,
       rateLimitAll key (t0 :: rest) store = (store1, repeat Next 10)
       /\ rateLimit key t store1 = (store2, TooManyRequests retry)
       /\ 0 <= retry
       /\ (0 < retry <-> t < t0 + RATE_LIMIT_WINDOW_MS)
       /\ (t0 <= t -> retry <= RATE_LIMIT_WINDOW_MS / 1000)
       /\ forall t', t0 + RATE_LIMIT_WINDOW_MS < t' ->
            rateLimit key t' store2
            = (<[key := {| count := 1; resetAt := t' + RATE_LIMIT_WINDOW_MS |}]> store2,
               Next).
Proof.
  intros Hfresh Hlen Hrest Ht retry.
  pose proof (rateLimit_fresh key t0 store Hfresh) as H0.
  split; [exact H0 | ].
  destruct (rateLimitAll_accepts key rest
              (<[key := {| count := 1; resetAt := t0 + RATE_LIMIT_WINDOW_MS |}]> store)
              {| count := 1; resetAt := t0 + RATE_LIMIT_WINDOW_MS |})
    as (store1 & Hall & Hk & _).
  { apply lookup_insert_eq. }
  { exact Hrest. }
  { simpl. rewrite Hlen. unfold RATE_LIMIT_REQUESTS. lia. }
  rewrite Hlen in Hall, Hk. simpl in Hk.
  pose proof (rateLimit_counted key t store1 _ Hk Ht) as H11. simpl in H11.
  exists store1. eexists.
  split.
  { cbn [rateLimitAll]. rewrite H0, Hall. reflexivity. }
  split; [exact H11 | ].
  pose proof (ceilDiv_bounds (t0 + RATE_LIMIT_WINDOW_MS - t)) as Hb.
  fold retry in Hb. unfold RATE_LIMIT_WINDOW_MS in *.
  change (60 * 1000 / 1000) with 60.
  repeat split; try lia.
  intros t' Ht'. apply rateLimit_fresh. right.
  eexists. split; [apply lookup_insert_eq | simpl; lia].
Qed.

Lemma rateLimit_window_witness :
  exists store1 store2,
    rateLimitAll "s1" [0; 1; 2; 3; 4; 5; 6; 7; 8; 9] ∅ = (store1, repeat Next 10)
    /\ rateLimit "s1" 30001 store1 = (store2, TooManyRequests 30)
    /\ 0 < 30 <= 60.
Proof.
  destruct (rateLimit_window "s1" ∅ 0 [1; 2; 3; 4; 5; 6; 7; 8; 9] 30001)
    as (_ & store1 & store2 & H1 & H2 & _).
  - left. reflexivity.
  - reflexivity.
  - repeat constructor; vm_compute; discriminate.
  - vm_compute. discriminate.
  - exists store1, store2. split; [exact H1 | ]. split; [exact H2 | lia].
Defined.

(** ** Rules for triples *)

Lemma hoare_ret {A} (a : A) (Q : A -> World -> Prop) (E : Exn -> World -> Prop) :
  hoare (Q a) (ret a) Q E.
Proof. intros w H. exact H. Qed.

Lemma hoare_throw {A} (e : Exn) (Q : A -> World -> Prop) (E : Exn -> World -> Prop) :
  hoare (E e) (throw e) Q E.
Proof. intros w H. exact H. Qed.

Lemma hoare_bind {A B} (P : World -> Prop) (c : M A) (k : A -> M B)
    (Q : A -> World -> Prop) (R : B -> World -> Prop) (E : Exn -> World -> Prop) :
  hoare P c Q E -> (forall a, hoare (Q a) (k a) R E) -> hoare P (bind c k) R E.
Proof.
  intros Hc Hk w HP. unfold bind. specialize (Hc w HP).
  destruct (c w) as [[a|e] w1]; [exact (Hk a w1 Hc) | exact Hc].
Qed.

Lemma hoare_tryCatch {A} (P : World -> Prop) (c : M A) (h : Exn -> M A)
    (Q : A -> World -> Prop) (E1 E : Exn -> World -> Prop) :
  hoare P c Q E1 -> (forall e, hoare (E1 e) (h e) Q E) -> hoare P (tryCatch c h) Q E.
Proof.
  intros Hc Hh w HP. unfold tryCatch. specialize (Hc w HP).
  destruct (c w) as [[a|e] w1]; [exact Hc | exact (Hh e w1 Hc)].
Qed.

Lemma hoare_pure {A} (X : Prop) (P : World -> Prop) (c : M A)
    (Q : A -> World -> Prop) (E : Exn -> World -> Prop) :
  (X -> hoare P c Q E) -> hoare (fun w => X /\ P w) c Q E.
Proof. intros H w [HX HP]. exact (H HX w HP). Qed.

Lemma bind_cong {A B} (c : M A) (k k' : A -> M B) (w : World) :
  (forall a w1, c w = (Ok a, w1) -> k a w1 = k' a w1) ->
  bind c k w = bind c k' w.
Proof.
  intros H. unfold bind. destruct (c w) as [[a|e] w1]; [now apply H | reflexivity].
Qed.

Lemma hoare_weaken {A} (P P' : World -> Prop) (c : M A)
    (Q Q' : A -> World -> Prop) (E E' : Exn -> World -> Prop) :
  hoare P' c Q' E' ->
  (forall w, P w -> P' w) ->
  (forall a w, Q' a w -> Q a w) ->
  (forall e w, E' e w -> E e w) ->
  hoare P c Q E.
Proof.
  intros Hc HP HQ HE w Hw. specialize (Hc w (HP w Hw)).
  destruct (c w) as [[a|e] w1]; auto.
Qed.

(** ** Invariants of the store kept by every operation *)

Section Invariants.

Variable clock : nat -> Z.
Variable ttl : Z.

(** A property of sessions kept by the updates that leave the data fields
    alone, by pushing a message, and true of new sessions. *)
Variable I : Session -> Prop.
Hypothesis I_update : forall s u a b, dataFree u -> I s -> I (updatedWith ttl s u a b).
Hypothesis I_push : forall s m, I s -> I (pushed s m).
Hypothesis I_fresh : forall id uid a b c, I (freshSession ttl id uid a b c).

Let inv : World -> Prop := storeInv I.
Let invE : Exn -> World -> Prop := fun _ => storeInv I.

Lemma storeInv_frame (w w' : World) :
  sessions w' = sessions w -> inv w -> inv w'.
Proof. unfold inv, storeInv. intros ->. auto. Qed.

Lemma storeInv_insert (w w' : World) (k : string) (s : Session) :
  sessions w' = <[k := s]> (sessions w) -> I s -> inv w -> inv w'.
Proof.
  unfold inv, storeInv. intros -> Hs Hw k' s'.
  destruct (decide (k = k')) as [-> | Hne].
  - rewrite lookup_insert_eq. intros [= <-]. exact Hs.
  - rewrite lookup_insert_ne by exact Hne. apply Hw.
Qed.

Lemma storeInv_delete (w w' : World) (k : string) :
  sessions w' = delete k (sessions w) -> inv w -> inv w'.
Proof.
  unfold inv, storeInv. intros -> Hw k' s'.
  destruct (decide (k = k')) as [-> | Hne].
  - rewrite lookup_delete_eq. discriminate.
  - rewrite lookup_delete_ne by exact Hne. apply Hw.
Qed.

Lemma now_inv : hoare inv (now clock) (fun _ => inv) invE.
Proof. intros w Hw. exact Hw. Qed.

Lemma getSession_inv (sid : string) :
  hoare inv (getSession clock sid)
        (fun o w => inv w /\ forall s, o = Some s -> I s) invE.
Proof.
  intros w Hw.
  destruct (getSession_cases clock sid w)
    as [(s & Hs & _ & _ & ->) | [[-> _] | (s & Hs & _ & _ & ->)]].
  - split; [exact Hw | ]. intros s' [= <-]. exact (Hw _ _ Hs).
  - split; [exact Hw | discriminate].
  - split; [ | discriminate]. eapply storeInv_delete; [ | exact Hw]. reflexivity.
Qed.

Lemma updateSession_inv (sid : string) (u : Updates) :
  dataFree u ->
  hoare inv (updateSession clock ttl sid u)
        (fun o w => inv w /\ forall s, o = Some s -> I s) invE.
Proof.
  intros Hu w Hw. rewrite updateSession_eq.
  pose proof (getSession_inv sid w Hw) as Hg.
  destruct (getSession clock sid w) as [[[s|]|e] w1]; try exact Hg.
  destruct Hg as [Hw1 Hs]. cbv zeta.
  assert (I (updatedWith ttl s u (clock (ticks w1)) (clock (S (ticks w1))))) as HI.
  { apply I_update; auto. }
  split.
  - eapply storeInv_insert; [ | exact HI | exact Hw1]. reflexivity.
  - intros s' [= <-]. exact HI.
Qed.

Lemma updateIntent_inv (sid : string) (iu : IntentUpdates) :
  hoare inv (updateIntent clock ttl sid iu)
        (fun o w => inv w /\ forall s, o = Some s -> I s) invE.
Proof.
  unfold updateIntent. eapply hoare_bind; [apply getSession_inv | ].
  intros [s|]; simpl.
  - eapply hoare_weaken; [apply updateSession_inv | | | ]; simpl; try tauto.
    repeat split.
  - intros w [Hw _]. split; [exact Hw | discriminate].
Qed.

Lemma transitionPhase_inv (sid target : string) :
  hoare inv (transitionPhase clock ttl sid target)
        (fun o w => inv w /\ forall s, o = Some s -> I s) invE.
Proof.
  unfold transitionPhase. eapply hoare_bind; [apply getSession_inv | ].
  intros [s|]; simpl.
  - destruct (findPhase (validTransitions (phase s)) target) as [p|].
    + eapply hoare_weaken; [apply updateSession_inv | | | ]; simpl; try tauto.
      repeat split.
    + intros w [Hw Hs]. split; [exact Hw | ]. intros s' [= <-]. now apply Hs.
  - intros w [Hw _]. split; [exact Hw | discriminate].
Qed.

Lemma setPendingRunState_inv (sid st : string) (calls : list PendingCall) :
  hoare inv (setPendingRunState clock ttl sid st calls)
        (fun o w => inv w /\ forall s, o = Some s -> I s) invE.
Proof. apply updateSession_inv. repeat split. Qed.

Lemma clearPendingRunState_inv (sid : string) :
  hoare inv (clearPendingRunState clock ttl sid)
        (fun o w => inv w /\ forall s, o = Some s -> I s) invE.
Proof. apply updateSession_inv. repeat split. Qed.

Lemma createSession_inv (sdkId uid : string) :
  hoare inv (createSession clock ttl sdkId uid) (fun _ => inv) invE.
Proof.
  intros w Hw. rewrite createSession_eq.
  eapply storeInv_insert; [ | apply I_fresh | exact Hw]. reflexivity.
Qed.

Lemma pushStored_inv (key : string) (m : Message) :
  hoare inv (pushStored key m) (fun _ => inv) invE.
Proof.
  intros w Hw. unfold pushStored, bind, getSessions, setSessions, ret.
  destruct (sessions w !! key) as [s|] eqn:Hs; [ | exact Hw].
  eapply storeInv_insert; [ | apply I_push; exact (Hw _ _ Hs) | exact Hw]. reflexivity.
Qed.

Lemma getAgent_inv (ext : Reasoning) :
  hoare inv (getAgent ext) (fun _ => inv) invE.
Proof.
  intros w Hw. unfold getAgent.
  destruct (agentInstance w); [exact Hw | ].
  destruct (agentCreated ext); exact Hw.
Qed.

Lemma cleanupExpiredSessions_inv :
  hoare inv (cleanupExpiredSessions clock) (fun _ => inv) invE.
Proof.
  intros w Hw. unfold cleanupExpiredSessions, bind, now, getSessions, setSessions, ret.
  simpl. intros k s Hk. simpl in Hk.
  apply map_lookup_filter_Some in Hk as [Hk _]. exact (Hw _ _ Hk).
Qed.

Lemma analyzeAgentResponse_inv (response : string) (session : Session) (message : string) :
  hoare inv (analyzeAgentResponse clock response session message) (fun _ => inv) invE.
Proof.
  intros w Hw. unfold analyzeAgentResponse.
  destruct (phase session); try exact Hw.
  - destruct (detectCountry message response) as [c|]; [ | exact Hw].
    destruct (Str.truthy c && negb (truthyOpt (destination (intent session))))%bool;
      exact Hw.
  - destruct (isConfirmation message); exact Hw.
Qed.

Lemma openSession_inv (ext : Reasoning) (uid : string) (sid : option string) :
  hoare inv (openSession clock ttl ext uid sid)
        (fun ks w => inv w /\ I (snd ks)) invE.
Proof.
  assert (hoare inv
            (match sdkSessionId ext with
             | None => throw (Error "getSessionId")
             | Some id =>
                 let! newSessionId := createSession clock ttl id uid in
                 let! o := getSession clock newSessionId in
                 match o with
                 | None => now clock ;; throw TypeError
                 | Some session => ret (newSessionId, session)
                 end
             end)
            (fun ks w => inv w /\ I (snd ks)) invE) as Hnew.
  { destruct (sdkSessionId ext) as [id|]; [ | intros w Hw; exact Hw].
    eapply hoare_bind; [apply createSession_inv | ]. intros newId.
    eapply hoare_bind; [apply getSession_inv | ].
    intros [s|] w [Hw Hs]; simpl; [ | exact Hw].
    split; [exact Hw | now apply Hs]. }
  unfold openSession. destruct sid as [s|]; [ | exact Hnew].
  destruct (Str.truthy s); [ | exact Hnew].
  eapply hoare_bind; [apply getSession_inv | ].
  intros [session|] w [Hw Hs]; simpl; [ | exact Hw].
  destruct (String.eqb (userId session) uid); simpl; [ | exact Hw].
  split; [exact Hw | now apply Hs].
Qed.

Lemma agentStep_inv (ext : Reasoning) (session : Session) (message : string) :
  hoare inv (agentStep clock ttl ext session message) (fun _ => inv) invE.
Proof.
  unfold agentStep.
  destruct (truthyOpt (pendingRunState session)).
  - destruct (isApproval message); [ | intros w Hw; exact Hw].
    destruct (fromString ext _); [ | intros w Hw; exact Hw].
    eapply hoare_bind; [apply clearPendingRunState_inv | ].
    intros ? w [Hw _].
    destruct (resume ext _ _); exact Hw.
  - destruct (runMessage ext message) as [ | out ints st rerun];
      [intros w Hw; exact Hw | ].
    destruct ints as [ | i ints]; [intros w Hw; exact Hw | ].
    destruct (isApproval message).
    + destruct (approveAll _); intros w Hw; exact Hw.
    + eapply hoare_bind; [apply setPendingRunState_inv | ].
      intros ? w [Hw _]. exact Hw.
Qed.

Lemma finishTurn_inv (session : Session) (message : string) (userMessage : Message)
    (response : string) :
  hoare inv (finishTurn clock ttl session message userMessage response)
        (fun r w => inv w /\ exists s, I s /\ r = buildResponse s response) invE.
Proof.
  unfold finishTurn.
  eapply hoare_bind; [apply analyzeAgentResponse_inv | ]. intros su.
  eapply hoare_bind with (Q := fun _ => inv).
  { destruct (su_intent su) as [iu|]; [ | intros w Hw; exact Hw].
    eapply hoare_bind; [apply updateIntent_inv | ].
    intros ? w [Hw _]. exact Hw. }
  intros ?.
  eapply hoare_bind with (Q := fun _ => inv).
  { destruct (su_phase su) as [p|]; [ | intros w Hw; exact Hw].
    eapply hoare_bind; [apply transitionPhase_inv | ].
    intros ? w [Hw _]. exact Hw. }
  intros ?.
  eapply hoare_bind; [apply now_inv | ]. intros t2.
  eapply hoare_bind; [apply updateSession_inv; repeat split | ].
  intros [s|] w [Hw Hs]; simpl; [ | exact Hw].
  split; [exact Hw | ]. exists s. split; [now apply Hs | reflexivity].
Qed.

Lemma handleChatRequest_inv (ext : Reasoning) (uid message : string)
    (sid : option string) :
  hoare inv (handleChatRequest clock ttl ext uid message sid)
        (fun r w => inv w /\ exists s response, I s /\ r = buildResponse s response)
        invE.
Proof.
  unfold handleChatRequest.
  destruct (negb (Str.truthy uid)); [intros w Hw; exact Hw | ].
  destruct (negb (Str.truthy message) || Str.blank message)%bool;
    [intros w Hw; exact Hw | ].
  eapply hoare_bind; [apply openSession_inv | ]. intros [key session]. simpl.
  eapply hoare_bind with (Q := fun _ => inv).
  { intros w [Hw _]. exact Hw. }
  intros t1.
  eapply hoare_bind; [apply pushStored_inv | ]. intros ?.
  eapply hoare_bind; [apply getAgent_inv | ]. intros ?.
  eapply hoare_bind with (Q := fun _ => inv).
  { eapply hoare_tryCatch; [apply agentStep_inv | ]. intros e w Hw. exact Hw. }
  intros response.
  eapply hoare_weaken; [apply finishTurn_inv | | | ]; simpl; auto.
  intros r w [Hw (s & Hs & ->)]. split; [exact Hw | eauto].
Qed.

End Invariants.

(** ** The data fields of the external agents *)

Lemma noData_update (ttl : Z) (s : Session) (u : Updates) (a b : Z) :
  dataFree u -> noData s -> noData (updatedWith ttl s u a b).
Proof.
  intros (H1 & H2 & H3) (Hs1 & Hs2 & Hs3). unfold noData, updatedWith. simpl.
  rewrite H1, H2, H3. simpl. auto.
Qed.

Lemma noData_response (s : Session) (response : string) :
  noData s ->
  d_usage (r_data (buildResponse s response)) = None
  /\ d_plans (r_data (buildResponse s response)) = None
  /\ d_recommendation (r_data (buildResponse s response)) = None.
Proof.
  intros (H1 & H2 & H3). simpl. rewrite H1, H2, H3. auto.
Qed.

(** C10. In every world reached by the operations of the core (turns with
    any request and any behaviour of the reasoning layer, sweeps, lookups,
    the passing of time), every stored session has [usageData = null],
    [roamingPlans = []] and [recommendation = null]; and every response that
    a turn then returns has a [data] object without [usage], [plans] and
    [recommendation]. *)
Theorem data_fields_never_assigned (clock : nat -> Z) (ttl : Z) (w : World) :
  reachable clock ttl w ->
  storeInv noData w
  /\ forall ext uid message sid r w',
       handleChatRequest clock ttl ext uid message sid w = (Ok r, w') ->
       d_usage (r_data r) = None
       /\ d_plans (r_data r) = None
       /\ d_recommendation (r_data r) = None.
Proof.
  intros Hreach.
  assert (storeInv noData w) as Hinv.
  { induction Hreach as [n | w ext uid message sid _ IH | w _ IH | w _ IH
                         | w sid _ IH | w _ IH].
    - intros k s Hk. simpl in Hk. rewrite lookup_empty in Hk. discriminate.
    - pose proof (handleChatRequest_inv clock ttl noData (noData_update ttl)
                    ltac:(intros s m H; exact H)
                    ltac:(intros; repeat split)
                    ext uid message sid w IH) as H.
      destruct (handleChatRequest clock ttl ext uid message sid w) as [[r|e] w'];
        simpl; tauto.
    - pose proof (cleanupExpiredSessions_inv clock noData w IH) as H.
      destruct (cleanupExpiredSessions clock w) as [[r|e] w']; exact H.
    - unfold getActiveSessionCount, bind.
      pose proof (cleanupExpiredSessions_inv clock noData w IH) as H.
      destruct (cleanupExpiredSessions clock w) as [[r|e] w']; exact H.
    - pose proof (getSession_inv clock noData sid w IH) as H.
      destruct (getSession clock sid w) as [[r|e] w']; simpl; tauto.
    - exact IH. }
  split; [exact Hinv | ].
  intros ext uid message sid r w' Hrun.
  pose proof (handleChatRequest_inv clock ttl noData (noData_update ttl)
                ltac:(intros s m H; exact H)
                ltac:(intros; repeat split)
                ext uid message sid w Hinv) as H.
  rewrite Hrun in H. destruct H as [_ (s & response & Hs & ->)].
  now apply noData_response.
Qed.

(** ** Facts about the pending approval *)

Lemma pendingIs_update (ttl : Z) (key uid : string) (st : option string)
    (calls : list PendingCall) (s : Session) (u : Updates) (a b : Z) :
  pendingFree u -> pendingIs key uid st calls s ->
  pendingIs key uid st calls (updatedWith ttl s u a b).
Proof.
  intros [H1 H2] (Hk & Hu & Hp & Hi). unfold pendingIs, updatedWith. simpl.
  rewrite H1, H2. simpl. auto.
Qed.

Lemma pendingIs_set (ttl : Z) (key uid : string) (st st' : option string)
    (calls calls' : list PendingCall) (s : Session) (a b : Z) :
  pendingIs key uid st calls s ->
  pendingIs key uid st' calls' (updatedWith ttl s (pendingUpdate st' calls') a b).
Proof. intros (Hk & Hu & Hp & Hi). unfold pendingIs. simpl. auto. Qed.

(** With a pending approval and a message that is not an approval, the
    [try] block is the constant reply: no call of the reasoning layer, no
    effect on the world. *)
Lemma agentStep_reask (clock : nat -> Z) (ttl : Z) (ext : Reasoning)
    (session : Session) (message : string) :
  truthyOpt (pendingRunState session) = true ->
  isApproval message = false ->
  agentStep clock ttl ext session message = ret pendingPrompt.
Proof. intros Hp Ha. unfold agentStep. rewrite Hp, Ha. reflexivity. Qed.

(** Such a turn does not depend on the runs of the reasoning layer. *)
Lemma reask_independent (clock : nat -> Z) (ttl : Z) (ext ext' : Reasoning)
    (uid message key : string) (w : World) :
  Str.truthy key = true ->
  isApproval message = false ->
  agentCreated ext' = agentCreated ext ->
  (forall s, sessions w !! key = Some s -> truthyOpt (pendingRunState s) = true) ->
  handleChatRequest clock ttl ext' uid message (Some key) w
  = handleChatRequest clock ttl ext uid message (Some key) w.
Proof.
  intros Hkey Ha Hag Hp. unfold handleChatRequest.
  destruct (negb (Str.truthy uid)); [reflexivity | ].
  destruct (negb (Str.truthy message) || Str.blank message)%bool; [reflexivity | ].
  assert (openSession clock ttl ext' uid (Some key)
          = openSession clock ttl ext uid (Some key)) as ->.
  { unfold openSession. rewrite Hkey. reflexivity. }
  assert (getAgent ext' = getAgent ext) as ->.
  { unfold getAgent. rewrite Hag. reflexivity. }
  apply bind_cong. intros [k s] w1 Ho.
  assert (truthyOpt (pendingRunState s) = true) as Hs.
  { unfold openSession in Ho. rewrite Hkey in Ho. unfold bind in Ho.
    destruct (getSession_cases clock key w)
      as [(s0 & Hs0 & _ & _ & Hg) | [[Hg _] | (s0 & _ & _ & _ & Hg)]];
      rewrite Hg in Ho; try discriminate.
    destruct (String.eqb (userId s0) uid); [ | discriminate].
    injection Ho as <- <- <-. now apply Hp. }
  simpl. rewrite !(agentStep_reask clock ttl _ s message Hs Ha). reflexivity.
Qed.

(** ** Turns of a session that stays alive *)

Section Live.

Variable clock : nat -> Z.
Variable ttl : Z.
Variables lo hi : nat.
Variable key : string.
Variable ag : bool.
Hypothesis Hcalm : calm clock ttl lo hi.
Hypothesis Hkey : Str.truthy key = true.

Let E0 : Exn -> World -> Prop := fun _ _ => False.
Let live := liveAt clock lo hi key ag.

Lemma liveAt_weaken (phi psi : Session -> Prop) (n m : nat) (w : World) :
  (n <= m)%nat -> (forall s, phi s -> psi s) -> live phi n w -> live psi m w.
Proof.
  intros Hnm Himp (Ht & Hag & s & Hs & Hphi & Hal).
  split; [lia | ]. split; [exact Hag | ]. exists s. auto.
Qed.

Lemma live_now (phi : Session -> Prop) (n : nat) :
  hoare (live phi n) (now clock) (fun _ => live phi (S n)) E0.
Proof.
  intros w (Ht & Hag & s & Hs & Hphi & Hal). simpl.
  split; [simpl; lia | ]. split; [exact Hag | ]. exists s. auto.
Qed.

Lemma live_getSession (phi : Session -> Prop) (n : nat) :
  (lo + n < hi)%nat ->
  hoare (live phi n) (getSession clock key)
        (fun o w' => exists s, o = Some s /\ phi s
                               /\ live (fun x => x = s /\ phi x) (S n) w') E0.
Proof.
  intros Hn w (Ht & Hag & s & Hs & Hphi & Hal).
  rewrite getSession_eq, Hkey, Hs.
  assert (clock (ticks w) <= expiresAt s) as Hle by (apply Hal; lia).
  destruct (clock (ticks w) >? expiresAt s) eqn:Hc; [lia | ].
  exists s. split; [reflexivity | ]. split; [exact Hphi | ].
  split; [simpl; lia | ]. split; [exact Hag | ]. exists s. auto.
Qed.

Lemma live_updateSession (phi phi' : Session -> Prop) (n : nat) (u : Updates) :
  (lo + n + 3 <= hi)%nat ->
  (forall s a b, phi s -> phi' (updatedWith ttl s u a b)) ->
  hoare (live phi n) (updateSession clock ttl key u)
        (fun o w' => exists s', o = Some s' /\ phi' s' /\ live phi' (n + 3) w') E0.
Proof.
  intros Hn Hstep w (Ht & Hag & s & Hs & Hphi & Hal).
  assert (clock (ticks w) <= expiresAt s) as Hle by (apply Hal; lia).
  rewrite (updateSession_live clock ttl key u w s Hkey Hs Hle).
  eexists. split; [reflexivity | ]. split; [now apply Hstep | ].
  split; [simpl; lia | ]. split; [exact Hag | ].
  eexists. split; [apply lookup_insert_eq | ]. split; [now apply Hstep | ].
  intros j Hj. simpl. apply Hcalm; lia.
Qed.

Lemma live_updateIntent (phi phi' : Session -> Prop) (n : nat) (iu : IntentUpdates) :
  (lo + n + 4 <= hi)%nat ->
  (forall s a b, phi s ->
     phi' (updatedWith ttl s (intentUpdate (mergeIntent (intent s) iu)) a b)) ->
  hoare (live phi n) (updateIntent clock ttl key iu)
        (fun o w' => exists s', o = Some s' /\ phi' s' /\ live phi' (n + 4) w') E0.
Proof.
  intros Hn Hstep. unfold updateIntent.
  eapply hoare_bind; [apply live_getSession; lia | ].
  intros o w (s & -> & Hphi & Hlive). cbv zeta.
  pose proof (live_updateSession (fun x => x = s /\ phi x) phi' (S n)
                (intentUpdate (mergeIntent (intent s) iu)) ltac:(lia)) as H.
  specialize (H ltac:(intros x a b [-> Hx]; now apply Hstep) w Hlive).
  destruct (updateSession clock ttl key _ w) as [[o'|e] w']; [ | exact H].
  destruct H as (s' & -> & Hs' & Hl). exists s'. split; [reflexivity | ].
  split; [exact Hs' | ]. eapply liveAt_weaken; [ | | exact Hl]; [lia | auto].
Qed.

Lemma live_transition_rejected (phi : Session -> Prop) (n : nat) (target : string)
    (p0 : Phase) :
  (lo + n < hi)%nat ->
  (forall s, phi s -> phase s = p0) ->
  findPhase (validTransitions p0) target = None ->
  hoare (live phi n) (transitionPhase clock ttl key target)
        (fun _ => live phi (S n)) E0.
Proof.
  intros Hn Hp Hf. unfold transitionPhase.
  eapply hoare_bind; [apply live_getSession; lia | ].
  intros o w (s & -> & Hphi & Hlive). cbv zeta.
  rewrite (Hp s Hphi), Hf.
  eapply liveAt_weaken; [ | | exact Hlive]; [lia | intros ? [_ ?]; assumption].
Qed.

Lemma live_transition (phi : Session -> Prop) (n : nat) (target : string) :
  (lo + n + 4 <= hi)%nat ->
  (forall s p a b, phi s -> phi (updatedWith ttl s (phaseUpdate p) a b)) ->
  hoare (live phi n) (transitionPhase clock ttl key target)
        (fun _ => live phi (n + 4)) E0.
Proof.
  intros Hn Hstep. unfold transitionPhase.
  eapply hoare_bind; [apply live_getSession; lia | ].
  intros o w (s & -> & Hphi & Hlive). cbv zeta.
  destruct (findPhase (validTransitions (phase s)) target) as [p|].
  - pose proof (live_updateSession (fun x => x = s /\ phi x) phi (S n)
                  (phaseUpdate p) ltac:(lia)
                  ltac:(intros x a b [-> Hx]; now apply Hstep) w Hlive) as H.
    destruct (updateSession clock ttl key _ w) as [[o'|e] w']; [ | exact H].
    destruct H as (s' & -> & Hs' & Hl).
    eapply liveAt_weaken; [ | | exact Hl]; [lia | auto].
  - eapply liveAt_weaken; [ | | exact Hlive]; [lia | intros ? [_ ?]; assumption].
Qed.

Lemma live_pushStored (phi phi' : Session -> Prop) (n : nat) (m : Message) :
  (forall s, phi s -> phi' (pushed s m)) ->
  hoare (live phi n) (pushStored key m) (fun _ => live phi' n) E0.
Proof.
  intros Hstep w (Ht & Hag & s & Hs & Hphi & Hal).
  unfold pushStored, bind, getSessions, setSessions, ret. rewrite Hs.
  split; [simpl; lia | ]. split; [exact Hag | ].
  exists (pushed s m). split; [apply lookup_insert_eq | ].
  split; [now apply Hstep | exact Hal].
Qed.

Lemma live_getAgent (phi : Session -> Prop) (n : nat) (ext : Reasoning) :
  agentCreated ext = ag ->
  hoare (live phi n) (getAgent ext) (fun _ => live phi n) E0.
Proof.
  intros Hext w (Ht & Hag & s & Hs & Hphi & Hal). unfold getAgent.
  destruct (agentInstance w) eqn:Hi.
  - split; [lia | ]. split; [rewrite Hi; apply orb_true_r | ]. exists s. auto.
  - rewrite Hext. rewrite orb_false_r in Hag. rewrite Hag.
    split; [simpl; lia | ]. split; [apply orb_true_r | ]. exists s. auto.
Qed.

Lemma live_analyze (phi : Session -> Prop) (n : nat) (response : string)
    (session : Session) (message : string) :
  hoare (live phi n) (analyzeAgentResponse clock response session message)
        (fun _ => live phi (S n)) E0.
Proof.
  assert (forall w, live phi n w -> live phi (S n) w) as Hw.
  { intros w. apply liveAt_weaken; [lia | auto]. }
  assert (forall w, live phi n w -> live phi (S n) (tick w)) as Ht.
  { intros w (Ht & Hag & s & Hs & Hphi & Hal).
    split; [simpl; lia | ]. split; [exact Hag | ]. exists s. auto. }
  intros w Hl. unfold analyzeAgentResponse.
  destruct (phase session); try (apply Hw; exact Hl).
  - destruct (detectCountry message response) as [c|]; [ | apply Hw; exact Hl].
    destruct (Str.truthy c && negb (truthyOpt (destination (intent session))))%bool;
      [apply Ht; exact Hl | apply Hw; exact Hl].
  - destruct (isConfirmation message); [apply Ht; exact Hl | apply Hw; exact Hl].
Qed.

(** The end of the turn, for a property kept by the updates that leave the
    pending approval and the data alone: the reply is the response handed
    over. *)
Lemma live_finishTurn (phi : Session -> Prop) (n : nat) (session : Session)
    (message : string) (userMessage : Message) (response : string) :
  (lo + n + 13 <= hi)%nat ->
  sessionId session = key ->
  (forall s u a b, dataFree u -> pendingFree u -> phi s ->
                   phi (updatedWith ttl s u a b)) ->
  hoare (live phi n) (finishTurn clock ttl session message userMessage response)
        (fun r w' => r_response r = response /\ live phi (n + 13) w') E0.
Proof.
  intros Hn Hsid Hstable. unfold finishTurn. rewrite Hsid.
  eapply hoare_bind; [apply live_analyze | ]. intros su.
  eapply hoare_bind with (Q := fun _ => live phi (n + 5)).
  { destruct (su_intent su) as [iu|].
    - eapply hoare_bind; [apply (live_updateIntent phi phi); [lia | ] | ].
      + intros s x y Hs. apply Hstable; auto; repeat split.
      + intros o w (s' & _ & _ & Hl). simpl.
        eapply liveAt_weaken; [ | | exact Hl]; [lia | auto].
    - intros w Hl. simpl. eapply liveAt_weaken; [ | | exact Hl]; [lia | auto]. }
  intros ?.
  eapply hoare_bind with (Q := fun _ => live phi (n + 9)).
  { destruct (su_phase su) as [p|].
    - eapply hoare_bind; [apply (live_transition phi); [lia | ] | ].
      + intros s q x y Hs. apply Hstable; auto; repeat split.
      + intros o w Hl. simpl.
        eapply liveAt_weaken; [ | | exact Hl]; [lia | auto].
    - intros w Hl. simpl. eapply liveAt_weaken; [ | | exact Hl]; [lia | auto]. }
  intros ?.
  eapply hoare_bind; [apply live_now | ]. intros t2. cbv zeta.
  eapply hoare_bind; [apply (live_updateSession phi phi); [lia | ] | ].
  { intros s x y Hs. apply Hstable; auto; repeat split. }
  intros o w (s' & -> & Hs' & Hl). simpl.
  split; [reflexivity | ]. eapply liveAt_weaken; [ | | exact Hl]; [lia | auto].
Qed.

Lemma live_openSession (phi : Session -> Prop) (n : nat) (ext : Reasoning)
    (uid : string) :
  (lo + n < hi)%nat ->
  (forall s, phi s -> userId s = uid) ->
  hoare (live phi n) (openSession clock ttl ext uid (Some key))
        (fun ks w' => fst ks = key /\ phi (snd ks) /\ live phi (S n) w') E0.
Proof.
  intros Hn Huid. unfold openSession. rewrite Hkey.
  eapply hoare_bind; [apply live_getSession; lia | ].
  intros o w (s & -> & Hphi & Hlive).
  rewrite (Huid s Hphi), String.eqb_refl. simpl.
  split; [reflexivity | ]. split; [exact Hphi | ].
  eapply liveAt_weaken; [ | | exact Hlive]; [lia | intros ? [_ ?]; assumption].
Qed.

(** The skeleton of a turn on an existing session: what the [try] block
    and the end of the turn establish carries over to the whole turn. *)
Lemma live_handle (phi psi chi : Session -> Prop)
    (R : Session -> string -> Prop) (F : Session -> string -> Response -> Prop)
    (ext : Reasoning) (uid message : string) :
  validRequest uid message ->
  agentCreated ext = ag ->
  (lo + 2 < hi)%nat ->
  (forall s, phi s -> userId s = uid) ->
  (forall s m, phi s -> phi (pushed s m)) ->
  (forall s, phi s ->
     hoare (live phi 2)
           (tryCatch (agentStep clock ttl ext s message) (fun _ => ret errorResponse))
           (fun response w' => R s response /\ live psi 5 w') E0) ->
  (forall s userMessage response, phi s -> R s response ->
     hoare (live psi 5) (finishTurn clock ttl s message userMessage response)
           (fun r w' => F s response r /\ live chi 18 w') E0) ->
  hoare (live phi 0) (handleChatRequest clock ttl ext uid message (Some key))
        (fun r w' => (exists s response, phi s /\ R s response /\ F s response r)
                     /\ live chi 18 w') E0.
Proof.
  intros (Hu & Hm & Hb) Hext Hn Huid Hpush Hstep Hfinish.
  unfold handleChatRequest. rewrite Hu, Hm, Hb. simpl.
  eapply hoare_bind; [apply (live_openSession phi 0); [lia | exact Huid] | ].
  intros [k s] w0 (Hk & Hphi & Hl0). simpl in Hk, Hphi. subst k.
  revert w0 Hl0. change (hoare (live phi 1)
    (let! t1 := now clock in
     let userMessage := {| role := user; content := message; timestamp := t1 |} in
     pushStored key userMessage ;;
     getAgent ext ;;
     let! assistantResponse :=
       tryCatch (agentStep clock ttl ext s message) (fun _ => ret errorResponse) in
     finishTurn clock ttl s message userMessage assistantResponse)
    (fun r w' => (exists s response, phi s /\ R s response /\ F s response r)
                 /\ live chi 18 w') E0).
  eapply hoare_bind; [apply live_now | ]. intros t1. cbv zeta.
  eapply hoare_bind; [apply (live_pushStored phi phi); intros; now apply Hpush | ].
  intros ?.
  eapply hoare_bind; [apply live_getAgent; exact Hext | ]. intros ?.
  eapply hoare_bind; [apply (Hstep s Hphi) | ].
  intros response w1 [HR Hl1]. revert w1 Hl1.
  eapply hoare_weaken; [apply (Hfinish s _ response Hphi HR) | | | ]; simpl; auto.
  intros r w2 [HF Hl2]. split; [ | exact Hl2]. exists s, response. auto.
Qed.

(** The [try] block, whatever the reasoning layer does, for a property
    kept by the updates of the pending approval. *)
Lemma live_agentStep (phi : Session -> Prop) (n : nat) (ext : Reasoning)
    (session : Session) (message : string) :
  (lo + n + 3 <= hi)%nat ->
  sessionId session = key ->
  (forall s st calls a b, phi s -> phi (updatedWith ttl s (pendingUpdate st calls) a b)) ->
  hoare (live phi n)
        (tryCatch (agentStep clock ttl ext session message) (fun _ => ret errorResponse))
        (fun _ => live phi (n + 3)) E0.
Proof.
  intros Hn Hsid Hstable.
  assert (forall w, live phi n w -> live phi (n + 3) w) as Hw.
  { intros w. apply liveAt_weaken; [lia | auto]. }
  assert (forall u, (exists st calls, u = pendingUpdate st calls) ->
            hoare (live phi n) (updateSession clock ttl key u)
                  (fun _ => live phi (n + 3)) (fun _ => live phi (n + 3))) as Hupd.
  { intros u (st & calls & ->).
    eapply hoare_weaken; [apply (live_updateSession phi phi n); [lia | ] | | | ].
    - intros s a b Hs. now apply Hstable.
    - auto.
    - intros o w (s' & _ & _ & Hl). exact Hl.
    - intros e w []. }
  eapply hoare_tryCatch with (E1 := fun _ => live phi (n + 3));
    [ | intros e w Hl; exact Hl].
  unfold agentStep. rewrite Hsid.
  destruct (truthyOpt (pendingRunState session)).
  - destruct (isApproval message); [ | intros w Hl; apply Hw; exact Hl].
    destruct (fromString ext _); [ | intros w Hl; apply Hw; exact Hl].
    eapply hoare_bind; [apply Hupd; eauto | ].
    intros ? w Hl. destruct (resume ext _ _); exact Hl.
  - destruct (runMessage ext message) as [ | out ints st rerun];
      [intros w Hl; apply Hw; exact Hl | ].
    destruct ints as [ | i ints]; [intros w Hl; apply Hw; exact Hl | ].
    destruct (isApproval message).
    + destruct (approveAll _); intros w Hl; apply Hw; exact Hl.
    + eapply hoare_bind; [apply Hupd; eauto | ].
      intros ? w Hl. exact Hl.
Qed.


(** One such turn, for a session that stays alive. *)
Lemma reask_turn (uid : string) (st : option string) (calls : list PendingCall)
    (ext : Reasoning) (message : string) :
  agentCreated ext = ag ->
  validRequest uid message ->
  isApproval message = false ->
  truthyOpt st = true ->
  (lo + 18 <= hi)%nat ->
  hoare (live (pendingIs key uid st calls) 0)
        (handleChatRequest clock ttl ext uid message (Some key))
        (fun r w' => r_response r = pendingPrompt
                     /\ live (pendingIs key uid st calls) 18 w') E0.
Proof.
  intros Hext Hvalid Ha Hst Hhi.
  eapply hoare_weaken;
    [apply (live_handle (pendingIs key uid st calls) (pendingIs key uid st calls)
              (pendingIs key uid st calls)
              (fun _ response => response = pendingPrompt)
              (fun _ response r => r_response r = response)
              ext uid message Hvalid Hext ltac:(lia)) | | | ]; auto.
  - intros s (_ & Hu & _). exact Hu.
  - intros s (_ & _ & Hp & _).
    rewrite (agentStep_reask clock ttl ext s message); [ | now rewrite Hp | exact Ha].
    intros w1 Hl. simpl. split; [reflexivity | ].
    eapply liveAt_weaken; [ | | exact Hl]; [lia | auto].
  - intros s um response (Hk & _) _.
    apply (live_finishTurn (pendingIs key uid st calls) 5 s message um response);
      [lia | exact Hk | ].
    intros s0 u a b _ Hu Hs0. now apply pendingIs_update.
  - simpl. intros r w' [(s & response & _ & -> & Hr) Hl]. auto.
Qed.

(** A turn that resumes a suspended session: restoring fails. *)
Lemma restore_fails_turn (uid st : string) (calls : list PendingCall)
    (ext : Reasoning) (message : string) :
  agentCreated ext = ag ->
  validRequest uid message ->
  isApproval message = true ->
  Str.truthy st = true ->
  fromString ext st = false ->
  (lo + 18 <= hi)%nat ->
  hoare (live (pendingIs key uid (Some st) calls) 0)
        (handleChatRequest clock ttl ext uid message (Some key))
        (fun r w' => r_response r = errorResponse
                     /\ live (pendingIs key uid (Some st) calls) 18 w') E0.
Proof.
  intros Hext Hvalid Ha Hst Hfs Hhi.
  eapply hoare_weaken;
    [apply (live_handle (pendingIs key uid (Some st) calls)
              (pendingIs key uid (Some st) calls)
              (pendingIs key uid (Some st) calls)
              (fun _ response => response = errorResponse)
              (fun _ response r => r_response r = response)
              ext uid message Hvalid Hext ltac:(lia)) | | | ]; auto.
  - intros s (_ & Hu & _). exact Hu.
  - intros s (_ & _ & Hp & _) w1 Hl.
    unfold tryCatch, agentStep. rewrite Hp. simpl. rewrite Hst, Ha, Hfs. simpl.
    split; [reflexivity | ].
    eapply liveAt_weaken; [ | | exact Hl]; [lia | auto].
  - intros s um response (Hk & _) _.
    apply (live_finishTurn (pendingIs key uid (Some st) calls) 5 s message um response);
      [lia | exact Hk | ].
    intros s0 u a b _ Hu Hs0. now apply pendingIs_update.
  - simpl. intros r w' [(s & response & _ & -> & Hr) Hl]. auto.
Qed.

(** A turn that resumes a suspended session: restoring works.  The pending
    approval is cleared before the resumed run, whatever that run does. *)
Lemma restored_turn (uid st : string) (calls : list PendingCall)
    (ext : Reasoning) (message : string) :
  agentCreated ext = ag ->
  validRequest uid message ->
  isApproval message = true ->
  Str.truthy st = true ->
  fromString ext st = true ->
  (lo + 18 <= hi)%nat ->
  hoare (live (pendingIs key uid (Some st) calls) 0)
        (handleChatRequest clock ttl ext uid message (Some key))
        (fun r w' => r_response r = resumedReply (resume ext st (map original calls))
                     /\ live (pendingIs key uid None []) 18 w') E0.
Proof.
  intros Hext Hvalid Ha Hst Hfs Hhi.
  eapply hoare_weaken;
    [apply (live_handle (pendingIs key uid (Some st) calls)
              (pendingIs key uid None [])
              (pendingIs key uid None [])
              (fun _ response =>
                 response = resumedReply (resume ext st (map original calls)))
              (fun _ response r => r_response r = response)
              ext uid message Hvalid Hext ltac:(lia)) | | | ]; auto.
  - intros s (_ & Hu & _). exact Hu.
  - intros s (Hk & _ & Hp & Hi) w1 Hl.
    unfold tryCatch, agentStep. rewrite Hp, Hi, Hk. simpl. rewrite Hst, Ha, Hfs.
    unfold bind, clearPendingRunState.
    pose proof (live_updateSession (pendingIs key uid (Some st) calls)
                  (pendingIs key uid None []) 2 (pendingUpdate None [])
                  ltac:(lia)
                  ltac:(intros x a b Hx;
                        exact (pendingIs_set ttl key uid (Some st) None calls [] x a b Hx))
                  w1 Hl) as H.
    destruct (updateSession clock ttl key (pendingUpdate None []) w1) as [[o|e] w2];
      [ | destruct H].
    destruct H as (s' & _ & _ & Hl2).
    destruct (resume ext st (map original calls)); simpl; auto.
  - intros s um response (Hk & _) _.
    apply (live_finishTurn (pendingIs key uid None []) 5 s message um response);
      [lia | exact Hk | ].
    intros s0 u a b _ Hu Hs0. now apply pendingIs_update.
  - simpl. intros r w' [(s & response & _ & -> & Hr) Hl]. auto.
Qed.

(** A turn of a session without pending approval: afterwards a pending
    approval is stored only if this turn's fresh run was suspended. *)
Lemma fresh_turn (uid : string) (st0 : option string) (calls0 : list PendingCall)
    (ext : Reasoning) (message : string) :
  agentCreated ext = ag ->
  validRequest uid message ->
  truthyOpt st0 = false ->
  (lo + 18 <= hi)%nat ->
  hoare (live (pendingIs key uid st0 calls0) 0)
        (handleChatRequest clock ttl ext uid message (Some key))
        (fun r w' => live (pendingAfter ext message key uid st0 calls0) 18 w') E0.
Proof.
  intros Hext Hvalid Hst Hhi.
  eapply hoare_weaken;
    [apply (live_handle (pendingIs key uid st0 calls0)
              (pendingAfter ext message key uid st0 calls0)
              (pendingAfter ext message key uid st0 calls0)
              (fun _ _ => True) (fun _ _ _ => True)
              ext uid message Hvalid Hext ltac:(lia)) | | | ]; auto.
  - intros s (_ & Hu & _). exact Hu.
  - intros s (Hk & _ & Hp & Hi) w1 Hl.
    assert (live (pendingAfter ext message key uid st0 calls0) 5 w1) as Hsame.
    { eapply liveAt_weaken; [ | | exact Hl]; [lia | ]. intros x Hx. now left. }
    unfold tryCatch, agentStep. rewrite Hp, Hst, Hk.
    destruct (runMessage ext message) as [ | out ints st rerun] eqn:Hrun;
      [simpl; auto | ].
    destruct ints as [ | i ints]; [simpl; auto | ].
    destruct (isApproval message) eqn:Ha.
    + destruct (approveAll _); simpl; auto.
    + unfold bind, setPendingRunState.
      pose proof (live_updateSession (pendingIs key uid st0 calls0)
                    (pendingAfter ext message key uid st0 calls0) 2
                    (pendingUpdate (Some st) (map simplify (i :: ints)))
                    ltac:(lia)) as H.
      specialize (H ltac:(intros x a b Hx; right; exists st, (map simplify (i :: ints));
                          split; [exists out, i, ints, rerun; auto
                                 | exact (pendingIs_set ttl key uid st0 (Some st) calls0
                                          (map simplify (i :: ints)) x a b Hx)])
                    w1 Hl).
      destruct (updateSession clock ttl key _ w1) as [[o|e] w2]; [ | destruct H].
      destruct H as (s' & _ & _ & Hl2). simpl. auto.
  - intros s um response (Hk & _) _.
    eapply hoare_weaken;
      [apply (live_finishTurn (pendingAfter ext message key uid st0 calls0) 5 s
                message um response); [lia | exact Hk | ] | | | ]; auto.
    + intros s0 u a b _ Hu [Hs0 | (st & calls & Hsus & Hs0)].
      * left. now apply pendingIs_update.
      * right. exists st, calls. split; [exact Hsus | now apply pendingIs_update].
    + simpl. intros r w' [_ Hl]. auto.
  - simpl. intros r w' [_ Hl]. exact Hl.
Qed.

(** A turn of a session in phase confirmation whose message holds a
    confirmation keyword: the intent is confirmed and approved, the
    transition to data-collection is refused by the table. *)
Lemma confirmation_turn (uid : string) (ext : Reasoning) (message : string) :
  agentCreated ext = ag ->
  validRequest uid message ->
  isConfirmation message = true ->
  (lo + 18 <= hi)%nat ->
  hoare (live (inPhase key uid Confirmation) 0)
        (handleChatRequest clock ttl ext uid message (Some key))
        (fun r w' => r_phase r = "confirmation"
                     /\ live (approvedIn key uid Confirmation) 18 w') E0.
Proof.
  intros Hext Hvalid Hc Hhi.
  eapply hoare_weaken;
    [apply (live_handle (inPhase key uid Confirmation) (inPhase key uid Confirmation)
              (approvedIn key uid Confirmation)
              (fun _ _ => True) (fun _ _ r => r_phase r = "confirmation")
              ext uid message Hvalid Hext ltac:(lia)) | | | ]; auto.
  - intros s (_ & Hu & _). exact Hu.
  - intros s (Hk & _ & _).
    eapply hoare_weaken;
      [apply (live_agentStep (inPhase key uid Confirmation) 2 ext s message);
       [lia | exact Hk | ] | | | ]; auto.
  - intros s um response (Hk & _ & Hph) _.
    unfold finishTurn, analyzeAgentResponse. rewrite Hk, Hph, Hc.
    eapply hoare_bind with
      (Q := fun su w =>
              (exists t, su = {| su_intent :=
                                   Some {| iu_destination := None;
                                           iu_travelDates := None;
                                           iu_confirmed := Some true;
                                           iu_userApproved := Some true;
                                           iu_detectedAt := None;
                                           iu_confirmedAt := Some (Some t) |};
                                 su_phase := Some "data-collection" |})
              /\ live (inPhase key uid Confirmation) 6 w).
    { intros w Hl. pose proof (live_now (inPhase key uid Confirmation) 5 w Hl) as H.
      unfold bind. simpl in *. split; [eexists; reflexivity | exact H]. }
    intros su. apply hoare_pure. intros (t & ->). cbn [su_intent su_phase].
    eapply hoare_bind with (Q := fun _ => live (approvedIn key uid Confirmation) 10).
    { eapply hoare_bind;
        [apply (live_updateIntent (inPhase key uid Confirmation)
                  (approvedIn key uid Confirmation)); [lia | ] | ].
      - intros x y z Hx. split; [exact Hx | split; reflexivity].
      - intros o w (s' & _ & _ & Hl). simpl. exact Hl. }
    intros ?.
    eapply hoare_bind with (Q := fun _ => live (approvedIn key uid Confirmation) 11).
    { eapply hoare_bind;
        [apply (live_transition_rejected (approvedIn key uid Confirmation) 10
                  "data-collection" Confirmation); [lia | | reflexivity] | ].
      - intros x ((_ & _ & Hx) & _). exact Hx.
      - intros o w Hl. exact Hl. }
    intros ?.
    eapply hoare_bind; [apply live_now | ]. intros t2. cbv zeta.
    eapply hoare_bind;
      [apply (live_updateSession (approvedIn key uid Confirmation)
                (approvedIn key uid Confirmation)); [lia | ] | ].
    { intros x y z Hx. exact Hx. }
    intros o w (s' & -> & Hs' & Hl). simpl.
    destruct Hs' as ((_ & _ & Hp') & _). rewrite Hp'.
    split; [reflexivity | ].
    eapply liveAt_weaken; [ | | exact Hl]; [lia | auto].
  - simpl. intros r w' [(s & response & _ & _ & Hr) Hl]. auto.
Qed.

End Live.

(** ** From stored sessions to live states and back *)

Lemma liveAt_intro (clock : nat -> Z) (hi : nat) (key : string) (ag : bool)
    (phi : Session -> Prop) (w : World) (s : Session) :
  sessions w !! key = Some s -> phi s ->
  agentInstance w = true \/ ag = true ->
  alive clock (ticks w) hi s ->
  liveAt clock (ticks w) hi key ag phi 0 w.
Proof.
  intros Hs Hphi Hag Hal. split; [lia | ]. split.
  - destruct Hag as [-> | ->]; [apply orb_true_r | reflexivity].
  - exists s. auto.
Qed.

Lemma liveAt_stored (clock : nat -> Z) (lo hi : nat) (key : string) (ag : bool)
    (phi : Session -> Prop) (n : nat) (w : World) :
  liveAt clock lo hi key ag phi n w ->
  exists s, sessions w !! key = Some s /\ phi s.
Proof. intros (_ & _ & s & Hs & Hphi & _). eauto. Qed.

Lemma liveAt_shift (clock : nat -> Z) (lo hi : nat) (key : string) (ag : bool)
    (phi : Session -> Prop) (n : nat) (w : World) :
  liveAt clock lo hi key ag phi n w ->
  liveAt clock (ticks w) hi key ag phi 0 w.
Proof.
  intros (Ht & Hag & s & Hs & Hphi & Hal).
  split; [lia | ]. split; [exact Hag | ]. exists s.
  split; [exact Hs | ]. split; [exact Hphi | ]. intros j Hj. apply Hal. lia.
Qed.

Lemma calm_shift (clock : nat -> Z) (ttl : Z) (lo lo' hi : nat) :
  (lo <= lo')%nat -> calm clock ttl lo hi -> calm clock ttl lo' hi.
Proof. intros Hle H i j Hi Hj. apply H; lia. Qed.

(** ** C4: re-asking for approval *)

Lemma reask_turns_live (clock : nat -> Z) (ttl : Z) (hi : nat) (key uid : string)
    (st : option string) (calls : list PendingCall) (ext : Reasoning) :
  Str.truthy key = true ->
  truthyOpt st = true ->
  forall (msgs : list string) (lo : nat) (w : World),
    calm clock ttl lo hi ->
    Forall (fun m => validRequest uid m /\ isApproval m = false) msgs ->
    (lo + 18 * List.length msgs <= hi)%nat ->
    liveAt clock lo hi key (agentCreated ext) (pendingIs key uid st calls) 0 w ->
    exists rs w',
      turns clock ttl ext uid key msgs w = (rs, w')
      /\ Forall (fun r => exists resp, r = Ok resp /\ r_response resp = pendingPrompt) rs
      /\ List.length rs = List.length msgs
      /\ (exists s', sessions w' !! key = Some s' /\ pendingIs key uid st calls s')
      /\ (forall ext', agentCreated ext' = agentCreated ext ->
            turns clock ttl ext' uid key msgs w = (rs, w')).
Proof.
  intros Hkey Hst msgs.
  induction msgs as [ | m rest IH]; intros lo w Hcalm Hall Hhi Hlive.
  - exists [], w. simpl. repeat split; auto.
    eapply liveAt_stored. exact Hlive.
  - inversion Hall as [ | ? ? [Hvalid Ha] Hrest]; subst.
    simpl in Hhi.
    pose proof (reask_turn clock ttl lo hi key (agentCreated ext) Hcalm Hkey
                  uid st calls ext m eq_refl Hvalid Ha Hst ltac:(lia) w Hlive) as H.
    destruct (handleChatRequest clock ttl ext uid m (Some key) w) as [[r|e] w1] eqn:Hrun;
      [ | destruct H].
    destruct H as [Hr Hl1].
    destruct (IH (ticks w1) w1) as (rs & w' & Hturns & Hrs & Hlen & Hs' & Hind).
    + eapply calm_shift; [ | exact Hcalm]. destruct Hl1 as [? _]. lia.
    + exact Hrest.
    + destruct Hl1 as [? _]. lia.
    + eapply liveAt_shift. exact Hl1.
    + exists (Ok r :: rs), w'. cbn [turns]. rewrite Hrun, Hturns.
      split; [reflexivity | ]. split; [constructor; eauto | ].
      split; [simpl; lia | ]. split; [exact Hs' | ].
      intros ext' Hag.
      rewrite (reask_independent clock ttl ext ext' uid m key w Hkey Ha Hag).
      * rewrite Hrun, (Hind ext' Hag). reflexivity.
      * intros s Hs. destruct (liveAt_stored _ _ _ _ _ _ _ _ Hlive) as (s0 & Hs0 & Hp).
        rewrite Hs in Hs0. injection Hs0 as ->.
        destruct Hp as (_ & _ & -> & _). exact Hst.
Qed.

(** C4. Take a suspended session ([pendingRunState] present) stored under
    [key], and any number of messages, none of which is an approval, sent
    in turn by its user while the session stays alive (between the clock
    reads of these turns less than a TTL passes).  Every turn replies with
    the same fixed prompt re-asking for approval; afterwards the stored
    continuation token and pending calls are those stored before; and the
    turns perform no run or resume: replies and final world are the same
    for every reasoning layer. *)
Theorem reask_idempotent (clock : nat -> Z) (ttl : Z) (hi : nat) (key uid : string)
    (ext : Reasoning) (msgs : list string) (w : World) (s : Session) :
  sessions w !! key = Some s ->
  Str.truthy key = true ->
  sessionId s = key ->
  userId s = uid ->
  truthyOpt (pendingRunState s) = true ->
  Forall (fun m => validRequest uid m /\ isApproval m = false) msgs ->
  agentInstance w = true \/ agentCreated ext = true ->
  calm clock ttl (ticks w) hi ->
  alive clock (ticks w) hi s ->
  (ticks w + 18 * List.length msgs <= hi)%nat ->
  exists rs w' s',
    turns clock ttl ext uid key msgs w = (rs, w')
    /\ List.length rs = List.length msgs
    /\ Forall (fun r => exists resp, r = Ok resp /\ r_response resp = pendingPrompt) rs
    /\ sessions w' !! key = Some s'
    /\ pendingRunState s' = pendingRunState s
    /\ pendingInterruptions s' = pendingInterruptions s
    /\ (forall ext', agentCreated ext' = agentCreated ext ->
          turns clock ttl ext' uid key msgs w = (rs, w')).
Proof.
  intros Hs Hkey Hsid Huid Hp Hall Hag Hcalm Hal Hhi.
  destruct (reask_turns_live clock ttl hi key uid (pendingRunState s)
              (pendingInterruptions s) ext Hkey Hp msgs (ticks w) w Hcalm Hall Hhi)
    as (rs & w' & Hturns & Hrs & Hlen & (s' & Hs' & Hp') & Hind).
  { apply (liveAt_intro clock hi key (agentCreated ext) _ w s Hs); auto.
    repeat split; auto. }
  destruct Hp' as (_ & _ & Hp1 & Hp2).
  exists rs, w', s'. repeat split; auto.
Qed.

Lemma reask_idempotent_witness :
  exists rs w' s',
    turns Sample.frozen Sample.TTL Sample.helpful "u1" "s1" ["不用"; "等一下"]
      (Sample.worldOf (Sample.sessionIn Confirmation Sample.japan (Some "state-1")
                         [simplify Sample.planCall; simplify Sample.usageCall]))
    = (rs, w')
    /\ Forall (fun r => exists resp, r = Ok resp /\ r_response resp = pendingPrompt) rs
    /\ sessions w' !! "s1" = Some s'
    /\ pendingRunState s' = Some "state-1"
    /\ pendingInterruptions s' = [simplify Sample.planCall; simplify Sample.usageCall].
Proof.
  destruct (reask_idempotent Sample.frozen Sample.TTL 36 "s1" "u1" Sample.helpful
              ["不用"; "等一下"]
              (Sample.worldOf (Sample.sessionIn Confirmation Sample.japan (Some "state-1")
                                 [simplify Sample.planCall; simplify Sample.usageCall]))
              (Sample.sessionIn Confirmation Sample.japan (Some "state-1")
                 [simplify Sample.planCall; simplify Sample.usageCall]))
    as (rs & w' & s' & H1 & _ & H3 & H4 & H5 & H6 & _).
  - reflexivity.
  - reflexivity.
  - reflexivity.
  - reflexivity.
  - reflexivity.
  - repeat constructor.
  - left. reflexivity.
  - intros i j _ _. vm_compute. discriminate.
  - intros j _. vm_compute. discriminate.
  - simpl. lia.
  - exists rs, w', s'. auto.
Defined.

(** ** C3: clearing the pending approval *)

(** C3, as stated, fails: the pending approval is cleared after the
    continuation is restored and before the resumed run is called.  Here
    restoring works and the resumed run rejects: the turn ends with the
    apology, and the pending approval is gone although no resumed run
    started. *)
Lemma cleared_before_resume_counterexample :
  let s := Sample.sessionIn Confirmation Sample.japan (Some "state-1")
             [simplify Sample.planCall; simplify Sample.usageCall] in
  resume Sample.resumeFails "state-1" (map original (pendingInterruptions s)) = Rejects
  /\ exists r w' s',
       handleChatRequest Sample.frozen Sample.TTL Sample.resumeFails "u1" "好" (Some "s1")
         (Sample.worldOf s) = (Ok r, w')
       /\ r_response r = errorResponse
       /\ sessions w' !! "s1" = Some s'
       /\ pendingRunState s' = None
       /\ pendingInterruptions s' = [].
Proof.
  split; [reflexivity | ].
  eexists. eexists. eexists.
  split; [vm_compute; reflexivity | ].
  split; [reflexivity | ].
  split; [vm_compute; reflexivity | ].
  split; reflexivity.
Qed.

(** C3, amended. For a suspended session stored under [key] that stays
    alive, and a turn of its user whose message is an approval:
    if restoring the continuation fails, the turn replies with the apology
    and the pending approval is left untouched; if restoring succeeds, the
    pending approval is cleared, before the resumed run is called and
    whether that run then resolves or rejects (the reply being its final
    output, or the apology).  For a session without pending approval, a
    turn leaves it without one unless this turn's fresh run is suspended
    (it reports interruptions and the message is not an approval), in which
    case the new continuation and calls are stored. *)
Theorem pending_cleared_on_restore (clock : nat -> Z) (ttl : Z) (hi : nat)
    (key uid : string) (ext : Reasoning) (message : string) (w : World) (s : Session) :
  sessions w !! key = Some s ->
  Str.truthy key = true ->
  sessionId s = key ->
  userId s = uid ->
  validRequest uid message ->
  agentInstance w = true \/ agentCreated ext = true ->
  calm clock ttl (ticks w) hi ->
  alive clock (ticks w) hi s ->
  (ticks w + 18 <= hi)%nat ->
  (forall st,
     pendingRunState s = Some st -> Str.truthy st = true ->
     isApproval message = true ->
     fromString ext st = false ->
     exists r w' s',
       handleChatRequest clock ttl ext uid message (Some key) w = (Ok r, w')
       /\ r_response r = errorResponse
       /\ sessions w' !! key = Some s'
       /\ pendingRunState s' = pendingRunState s
       /\ pendingInterruptions s' = pendingInterruptions s)
  /\ (forall st,
        pendingRunState s = Some st -> Str.truthy st = true ->
        isApproval message = true ->
        fromString ext st = true ->
        exists r w' s',
          handleChatRequest clock ttl ext uid message (Some key) w = (Ok r, w')
          /\ r_response r
             = resumedReply (resume ext st (map original (pendingInterruptions s)))
          /\ sessions w' !! key = Some s'
          /\ pendingRunState s' = None
          /\ pendingInterruptions s' = [])
  /\ (truthyOpt (pendingRunState s) = false ->
      exists r w' s',
        handleChatRequest clock ttl ext uid message (Some key) w = (Ok r, w')
        /\ sessions w' !! key = Some s'
        /\ ((pendingRunState s' = pendingRunState s
             /\ pendingInterruptions s' = pendingInterruptions s)
            \/ exists st calls,
                 suspends ext message st calls
                 /\ pendingRunState s' = Some st
                 /\ pendingInterruptions s' = calls)).
Proof.
  intros Hs Hkey Hsid Huid Hvalid Hag Hcalm Hal Hhi.
  assert (forall st calls, pendingRunState s = st -> pendingInterruptions s = calls ->
            liveAt clock (ticks w) hi key (agentCreated ext)
                   (pendingIs key uid st calls) 0 w) as Hlive.
  { intros st calls H1 H2.
    apply (liveAt_intro clock hi key (agentCreated ext) _ w s Hs); auto.
    repeat split; auto. }
  split; [ | split].
  - intros st Hp Hst Ha Hfs.
    pose proof (restore_fails_turn clock ttl (ticks w) hi key (agentCreated ext)
                  Hcalm Hkey uid st (pendingInterruptions s) ext message eq_refl
                  Hvalid Ha Hst Hfs Hhi w (Hlive _ _ Hp eq_refl)) as H.
    destruct (handleChatRequest clock ttl ext uid message (Some key) w) as [[r|e] w'];
      [ | destruct H].
    destruct H as [Hr Hl].
    destruct (liveAt_stored _ _ _ _ _ _ _ _ Hl) as (s' & Hs' & _ & _ & H1 & H2).
    exists r, w', s'. rewrite Hp. auto.
  - intros st Hp Hst Ha Hfs.
    pose proof (restored_turn clock ttl (ticks w) hi key (agentCreated ext)
                  Hcalm Hkey uid st (pendingInterruptions s) ext message eq_refl
                  Hvalid Ha Hst Hfs Hhi w (Hlive _ _ Hp eq_refl)) as H.
    destruct (handleChatRequest clock ttl ext uid message (Some key) w) as [[r|e] w'];
      [ | destruct H].
    destruct H as [Hr Hl].
    destruct (liveAt_stored _ _ _ _ _ _ _ _ Hl) as (s' & Hs' & _ & _ & H1 & H2).
    exists r, w', s'. auto.
  - intros Hp.
    pose proof (fresh_turn clock ttl (ticks w) hi key (agentCreated ext)
                  Hcalm Hkey uid (pendingRunState s) (pendingInterruptions s) ext
                  message eq_refl Hvalid Hp Hhi w (Hlive _ _ eq_refl eq_refl)) as H.
    destruct (handleChatRequest clock ttl ext uid message (Some key) w) as [[r|e] w'];
      [ | destruct H].
    destruct (liveAt_stored _ _ _ _ _ _ _ _ H) as (s' & Hs' & Hafter).
    exists r, w', s'. split; [reflexivity | ]. split; [exact Hs' | ].
    destruct Hafter as [(_ & _ & H1 & H2) | (st & calls & Hsus & _ & _ & H1 & H2)].
    + left. auto.
    + right. exists st, calls. auto.
Qed.

Lemma pending_cleared_on_restore_witness :
  let s := Sample.sessionIn Confirmation Sample.japan (Some "state-1")
             [simplify Sample.planCall; simplify Sample.usageCall] in
  exists r w' s',
    handleChatRequest Sample.frozen Sample.TTL Sample.restoreFails "u1" "可以" (Some "s1")
      (Sample.worldOf s) = (Ok r, w')
    /\ r_response r = errorResponse
    /\ sessions w' !! "s1" = Some s'
    /\ pendingRunState s' = pendingRunState s
    /\ pendingInterruptions s' = pendingInterruptions s.
Proof.
  intros s.
  refine (proj1 (pending_cleared_on_restore Sample.frozen Sample.TTL 18 "s1" "u1"
            Sample.restoreFails "可以" (Sample.worldOf s) s
            eq_refl eq_refl eq_refl eq_refl _ _ _ _ _) "state-1" eq_refl eq_refl eq_refl eq_refl).
  - repeat split.
  - left. reflexivity.
  - intros i j _ _. vm_compute. discriminate.
  - intros j _. vm_compute. discriminate.
  - simpl. lia.
Defined.

(** ** C1: confirmation in the confirmation phase *)

(** C1 does not hold of the code.  For a session in phase confirmation that
    stays alive, a turn whose message holds a confirmation keyword sets
    [intent.confirmed] and [intent.userApproved], but the phase stays
    confirmation: [analyzeAgentResponse] asks for data-collection, which
    the table of [transitionPhase] does not allow after confirmation. *)
Theorem confirmation_keeps_phase (clock : nat -> Z) (ttl : Z) (hi : nat)
    (key uid : string) (ext : Reasoning) (message : string) (w : World) (s : Session) :
  sessions w !! key = Some s ->
  Str.truthy key = true ->
  sessionId s = key ->
  userId s = uid ->
  phase s = Confirmation ->
  validRequest uid message ->
  isConfirmation message = true ->
  agentInstance w = true \/ agentCreated ext = true ->
  calm clock ttl (ticks w) hi ->
  alive clock (ticks w) hi s ->
  (ticks w + 18 <= hi)%nat ->
  exists r w' s',
    handleChatRequest clock ttl ext uid message (Some key) w = (Ok r, w')
    /\ sessions w' !! key = Some s'
    /\ confirmed (intent s') = true
    /\ userApproved (intent s') = true
    /\ phase s' = Confirmation
    /\ r_phase r = "confirmation"
    /\ r_phase r <> "data-collection".
Proof.
  intros Hs Hkey Hsid Huid Hph Hvalid Hc Hag Hcalm Hal Hhi.
  pose proof (confirmation_turn clock ttl (ticks w) hi key (agentCreated ext)
                Hcalm Hkey uid ext message eq_refl Hvalid Hc Hhi w) as H.
  specialize (H ltac:(apply (liveAt_intro clock hi key (agentCreated ext) _ w s Hs);
                      auto; repeat split; auto)).
  destruct (handleChatRequest clock ttl ext uid message (Some key) w) as [[r|e] w'];
    [ | destruct H].
  destruct H as [Hr Hl].
  destruct (liveAt_stored _ _ _ _ _ _ _ _ Hl) as (s' & Hs' & (_ & _ & Hp') & Hc' & Ha').
  exists r, w', s'. repeat split; auto.
  rewrite Hr. discriminate.
Qed.

Lemma confirmation_keeps_phase_witness :
  exists r w' s',
    handleChatRequest Sample.frozen Sample.TTL Sample.direct "u1" "好" (Some "s1")
      (Sample.worldOf (Sample.sessionIn Confirmation Sample.japan None [])) = (Ok r, w')
    /\ sessions w' !! "s1" = Some s'
    /\ confirmed (intent s') = true
    /\ userApproved (intent s') = true
    /\ phase s' = Confirmation
    /\ r_phase r = "confirmation".
Proof.
  destruct (confirmation_keeps_phase Sample.frozen Sample.TTL 18 "s1" "u1"
              Sample.direct "好"
              (Sample.worldOf (Sample.sessionIn Confirmation Sample.japan None []))
              (Sample.sessionIn Confirmation Sample.japan None []))
    as (r & w' & s' & H1 & H2 & H3 & H4 & H5 & H6 & _).
  - reflexivity.
  - reflexivity.
  - reflexivity.
  - reflexivity.
  - reflexivity.
  - repeat split.
  - reflexivity.
  - left. reflexivity.
  - intros i j _ _. vm_compute. discriminate.
  - intros j _. vm_compute. discriminate.
  - simpl. lia.
  - exists r, w', s'. repeat split; assumption.
Defined.

(** ** C10: a reachable world *)

Lemma data_fields_never_assigned_witness :
  storeInv noData
    (snd (handleChatRequest Sample.ticking Sample.TTL Sample.helpful "u1"
            "我下週要去日本" None Sample.emptyWorld)).
Proof.
  apply (data_fields_never_assigned Sample.ticking Sample.TTL).
  apply reach_turn. apply (reach_init _ _ 0).
Defined.

(** ** Scenarios of the specification, run on the model *)

(** Scenario A: a new session is in phase intent-detection with an empty
    message log. *)
Example scenario_create_get :
  exists s w',
    (let! id := createSession Sample.ticking Sample.TTL "s1" "u1" in
     getSession Sample.ticking id) Sample.emptyWorld = (Ok (Some s), w')
    /\ phase s = IntentDetection /\ messages s = [] /\ userId s = "u1".
Proof. eexists. eexists. split; [vm_compute; reflexivity | auto]. Qed.

(** Scenario B, as the code runs it: the flags are set, the phase is not
    advanced. *)
Example scenario_confirmation :
  exists r w' s',
    handleChatRequest Sample.ticking Sample.TTL Sample.direct "u1" "好" (Some "s1")
      (Sample.worldOf (Sample.sessionIn Confirmation Sample.japan None [])) = (Ok r, w')
    /\ sessions w' !! "s1" = Some s'
    /\ r_response r = "好的！"
    /\ r_phase r = "confirmation"
    /\ phase s' = Confirmation
    /\ confirmed (intent s') = true /\ userApproved (intent s') = true
    /\ List.length (messages s') = 2%nat.
Proof.
  eexists. eexists. eexists.
  split; [vm_compute; reflexivity | ].
  split; [vm_compute; reflexivity | ].
  repeat split.
Qed.

(** Scenario C: the run reports two pending calls and the message is not
    an approval. *)
Example scenario_suspend :
  exists r w' s',
    handleChatRequest Sample.ticking Sample.TTL Sample.helpful "u1" "我下週去日本玩" None
      Sample.emptyWorld = (Ok r, w')
    /\ sessions w' !! "s1" = Some s'
    /\ r_response r = approvalPrompt
    /\ pendingRunState s' = Some "state-1"
    /\ List.length (pendingInterruptions s') = 2%nat
    /\ phase s' = Confirmation
    /\ destination (intent s') = Some "日本".
Proof.
  eexists. eexists. eexists.
  split; [vm_compute; reflexivity | ].
  split; [vm_compute; reflexivity | ].
  repeat split.
Qed.

(** Scenario D: the next message approves; the run resumes and the pending
    approval is absent afterwards. *)
Example scenario_resume :
  exists r1 w1 r2 w2 s2,
    handleChatRequest Sample.ticking Sample.TTL Sample.helpful "u1" "我下週去日本玩" None
      Sample.emptyWorld = (Ok r1, w1)
    /\ handleChatRequest Sample.ticking Sample.TTL Sample.helpful "u1" "可以" (Some "s1")
         w1 = (Ok r2, w2)
    /\ sessions w2 !! "s1" = Some s2
    /\ r_response r2 = "為您推薦以下方案"
    /\ pendingRunState s2 = None
    /\ pendingInterruptions s2 = []
    /\ List.length (messages s2) = 4%nat.
Proof.
  eexists. eexists. eexists. eexists. eexists.
  split; [vm_compute; reflexivity | ].
  split; [vm_compute; reflexivity | ].
  split; [vm_compute; reflexivity | ].
  repeat split.
Qed.

(** Scenario E: the eleventh request within 60 s. *)
Example scenario_rate_limit :
  snd (rateLimitAll "s1" [0; 100; 200; 300; 400; 500; 600; 700; 800; 900; 1000] ∅)
  = (repeat Next 10 ++ [TooManyRequests 59])%list.
Proof. vm_compute. reflexivity. Qed.

(** The first match is by the order of the list of countries, not by the
    position in the text. *)
Example detectCountry_list_order :
  detectCountry "我想去韓國和日本" EmptyString = Some "日本".
Proof. reflexivity. Qed.

(** * Further properties of the code *)

(** ** The sweep *)

Lemma sweep_partition (t : Z) (m : gmap string Session) :
  (size (filter (fun kv => (t <= expiresAt (snd kv))%Z) m)
   + size (expiredAt t m) = size m)%nat.
Proof.
  unfold expiredAt.
  rewrite <- (map_filter_union_complement
                (fun kv : string * Session => (t <= expiresAt (snd kv))%Z) m) at 3.
  rewrite map_size_disj_union by apply map_disjoint_filter_complement.
  f_equal. f_equal. apply map_filter_ext. intros i x _. simpl. lia.
Qed.

Lemma cleanupExpiredSessions_eq (clock : nat -> Z) (w : World) :
  cleanupExpiredSessions clock w =
  (Ok (size (sessions w)
       - size (filter (fun kv => (clock (ticks w) <= expiresAt (snd kv))%Z) (sessions w)))%nat,
   withSessions
     (filter (fun kv => (clock (ticks w) <= expiresAt (snd kv))%Z) (sessions w))
     (tick w)).
Proof. reflexivity. Qed.

(** X1. [cleanupExpiredSessions] never throws and reads the clock once;
    it deletes exactly the sessions whose [expiresAt] is before that
    reading, leaves every other session as it is, and returns the number
    of sessions it deleted. *)
Theorem cleanupExpiredSessions_sweeps (clock : nat -> Z) (w : World) :
  exists n w',
    cleanupExpiredSessions clock w = (Ok n, w')
    /\ (forall k s, sessions w' !! k = Some s <->
                    sessions w !! k = Some s /\ clock (ticks w) <= expiresAt s)
    /\ n = size (expiredAt (clock (ticks w)) (sessions w))
    /\ (size (sessions w') + n = size (sessions w))%nat
    /\ ticks w' = S (ticks w)
    /\ agentInstance w' = agentInstance w.
Proof.
  rewrite cleanupExpiredSessions_eq.
  eexists. eexists. split; [reflexivity | ]. simpl.
  pose proof (sweep_partition (clock (ticks w)) (sessions w)) as Hp.
  split; [ | split; [ | split; [ | split; reflexivity]]].
  - intros k s. rewrite map_lookup_filter_Some. simpl. reflexivity.
  - lia.
  - lia.
Qed.

Lemma lookup_kept (t : Z) (m : gmap string Session) (k : string) :
  filter (fun kv : string * Session => t <= expiresAt (snd kv)) m !! k
  = match m !! k with
    | Some s => if decide (t <= expiresAt s) then Some s else None
    | None => None
    end.
Proof.
  destruct (m !! k) as [s|] eqn:Hs.
  - destruct (decide (t <= expiresAt s)) as [Hle | Hgt].
    + apply map_lookup_filter_Some. auto.
    + apply map_lookup_filter_None. right. intros x Hx. simpl.
      rewrite Hs in Hx. injection Hx as <-. exact Hgt.
  - apply map_lookup_filter_None. left. exact Hs.
Qed.

(** X2. The sweep is an optimisation only: on a clock that does not go
    back, a lookup after a sweep returns what the same lookup returns
    without the sweep and, for a non-empty identifier, leaves the same
    entry (or none) under it. *)
Theorem sweep_keeps_lookups (clock : nat -> Z) (sid : string) (w : World) :
  clock (ticks w) <= clock (S (ticks w)) ->
  let swept := snd (cleanupExpiredSessions clock w) in
  fst (getSession clock sid swept) = fst (getSession clock sid (tick w))
  /\ (Str.truthy sid = true ->
      sessions (snd (getSession clock sid swept)) !! sid
      = sessions (snd (getSession clock sid (tick w))) !! sid).
Proof.
  intros Hmono swept. subst swept. rewrite cleanupExpiredSessions_eq.
  rewrite !getSession_eq. simpl. rewrite lookup_kept.
  destruct (Str.truthy sid); [ | split; [reflexivity | discriminate]].
  destruct (sessions w !! sid) as [s|] eqn:Hs.
  - destruct (decide (clock (ticks w) <= expiresAt s)) as [Hle | Hgt].
    + destruct (clock (S (ticks w)) >? expiresAt s); simpl.
      * split; [reflexivity | ]. intros _. now rewrite !lookup_delete_eq.
      * split; [reflexivity | ]. intros _.
        rewrite lookup_kept, Hs. destruct (decide _); [reflexivity | contradiction].
    + destruct (clock (S (ticks w)) >? expiresAt s) eqn:Hc; [ | lia]. simpl.
      split; [reflexivity | ]. intros _.
      rewrite lookup_kept, Hs, lookup_delete_eq.
      destruct (decide _); [contradiction | reflexivity].
  - simpl. split; [reflexivity | ]. intros _. now rewrite lookup_kept, Hs.
Qed.

Lemma sweep_keeps_lookups_witness :
  fst (getSession Sample.ticking "s1"
         (snd (cleanupExpiredSessions Sample.ticking
                 (Sample.worldOf (Sample.sessionIn IntentDetection Sample.noIntent None [])))))
  = fst (getSession Sample.ticking "s1"
           (tick (Sample.worldOf (Sample.sessionIn IntentDetection Sample.noIntent None [])))).
Proof.
  apply (sweep_keeps_lookups Sample.ticking "s1"
           (Sample.worldOf (Sample.sessionIn IntentDetection Sample.noIntent None []))).
  vm_compute. discriminate.
Defined.

(** X3. [getActiveSessionCount] first sweeps: it returns the number of
    sessions that are not expired at its clock reading, and the store then
    holds exactly those sessions. *)
Theorem getActiveSessionCount_counts_live (clock : nat -> Z) (w : World) :
  exists n w',
    getActiveSessionCount clock w = (Ok n, w')
    /\ n = size (sessions w')
    /\ (forall k s, sessions w' !! k = Some s <->
                    sessions w !! k = Some s /\ clock (ticks w) <= expiresAt s)
    /\ (n + size (expiredAt (clock (ticks w)) (sessions w)) = size (sessions w))%nat.
Proof.
  unfold getActiveSessionCount, bind. rewrite cleanupExpiredSessions_eq.
  eexists. eexists. split; [reflexivity | ]. simpl.
  split; [reflexivity | ]. split.
  - intros k s. rewrite map_lookup_filter_Some. simpl. reflexivity.
  - apply sweep_partition.
Qed.

(** ** Updates and lookups *)

Lemma updateSession_Some (clock : nat -> Z) (ttl : Z) (sid : string) (u : Updates)
    (w w' : World) (s' : Session) :
  updateSession clock ttl sid u w = (Ok (Some s'), w') ->
  exists s,
    sessions w !! sid = Some s
    /\ Str.truthy sid = true
    /\ clock (ticks w) <= expiresAt s
    /\ s' = updatedWith ttl s u (clock (S (ticks w))) (clock (S (S (ticks w))))
    /\ w' = withSessions (<[sid := s']> (sessions w)) (tick (tick (tick w))).
Proof.
  rewrite updateSession_eq.
  destruct (getSession_cases clock sid w)
    as [(s & Hs & Ht & Hle & ->) | [[-> _] | (s & Hs & Ht & Hlt & ->)]];
    try discriminate.
  cbv zeta. intros [= <- <-]. exists s. auto.
Qed.

(** X4. Sliding expiry: after a successful [updateSession], the session it
    returned is what [getSession] returns at every later moment up to one
    TTL after the update's last clock reading, and an access after that
    moment finds it gone. *)
Theorem update_then_lookup (clock : nat -> Z) (ttl : Z) (sid : string) (u : Updates)
    (w w' later : World) (s' : Session) :
  updateSession clock ttl sid u w = (Ok (Some s'), w') ->
  sessions later = sessions w' ->
  (clock (ticks later) <= clock (S (S (ticks w))) + ttl ->
     getSession clock sid later = (Ok (Some s'), tick later))
  /\ (clock (S (S (ticks w))) + ttl < clock (ticks later) ->
       fst (getSession clock sid later) = Ok None
       /\ sessions (snd (getSession clock sid later)) !! sid = None).
Proof.
  intros Hupd Hlater.
  apply updateSession_Some in Hupd as (s & Hs & Ht & Hle & Hs' & ->).
  simpl in Hlater.
  assert (sessions later !! sid = Some s') as Hl.
  { rewrite Hlater. apply lookup_insert_eq. }
  assert (expiresAt s' = clock (S (S (ticks w))) + ttl) as He.
  { rewrite Hs'. reflexivity. }
  rewrite getSession_eq, Ht, Hl, He. split; intros H.
  - destruct (clock (ticks later) >? clock (S (S (ticks w))) + ttl) eqn:Hc;
      [lia | reflexivity].
  - destruct (clock (ticks later) >? clock (S (S (ticks w))) + ttl) eqn:Hc;
      [ | lia].
    simpl. split; [reflexivity | apply lookup_delete_eq].
Qed.

Lemma update_then_lookup_witness :
  exists s' w',
    updateSession Sample.ticking Sample.TTL "s1" noUpdates
      (Sample.worldOf (Sample.sessionIn IntentDetection Sample.noIntent None []))
    = (Ok (Some s'), w')
    /\ getSession Sample.ticking "s1" w' = (Ok (Some s'), tick w').
Proof.
  eexists. eexists. split; [vm_compute; reflexivity | ].
  refine (proj1 (update_then_lookup Sample.ticking Sample.TTL "s1" noUpdates
            (Sample.worldOf (Sample.sessionIn IntentDetection Sample.noIntent None []))
            _ _ _ _ eq_refl) _).
  - vm_compute. reflexivity.
  - vm_compute. discriminate.
Defined.

Lemma updateSession_absent (clock : nat -> Z) (ttl : Z) (sid : string) (u : Updates)
    (w : World) :
  sessions w !! sid = None \/ Str.truthy sid = false ->
  updateSession clock ttl sid u w = (Ok None, w).
Proof.
  intros H. rewrite updateSession_eq, getSession_eq.
  destruct (Str.truthy sid); [ | reflexivity].
  destruct H as [-> | H]; [reflexivity | discriminate].
Qed.

Lemma updateSession_expired (clock : nat -> Z) (ttl : Z) (sid : string) (u : Updates)
    (w : World) (s : Session) :
  Str.truthy sid = true -> sessions w !! sid = Some s ->
  expiresAt s < clock (ticks w) ->
  updateSession clock ttl sid u w
  = (Ok None, withSessions (delete sid (sessions w)) (tick w)).
Proof.
  intros Ht Hs Hlt. rewrite updateSession_eq, getSession_eq, Ht, Hs.
  destruct (clock (ticks w) >? expiresAt s) eqn:Hc; [reflexivity | lia].
Qed.

(** X5. None of the mutators creates or revives a session.  For an
    identifier that is empty or not in the store, [updateSession],
    [updateIntent], [transitionPhase], [setPendingRunState] and
    [clearPendingRunState] return null and leave the world as it is; for a
    stored session that has expired they return null and delete it. *)
Theorem mutators_need_live_session (clock : nat -> Z) (ttl : Z) (sid : string)
    (u : Updates) (iu : IntentUpdates) (target st : string)
    (calls : list PendingCall) (w : World) :
  (sessions w !! sid = None \/ Str.truthy sid = false ->
   updateSession clock ttl sid u w = (Ok None, w)
   /\ updateIntent clock ttl sid iu w = (Ok None, w)
   /\ transitionPhase clock ttl sid target w = (Ok None, w)
   /\ setPendingRunState clock ttl sid st calls w = (Ok None, w)
   /\ clearPendingRunState clock ttl sid w = (Ok None, w))
  /\ (forall s,
        Str.truthy sid = true -> sessions w !! sid = Some s ->
        expiresAt s < clock (ticks w) ->
        let gone := withSessions (delete sid (sessions w)) (tick w) in
        sessions gone !! sid = None
        /\ updateSession clock ttl sid u w = (Ok None, gone)
        /\ updateIntent clock ttl sid iu w = (Ok None, gone)
        /\ transitionPhase clock ttl sid target w = (Ok None, gone)
        /\ setPendingRunState clock ttl sid st calls w = (Ok None, gone)
        /\ clearPendingRunState clock ttl sid w = (Ok None, gone)).
Proof.
  split.
  - intros H.
    assert (getSession clock sid w = (Ok None, w)) as Hg.
    { rewrite getSession_eq. destruct (Str.truthy sid); [ | reflexivity].
      destruct H as [-> | H]; [reflexivity | discriminate]. }
    split; [now apply updateSession_absent | ].
    split; [unfold updateIntent, bind; now rewrite Hg | ].
    split; [unfold transitionPhase, bind; now rewrite Hg | ].
    split; now apply updateSession_absent.
  - intros s Ht Hs Hlt gone.
    assert (getSession clock sid w = (Ok None, gone)) as Hg.
    { rewrite getSession_eq, Ht, Hs.
      destruct (clock (ticks w) >? expiresAt s) eqn:Hc; [reflexivity | lia]. }
    split; [apply lookup_delete_eq | ].
    split; [now apply (updateSession_expired clock ttl sid u w s) | ].
    split; [unfold updateIntent, bind; now rewrite Hg | ].
    split; [unfold transitionPhase, bind; now rewrite Hg | ].
    split; now apply (updateSession_expired clock ttl sid _ w s).
Qed.

Lemma mutators_need_live_session_witness :
  updateIntent Sample.ticking Sample.TTL "nobody"
    {| iu_destination := Some (Some "日本"); iu_travelDates := None;
       iu_confirmed := None; iu_userApproved := None;
       iu_detectedAt := None; iu_confirmedAt := None |}
    Sample.emptyWorld
  = (Ok None, Sample.emptyWorld).
Proof.
  refine (proj1 (proj2 (proj1
    (mutators_need_live_session Sample.ticking Sample.TTL "nobody" noUpdates _
       "confirmation" "state" [] Sample.emptyWorld) _))).
  left. reflexivity.
Defined.

(** ** What each mutator changes *)



(** The fields no mutator of the store touches. *)
Lemma updatedWith_identity (ttl : Z) (s : Session) (u : Updates) (a b : Z) :
  sessionId (updatedWith ttl s u a b) = sessionId s
  /\ userId (updatedWith ttl s u a b) = userId s
  /\ createdAt (updatedWith ttl s u a b) = createdAt s.
Proof. repeat split. Qed.



(** ** The rate limiter beyond the eleventh request *)

Lemma rateLimit_other_key (key k : string) (now : Z)
    (store : gmap string RateLimitRecord) :
  k <> key -> fst (rateLimit key now store) !! k = store !! k.
Proof.
  intros Hne. unfold rateLimit.
  destruct (count _ >? RATE_LIMIT_REQUESTS); simpl; now apply lookup_insert_ne.
Qed.

Lemma rateLimit_depends_on_key (key : string) (now : Z)
    (store1 store2 : gmap string RateLimitRecord) :
  store1 !! key = store2 !! key ->
  snd (rateLimit key now store1) = snd (rateLimit key now store2)
  /\ fst (rateLimit key now store1) !! key = fst (rateLimit key now store2) !! key.
Proof.
  intros H. unfold rateLimit. rewrite H.
  destruct (count _ >? RATE_LIMIT_REQUESTS); simpl;
    split; try reflexivity; now rewrite !lookup_insert_eq.
Qed.

(** X7. Within one window the limiter accepts exactly the requests that
    bring the counter up to 10 and rejects all later ones, however many
    arrive; rejected requests are counted too, but the end of the window
    never moves, and the records of other keys are not touched. *)
Theorem rateLimit_fixed_window (key : string) (times : list Z) :
  forall (store : gmap string RateLimitRecord) (r : RateLimitRecord),
    store !! key = Some r ->
    Forall (fun t => t <= resetAt r) times ->
    exists store' ds,
      rateLimitAll key times store = (store', ds)
      /\ List.length ds = List.length times
      /\ store' !! key
         = Some {| count := count r + Z.of_nat (List.length times);
                   resetAt := resetAt r |}
      /\ (forall (i : nat) d, ds !! i = Some d ->
            (d = Next <-> count r + Z.of_nat i + 1 <= RATE_LIMIT_REQUESTS)
            /\ (d <> Next -> exists t, times !! i = Some t
                  /\ d = TooManyRequests (ceilDiv (resetAt r - t) 1000)))
      /\ (forall k, k <> key -> store' !! k = store !! k).
Proof.
  induction times as [ | t times IH]; intros store r Hs Hall.
  - exists store, []. simpl. rewrite Z.add_0_r. destruct r.
    split; [reflexivity | ]. split; [reflexivity | ]. split; [exact Hs | ].
    split; [ | auto]. intros i d Hd. rewrite lookup_nil in Hd. discriminate.
  - inversion Hall as [ | ? ? Ht Hrest]; subst.
    cbn [rateLimitAll]. rewrite (rateLimit_counted key t store r Hs Ht).
    destruct (IH (<[key := {| count := count r + 1; resetAt := resetAt r |}]> store)
                 {| count := count r + 1; resetAt := resetAt r |})
      as (store' & ds & Heq & Hlen & Hk & Hds & Hother).
    + apply lookup_insert_eq.
    + exact Hrest.
    + rewrite Heq. simpl in *. eexists. eexists. split; [reflexivity | ].
      split; [simpl; lia | ]. split; [rewrite Hk; f_equal; f_equal; lia | ].
      split.
      * intros [ | i] d Hd.
        -- simpl in Hd. injection Hd as <-.
           unfold RATE_LIMIT_REQUESTS.
           destruct (count r + 1 >? 10) eqn:E.
           ++ split; [split; [discriminate | lia] | ].
              intros _. exists t. split; reflexivity.
           ++ split; [split; [lia | reflexivity] | ]. intros H. contradiction.
        -- simpl in Hd. destruct (Hds i d Hd) as [H1 H2]. split.
           ++ rewrite H1. unfold RATE_LIMIT_REQUESTS. lia.
           ++ intros Hn. destruct (H2 Hn) as (t' & Ht' & ->). exists t'. auto.
      * intros k Hne. rewrite (Hother k Hne). now apply lookup_insert_ne.
Qed.

Lemma rateLimit_fixed_window_witness :
  exists store' ds,
    rateLimitAll "s1" [10; 20; 30] {[ "s1" := {| count := 9; resetAt := 60000 |} ]}
    = (store', ds)
    /\ store' !! "s1" = Some {| count := 12; resetAt := 60000 |}.
Proof.
  destruct (rateLimit_fixed_window "s1" [10; 20; 30]
              {[ "s1" := {| count := 9; resetAt := 60000 |} ]}
              {| count := 9; resetAt := 60000 |})
    as (store' & ds & H1 & _ & H3 & _).
  - reflexivity.
  - repeat constructor; vm_compute; discriminate.
  - exists store', ds. split; [exact H1 | exact H3].
Defined.

(** X8. Keys do not interfere: a request of one key leaves the record of
    every other key alone, and does not change the decision that a request
    of another key then gets. *)
Theorem rateLimit_keys_independent (a b : string) (ta tb : Z)
    (store : gmap string RateLimitRecord) :
  a <> b ->
  fst (rateLimit a ta store) !! b = store !! b
  /\ snd (rateLimit b tb (fst (rateLimit a ta store))) = snd (rateLimit b tb store)
  /\ fst (rateLimit b tb (fst (rateLimit a ta store))) !! b
     = fst (rateLimit b tb store) !! b.
Proof.
  intros Hne.
  assert (fst (rateLimit a ta store) !! b = store !! b) as H.
  { apply rateLimit_other_key. congruence. }
  split; [exact H | ]. now apply rateLimit_depends_on_key.
Qed.

Lemma rateLimit_keys_independent_witness :
  snd (rateLimit "s2" 5 (fst (rateLimit "s1" 0 ∅))) = snd (rateLimit "s2" 5 ∅).
Proof.
  apply (rateLimit_keys_independent "s1" "s2" 0 5 ∅). discriminate.
Defined.

Lemma rateLimitRequests_fresh_keys (requests : list RateRequest) :
  forall store : gmap string RateLimitRecord,
    NoDup (map (fun rq => rateLimitKey (rq_sessionId rq) (rq_ip rq)) requests) ->
    Forall (fun rq => store !! rateLimitKey (rq_sessionId rq) (rq_ip rq) = None)
           requests ->
    snd (rateLimitRequests requests store) = repeat Next (List.length requests).
Proof.
  induction requests as [ | rq rest IH]; intros store Hnd Hfresh; [reflexivity | ].
  inversion Hnd as [ | ? ? Hnotin Hnd']; subst.
  inversion Hfresh as [ | ? ? Hrq Hrest]; subst.
  cbn [rateLimitRequests].
  rewrite (rateLimit_fresh _ (rq_now rq) store (or_introl Hrq)).
  specialize (IH (<[rateLimitKey (rq_sessionId rq) (rq_ip rq) :=
                      {| count := 1; resetAt := rq_now rq + RATE_LIMIT_WINDOW_MS |}]> store)
                 Hnd').
  destruct (rateLimitRequests rest _) as [store2 ds]. simpl in *.
  f_equal. apply IH.
  apply Forall_forall. intros x Hx.
  rewrite lookup_insert_ne.
  - rewrite Forall_forall in Hrest. now apply Hrest.
  - intros Heq. apply Hnotin. rewrite Heq. apply list_elem_of_In.
    apply (in_map (fun rq => rateLimitKey (rq_sessionId rq) (rq_ip rq))).
    now apply list_elem_of_In.
Qed.

(** X9. The limiter is keyed by whatever the request body presents as
    [sessionId], before the session is looked up: requests that present
    pairwise different non-empty identifiers, none of which has a record,
    are all accepted, whatever their number, their address and times. *)
Theorem rateLimit_distinct_ids_never_limited (requests : list RateRequest)
    (ids : list string) (store : gmap string RateLimitRecord) :
  map rq_sessionId requests = map Some ids ->
  NoDup ids ->
  Forall (fun id => Str.truthy id = true /\ store !! id = None) ids ->
  snd (rateLimitRequests requests store) = repeat Next (List.length requests).
Proof.
  intros Hids Hnd Hall.
  assert (map (fun rq => rateLimitKey (rq_sessionId rq) (rq_ip rq)) requests = ids)
    as Hkeys.
  { revert ids Hids Hnd Hall. induction requests as [ | rq rest IH];
      intros [ | id ids] Hids Hnd Hall; try discriminate; [reflexivity | ].
    simpl in Hids. injection Hids as Hrq Hrest.
    inversion Hnd; subst. inversion Hall as [ | ? ? [Ht _] Hall']; subst.
    simpl. rewrite Hrq. simpl. rewrite Ht. f_equal. now apply IH. }
  apply rateLimitRequests_fresh_keys.
  - rewrite Hkeys. exact Hnd.
  - rewrite <- Hkeys in Hall. apply List.Forall_map in Hall.
    eapply List.Forall_impl; [ | exact Hall]. intros rq [_ Hn]. exact Hn.
Qed.

Lemma rateLimit_distinct_ids_never_limited_witness :
  snd (rateLimitRequests
         [ {| rq_sessionId := Some "a"; rq_ip := "10.0.0.1"; rq_now := 0 |};
           {| rq_sessionId := Some "b"; rq_ip := "10.0.0.1"; rq_now := 1 |};
           {| rq_sessionId := Some "c"; rq_ip := "10.0.0.1"; rq_now := 2 |} ] ∅)
  = [Next; Next; Next].
Proof.
  change [Next; Next; Next] with (repeat Next 3).
  apply (rateLimit_distinct_ids_never_limited
           [ {| rq_sessionId := Some "a"; rq_ip := "10.0.0.1"; rq_now := 0 |};
             {| rq_sessionId := Some "b"; rq_ip := "10.0.0.1"; rq_now := 1 |};
             {| rq_sessionId := Some "c"; rq_ip := "10.0.0.1"; rq_now := 2 |} ]
           ["a"; "b"; "c"] ∅).
  - reflexivity.
  - apply (bool_decide_unpack _). vm_compute. exact I.
  - repeat constructor.
Defined.

(** ** Requests the handler refuses *)

Lemma openSession_existing (clock : nat -> Z) (ttl : Z) (ext : Reasoning)
    (uid id : string) (w : World) :
  Str.truthy id = true ->
  openSession clock ttl ext uid (Some id) w =
  match getSession clock id w with
  | (Ok (Some session), w1) =>
      if String.eqb (userId session) uid then (Ok (id, session), w1)
      else (Throw (Error "會話不屬於此使用者"), w1)
  | (Ok None, w1) => (Throw (Error ("會話不存在或已過期: " ++ id)), w1)
  | (Throw e, w1) => (Throw e, w1)
  end.
Proof.
  intros Ht. unfold openSession, bind. rewrite Ht.
  destruct (getSession clock id w) as [[[s|]|e] w1]; try reflexivity.
  destruct (String.eqb (userId s) uid); reflexivity.
Qed.

Lemma handleChatRequest_open_fails (clock : nat -> Z) (ttl : Z) (ext : Reasoning)
    (uid message : string) (sid : option string) (w w1 : World) (e : Exn) :
  validRequest uid message ->
  openSession clock ttl ext uid sid w = (Throw e, w1) ->
  handleChatRequest clock ttl ext uid message sid w = (Throw e, w1).
Proof.
  intros (Hu & Hm & Hb) Ho. unfold handleChatRequest. rewrite Hu, Hm, Hb. simpl.
  unfold bind at 1. rewrite Ho. reflexivity.
Qed.

(** X10. Requests refused by the handler, as the route answers them; none
    of them runs the agent, creates a session or logs the message.
    A missing [userId], or a missing or blank [message], gives 400 and
    leaves the world as it is.  A [sessionId] that is not in the store, or
    whose session has expired (it is then deleted), gives 404 with the
    identifier in the error text, except that it gives 400 when the
    identifier itself contains the words of the missing-field error.  A
    live session of another user gives 403 and is left as stored, without
    extending its life. *)
Theorem postChat_refusals (clock : nat -> Z) (ttl : Z) (typeErrorText : string)
    (ext : Reasoning) (uid : string) (sid : option string) (message : string)
    (w : World) :
  (Str.truthy uid = false ->
   postChat clock ttl typeErrorText ext uid sid message w
   = (ReplyError 400 "缺少必填欄位：userId" None, w))
  /\ (Str.truthy uid = true ->
      Str.truthy message = false \/ Str.blank message = true ->
      postChat clock ttl typeErrorText ext uid sid message w
      = (ReplyError 400 "缺少必填欄位：message" None, w))
  /\ (forall id,
        validRequest uid message -> sid = Some id -> Str.truthy id = true ->
        let status := if Str.includes id "缺少必填欄位" then 400 else 404 in
        (sessions w !! id = None ->
         postChat clock ttl typeErrorText ext uid sid message w
         = (ReplyError status ("會話不存在或已過期: " ++ id) None, w))
        /\ (forall s, sessions w !! id = Some s -> expiresAt s < clock (ticks w) ->
              postChat clock ttl typeErrorText ext uid sid message w
              = (ReplyError status ("會話不存在或已過期: " ++ id) None,
                 withSessions (delete id (sessions w)) (tick w)))
        /\ (forall s, sessions w !! id = Some s -> clock (ticks w) <= expiresAt s ->
              userId s <> uid ->
              postChat clock ttl typeErrorText ext uid sid message w
              = (ReplyError 403 "會話不屬於此使用者" None, tick w))).
Proof.
  split; [ | split].
  - intros Hu. unfold postChat, handleChatRequest. rewrite Hu. reflexivity.
  - intros Hu Hm. unfold postChat, handleChatRequest. rewrite Hu. simpl.
    assert ((negb (Str.truthy message) || Str.blank message)%bool = true) as ->.
    { destruct Hm as [-> | ->]; [reflexivity | apply orb_true_r]. }
    reflexivity.
  - intros id Hvalid -> Hid status.
    assert (chatRoute typeErrorText (Throw (Error ("會話不存在或已過期: " ++ id)))
            = ReplyError status ("會話不存在或已過期: " ++ id) None) as Hroute.
    { unfold chatRoute, errorMessage. cbv zeta. subst status.
      assert (Str.includes ("會話不存在或已過期: " ++ id) "缺少必填欄位"
              = Str.includes id "缺少必填欄位") as -> by reflexivity.
      destruct (Str.includes id "缺少必填欄位"); [reflexivity | ].
      assert (Str.includes ("會話不存在或已過期: " ++ id) "不存在或已過期" = true)
        as -> by reflexivity.
      reflexivity. }
    split; [ | split].
    + intros Hn. unfold postChat.
      rewrite (handleChatRequest_open_fails clock ttl ext uid message (Some id) w w
                 (Error ("會話不存在或已過期: " ++ id)) Hvalid).
      * now rewrite Hroute.
      * rewrite (openSession_existing clock ttl ext uid id w Hid), getSession_eq, Hid, Hn.
        reflexivity.
    + intros s Hs Hlt. unfold postChat.
      rewrite (handleChatRequest_open_fails clock ttl ext uid message (Some id) w
                 (withSessions (delete id (sessions w)) (tick w))
                 (Error ("會話不存在或已過期: " ++ id)) Hvalid).
      * now rewrite Hroute.
      * rewrite (openSession_existing clock ttl ext uid id w Hid), getSession_eq, Hid, Hs.
        destruct (clock (ticks w) >? expiresAt s) eqn:Hc; [reflexivity | lia].
    + intros s Hs Hle Hne. unfold postChat.
      rewrite (handleChatRequest_open_fails clock ttl ext uid message (Some id) w
                 (tick w) (Error "會話不屬於此使用者") Hvalid).
      * reflexivity.
      * rewrite (openSession_existing clock ttl ext uid id w Hid), getSession_eq, Hid, Hs.
        destruct (clock (ticks w) >? expiresAt s) eqn:Hc; [lia | ].
        apply String.eqb_neq in Hne. rewrite Hne. reflexivity.
Qed.

Lemma postChat_refusals_witness :
  postChat Sample.ticking Sample.TTL "Cannot read properties of null" Sample.direct
    "u1" (Some "缺少必填欄位") "你好" Sample.emptyWorld
  = (ReplyError 400 "會話不存在或已過期: 缺少必填欄位" None, Sample.emptyWorld).
Proof.
  refine (proj1 (proj2 (proj2
    (postChat_refusals Sample.ticking Sample.TTL "Cannot read properties of null"
       Sample.direct "u1" (Some "缺少必填欄位") "你好" Sample.emptyWorld))
    "缺少必填欄位" _ eq_refl eq_refl) eq_refl).
  repeat split.
Defined.

(** ** A turn that fails before the agent runs *)

Lemma bind_ok {A B} (c : M A) (k : A -> M B) (w w1 : World) (a : A) :
  c w = (Ok a, w1) -> bind c k w = k a w1.
Proof. intros H. unfold bind. now rewrite H. Qed.

Lemma bind_throw {A B} (c : M A) (k : A -> M B) (w w1 : World) (e : Exn) :
  c w = (Throw e, w1) -> bind c k w = (Throw e, w1).
Proof. intros H. unfold bind. now rewrite H. Qed.

Lemma pushStored_eq (key : string) (m : Message) (w : World) (s : Session) :
  sessions w !! key = Some s ->
  pushStored key m w = (Ok tt, withSessions (<[key := pushed s m]> (sessions w)) w).
Proof.
  intros Hs. unfold pushStored, bind, getSessions, setSessions. now rewrite Hs.
Qed.

(** X11. When no agent exists yet and [createRoamingAgent] rejects, a valid
    request for a live session of its user throws; the user message has
    already been pushed to the stored log, which is the only change: the
    log is not truncated (it may now hold one entry more than 20), the
    life of the session is not extended, and no reply is logged. *)
Theorem agent_failure_leaves_message (clock : nat -> Z) (ttl : Z) (ext : Reasoning)
    (uid key message : string) (w : World) (s : Session) :
  validRequest uid message ->
  Str.truthy key = true ->
  sessions w !! key = Some s ->
  clock (ticks w) <= expiresAt s ->
  userId s = uid ->
  agentInstance w = false ->
  agentCreated ext = false ->
  exists e w',
    handleChatRequest clock ttl ext uid message (Some key) w = (Throw e, w')
    /\ sessions w'
       = <[key := pushed s {| role := user; content := message;
                              timestamp := clock (S (ticks w)) |}]> (sessions w)
    /\ (forall s', sessions w' !! key = Some s' ->
          List.length (messages s') = S (List.length (messages s))
          /\ expiresAt s' = expiresAt s /\ lastActivityAt s' = lastActivityAt s)
    /\ agentInstance w' = false.
Proof.
  intros (Hu & Hm & Hb) Hkey Hs Hle Huid Hai Hac.
  unfold handleChatRequest. rewrite Hu, Hm, Hb. cbn [negb orb].
  erewrite bind_ok.
  2:{ rewrite (openSession_existing clock ttl ext uid key w Hkey), getSession_eq,
        Hkey, Hs.
      destruct (clock (ticks w) >? expiresAt s) eqn:Hc; [lia | ].
      rewrite Huid, String.eqb_refl. reflexivity. }
  cbn [fst snd].
  erewrite bind_ok by reflexivity.
  erewrite bind_ok by (apply pushStored_eq; exact Hs).
  erewrite bind_throw.
  2:{ unfold getAgent. cbn [agentInstance withSessions tick]. rewrite Hai, Hac.
      reflexivity. }
  eexists. eexists. split; [reflexivity | ]. cbn [sessions withSessions tick].
  split; [reflexivity | ]. split; [ | reflexivity].
  intros s'. rewrite lookup_insert_eq. intros [= <-]. simpl.
  rewrite length_app. simpl. split; [lia | auto].
Qed.

Lemma agent_failure_leaves_message_witness :
  exists e w' s',
    handleChatRequest Sample.ticking Sample.TTL
      {| sdkSessionId := None; agentCreated := false; fromString := fun _ => true;
         resume := fun _ _ => Rejects; runMessage := fun _ => Rejects |}
      "u1" "你好" (Some "s1")
      {| sessions := {[ "s1" := Sample.sessionIn IntentDetection Sample.noIntent None [] ]};
         agentInstance := false; ticks := 0 |}
    = (Throw e, w')
    /\ sessions w' !! "s1" = Some s'
    /\ List.length (messages s') = 1%nat.
Proof.
  destruct (agent_failure_leaves_message Sample.ticking Sample.TTL
              {| sdkSessionId := None; agentCreated := false; fromString := fun _ => true;
                 resume := fun _ _ => Rejects; runMessage := fun _ => Rejects |}
              "u1" "s1" "你好"
              {| sessions := {[ "s1" := Sample.sessionIn IntentDetection Sample.noIntent None [] ]};
                 agentInstance := false; ticks := 0 |}
              (Sample.sessionIn IntentDetection Sample.noIntent None []))
    as (e & w' & H1 & H2 & H3 & _).
  - repeat split.
  - reflexivity.
  - reflexivity.
  - vm_compute. discriminate.
  - reflexivity.
  - reflexivity.
  - reflexivity.
  - exists e, w'. eexists. split; [exact H1 | ].
    assert (sessions w' !! "s1"
            = Some (pushed (Sample.sessionIn IntentDetection Sample.noIntent None [])
                      {| role := user; content := "你好";
                         timestamp := Sample.ticking 1 |})) as Hl.
    { rewrite H2. apply lookup_insert_eq. }
    split; [exact Hl | reflexivity].
Defined.

(** ** Invariants kept by whole turns *)

Lemma analyze_shapes (clock : nat -> Z) (response : string) (session : Session)
    (message : string) (w : World) :
  exists su w',
    analyzeAgentResponse clock response session message w = (Ok su, w')
    /\ sessions w' = sessions w
    /\ (forall iu, su_intent su = Some iu -> analysisIntent iu)
    /\ (forall p, su_phase su = Some p -> analysisTarget p).
Proof.
  unfold analyzeAgentResponse.
  assert (exists su w',
            (ret {| su_intent := None; su_phase := None |} : M StateUpdates) w
            = (Ok su, w')
            /\ sessions w' = sessions w
            /\ (forall iu, su_intent su = Some iu -> analysisIntent iu)
            /\ (forall p, su_phase su = Some p -> analysisTarget p)) as Hnone.
  { eexists. eexists. split; [reflexivity | ]. simpl.
    repeat split; intros; discriminate. }
  destruct (phase session); try exact Hnone.
  - destruct (detectCountry message response) as [c|]; [ | exact Hnone].
    destruct (Str.truthy c && negb (truthyOpt (destination (intent session))))%bool;
      [ | exact Hnone].
    eexists. eexists. split; [reflexivity | ]. simpl. split; [reflexivity | ].
    split.
    + intros iu [= <-]. left. eauto.
    + intros p [= <-]. now left.
  - destruct (isConfirmation message); [ | exact Hnone].
    eexists. eexists. split; [reflexivity | ]. simpl. split; [reflexivity | ].
    split.
    + intros iu [= <-]. right. eauto.
    + intros p [= <-]. now right.
Qed.

Section KeyedInvariants.

Variable clock : nat -> Z.
Variable ttl : Z.

(** A property of a session at its key, kept by what a turn can do. *)
Variable I : string -> Session -> Prop.
Hypothesis I_pending : forall k s st calls a b,
  I k s -> I k (updatedWith ttl s (pendingUpdate st calls) a b).
Hypothesis I_messages : forall k s l a b,
  I k s -> I k (updatedWith ttl s (messagesUpdate l) a b).
Hypothesis I_intent : forall k s iu a b,
  analysisIntent iu -> I k s ->
  I k (updatedWith ttl s (intentUpdate (mergeIntent (intent s) iu)) a b).
Hypothesis I_phase : forall k s p target a b,
  analysisTarget target ->
  findPhase (validTransitions (phase s)) target = Some p ->
  I k s -> I k (updatedWith ttl s (phaseUpdate p) a b).
Hypothesis I_push : forall k s m, I k s -> I k (pushed s m).
Hypothesis I_fresh : forall id uid a b c, I id (freshSession ttl id uid a b c).

Let inv : World -> Prop := storeInvK I.
Let invE : Exn -> World -> Prop := fun _ => storeInvK I.

Lemma invK_insert (w w' : World) (k : string) (s : Session) :
  sessions w' = <[k := s]> (sessions w) -> I k s -> inv w -> inv w'.
Proof.
  unfold inv, storeInvK. intros -> Hs Hw k' s'.
  destruct (decide (k = k')) as [-> | Hne].
  - rewrite lookup_insert_eq. intros [= <-]. exact Hs.
  - rewrite lookup_insert_ne by exact Hne. apply Hw.
Qed.

Lemma invK_delete (w w' : World) (k : string) :
  sessions w' = delete k (sessions w) -> inv w -> inv w'.
Proof.
  unfold inv, storeInvK. intros -> Hw k' s'.
  destruct (decide (k = k')) as [-> | Hne].
  - rewrite lookup_delete_eq. discriminate.
  - rewrite lookup_delete_ne by exact Hne. apply Hw.
Qed.

Lemma getSession_invK (sid : string) :
  hoare inv (getSession clock sid)
        (fun o w => inv w /\ forall s, o = Some s -> sessions w !! sid = Some s) invE.
Proof.
  intros w Hw.
  destruct (getSession_cases clock sid w)
    as [(s & Hs & _ & _ & ->) | [[-> _] | (s & Hs & _ & _ & ->)]].
  - split; [exact Hw | ]. intros s' [= <-]. exact Hs.
  - split; [exact Hw | discriminate].
  - split; [ | discriminate]. eapply invK_delete; [ | exact Hw]. reflexivity.
Qed.

(** An update of the session stored under [sid], by an update that keeps
    [I] for that session. *)
Lemma updateSession_invK (sid : string) (u : Updates) :
  hoare (fun w => inv w /\ forall s a b, sessions w !! sid = Some s ->
                                         I sid (updatedWith ttl s u a b))
        (updateSession clock ttl sid u)
        (fun o w => inv w /\ forall s, o = Some s -> I sid s) invE.
Proof.
  intros w [Hw Hu]. rewrite updateSession_eq.
  destruct (getSession_cases clock sid w)
    as [(s & Hs & _ & _ & ->) | [[-> _] | (s & Hs & _ & _ & ->)]].
  - cbv zeta. split.
    + eapply invK_insert; [reflexivity | apply Hu; exact Hs | exact Hw].
    + intros s' [= <-]. now apply Hu.
  - split; [exact Hw | discriminate].
  - split; [ | discriminate]. eapply invK_delete; [ | exact Hw]. reflexivity.
Qed.

Lemma updateSession_invK_simple (sid : string) (u : Updates) :
  (forall k s a b, I k s -> I k (updatedWith ttl s u a b)) ->
  hoare inv (updateSession clock ttl sid u) (fun _ => inv) invE.
Proof.
  intros Hu. eapply hoare_weaken; [apply (updateSession_invK sid u) | | | ].
  - intros w Hw. split; [exact Hw | ]. intros s a b Hs. apply Hu. exact (Hw _ _ Hs).
  - intros o w [Hw _]. exact Hw.
  - auto.
Qed.

Lemma updateIntent_invK (sid : string) (iu : IntentUpdates) :
  analysisIntent iu ->
  hoare inv (updateIntent clock ttl sid iu) (fun _ => inv) invE.
Proof.
  intros Hiu w Hw. unfold updateIntent, bind.
  pose proof (getSession_invK sid w Hw) as Hg.
  destruct (getSession clock sid w) as [[[s|]|e] w1]; try tauto.
  destruct Hg as [Hw1 Hs]. specialize (Hs s eq_refl). cbv zeta.
  pose proof (updateSession_invK sid (intentUpdate (mergeIntent (intent s) iu)) w1) as H.
  specialize (H ltac:(split; [exact Hw1 | ];
                      intros s0 a b Hs0; rewrite Hs in Hs0; injection Hs0 as <-;
                      apply I_intent; [exact Hiu | exact (Hw1 _ _ Hs)])).
  destruct (updateSession clock ttl sid _ w1) as [[o|e] w2]; tauto.
Qed.

Lemma transitionPhase_invK (sid target : string) :
  analysisTarget target ->
  hoare inv (transitionPhase clock ttl sid target) (fun _ => inv) invE.
Proof.
  intros Ht w Hw. unfold transitionPhase, bind.
  pose proof (getSession_invK sid w Hw) as Hg.
  destruct (getSession clock sid w) as [[[s|]|e] w1]; try tauto.
  destruct Hg as [Hw1 Hs]. specialize (Hs s eq_refl). cbv zeta.
  destruct (findPhase (validTransitions (phase s)) target) as [p|] eqn:Hf;
    [ | exact Hw1].
  pose proof (updateSession_invK sid (phaseUpdate p) w1) as H.
  specialize (H ltac:(split; [exact Hw1 | ];
                      intros s0 a b Hs0; rewrite Hs in Hs0; injection Hs0 as <-;
                      apply (I_phase sid s p target); [exact Ht | exact Hf
                                                      | exact (Hw1 _ _ Hs)])).
  destruct (updateSession clock ttl sid _ w1) as [[o|e] w2]; tauto.
Qed.

Lemma createSession_invK (sdkId uid : string) :
  hoare inv (createSession clock ttl sdkId uid) (fun _ => inv) invE.
Proof.
  intros w Hw. rewrite createSession_eq.
  eapply invK_insert; [ | apply I_fresh | exact Hw]. reflexivity.
Qed.

Lemma pushStored_invK (key : string) (m : Message) :
  hoare inv (pushStored key m) (fun _ => inv) invE.
Proof.
  intros w Hw. unfold pushStored, bind, getSessions, setSessions, ret.
  destruct (sessions w !! key) as [s|] eqn:Hs; [ | exact Hw].
  eapply invK_insert; [ | apply I_push; exact (Hw _ _ Hs) | exact Hw]. reflexivity.
Qed.

Lemma getAgent_invK (ext : Reasoning) :
  hoare inv (getAgent ext) (fun _ => inv) invE.
Proof.
  intros w Hw. unfold getAgent.
  destruct (agentInstance w); [exact Hw | ].
  destruct (agentCreated ext); exact Hw.
Qed.

Lemma cleanupExpiredSessions_invK :
  hoare inv (cleanupExpiredSessions clock) (fun _ => inv) invE.
Proof.
  intros w Hw. rewrite cleanupExpiredSessions_eq. intros k s Hk. simpl in Hk.
  apply map_lookup_filter_Some in Hk as [Hk _]. exact (Hw _ _ Hk).
Qed.

Lemma openSession_invK (ext : Reasoning) (uid : string) (sid : option string) :
  hoare inv (openSession clock ttl ext uid sid) (fun _ => inv) invE.
Proof.
  assert (hoare inv
            (match sdkSessionId ext with
             | None => throw (Error "getSessionId")
             | Some id =>
                 let! newSessionId := createSession clock ttl id uid in
                 let! o := getSession clock newSessionId in
                 match o with
                 | None => now clock ;; throw TypeError
                 | Some session => ret (newSessionId, session)
                 end
             end)
            (fun _ => inv) invE) as Hnew.
  { destruct (sdkSessionId ext) as [id|]; [ | intros w Hw; exact Hw].
    eapply hoare_bind; [apply createSession_invK | ]. intros newId.
    eapply hoare_bind; [apply getSession_invK | ].
    intros [s|] w [Hw Hs]; exact Hw. }
  unfold openSession. destruct sid as [s|]; [ | exact Hnew].
  destruct (Str.truthy s); [ | exact Hnew].
  eapply hoare_bind; [apply getSession_invK | ].
  intros [session|] w [Hw Hs]; simpl; [ | exact Hw].
  destruct (String.eqb (userId session) uid); exact Hw.
Qed.

Lemma agentStep_invK (ext : Reasoning) (session : Session) (message : string) :
  hoare inv (agentStep clock ttl ext session message) (fun _ => inv) invE.
Proof.
  unfold agentStep.
  destruct (truthyOpt (pendingRunState session)).
  - destruct (isApproval message); [ | intros w Hw; exact Hw].
    destruct (fromString ext _); [ | intros w Hw; exact Hw].
    eapply hoare_bind;
      [apply updateSession_invK_simple; intros; now apply I_pending | ].
    intros ? w Hw. destruct (resume ext _ _); exact Hw.
  - destruct (runMessage ext message) as [ | out ints st rerun];
      [intros w Hw; exact Hw | ].
    destruct ints as [ | i ints]; [intros w Hw; exact Hw | ].
    destruct (isApproval message).
    + destruct (approveAll _); intros w Hw; exact Hw.
    + eapply hoare_bind;
        [apply updateSession_invK_simple; intros; now apply I_pending | ].
      intros ? w Hw. exact Hw.
Qed.

Lemma analyze_invK (response : string) (session : Session) (message : string) :
  hoare inv (analyzeAgentResponse clock response session message)
        (fun su w => ((forall iu, su_intent su = Some iu -> analysisIntent iu)
                      /\ (forall p, su_phase su = Some p -> analysisTarget p))
                     /\ inv w) invE.
Proof.
  intros w Hw.
  destruct (analyze_shapes clock response session message w)
    as (su & w1 & -> & Hsess & Hiu & Hp).
  split; [split; assumption | ].
  intros k s Hk. rewrite Hsess in Hk. exact (Hw _ _ Hk).
Qed.

Lemma finishTurn_invK (session : Session) (message : string) (userMessage : Message)
    (response : string) :
  hoare inv (finishTurn clock ttl session message userMessage response)
        (fun r w => inv w /\ exists s, I (sessionId session) s
                                       /\ r = buildResponse s response) invE.
Proof.
  unfold finishTurn.
  eapply hoare_bind; [apply analyze_invK | ]. intros su.
  apply hoare_pure. intros [Hiu Hp].
  eapply hoare_bind with (Q := fun _ => inv).
  { destruct (su_intent su) as [iu|]; [ | intros w Hw; exact Hw].
    eapply hoare_bind; [apply updateIntent_invK; now apply Hiu | ].
    intros ? w Hw. exact Hw. }
  intros ?.
  eapply hoare_bind with (Q := fun _ => inv).
  { destruct (su_phase su) as [p|]; [ | intros w Hw; exact Hw].
    eapply hoare_bind; [apply transitionPhase_invK; now apply Hp | ].
    intros ? w Hw. exact Hw. }
  intros ?.
  eapply hoare_bind with (Q := fun _ => inv); [intros w Hw; exact Hw | ].
  intros t2. cbv zeta.
  eapply hoare_bind.
  { eapply hoare_weaken; [apply updateSession_invK | | | ].
    - intros w Hw. split; [exact Hw | ]. intros s x y Hs.
      apply I_messages. exact (Hw _ _ Hs).
    - intros o w H. exact H.
    - auto. }
  intros [s|] w [Hw Hs]; simpl; [ | exact Hw].
  split; [exact Hw | ]. exists s. split; [now apply Hs | reflexivity].
Qed.

Lemma handleChatRequest_invK (ext : Reasoning) (uid message : string)
    (sid : option string) :
  hoare inv (handleChatRequest clock ttl ext uid message sid)
        (fun r w => inv w /\ exists k s response, I k s
                                                  /\ r = buildResponse s response)
        invE.
Proof.
  unfold handleChatRequest.
  destruct (negb (Str.truthy uid)); [intros w Hw; exact Hw | ].
  destruct (negb (Str.truthy message) || Str.blank message)%bool;
    [intros w Hw; exact Hw | ].
  eapply hoare_bind; [apply openSession_invK | ]. intros [key session]. simpl.
  eapply hoare_bind with (Q := fun _ => inv); [intros w Hw; exact Hw | ].
  intros t1.
  eapply hoare_bind; [apply pushStored_invK | ]. intros ?.
  eapply hoare_bind; [apply getAgent_invK | ]. intros ?.
  eapply hoare_bind with (Q := fun _ => inv).
  { eapply hoare_tryCatch; [apply agentStep_invK | ]. intros e w Hw. exact Hw. }
  intros response.
  eapply hoare_weaken; [apply finishTurn_invK | | | ]; simpl; auto.
  intros r w [Hw (s & Hs & ->)]. split; [exact Hw | eauto].
Qed.

(** Every reachable world keeps the invariant. *)
Lemma reachable_invK (w : World) : reachable clock ttl w -> inv w.
Proof.
  intros Hreach.
  induction Hreach as [n | w ext uid message sid _ IH | w _ IH | w _ IH
                       | w sid _ IH | w _ IH].
  - intros k s Hk. simpl in Hk. rewrite lookup_empty in Hk. discriminate.
  - pose proof (handleChatRequest_invK ext uid message sid w IH) as H.
    destruct (handleChatRequest clock ttl ext uid message sid w) as [[r|e] w'];
      simpl; tauto.
  - pose proof (cleanupExpiredSessions_invK w IH) as H.
    destruct (cleanupExpiredSessions clock w) as [[r|e] w']; exact H.
  - unfold getActiveSessionCount, bind.
    pose proof (cleanupExpiredSessions_invK w IH) as H.
    destruct (cleanupExpiredSessions clock w) as [[r|e] w']; exact H.
  - pose proof (getSession_invK sid w IH) as H.
    destruct (getSession clock sid w) as [[r|e] w']; simpl; tauto.
  - exact IH.
Qed.

End KeyedInvariants.

Lemma healthy_intent (ttl : Z) (k : string) (s : Session) (iu : IntentUpdates) (a b : Z) :
  analysisIntent iu -> healthy k s ->
  healthy k (updatedWith ttl s (intentUpdate (mergeIntent (intent s) iu)) a b).
Proof.
  intros [(c & t & ->) | (t & ->)] (Hk & Hp & Hc); repeat split; auto.
Qed.

Lemma healthy_phase (ttl : Z) (k : string) (s : Session) (p : Phase) (target : string)
    (a b : Z) :
  analysisTarget target ->
  findPhase (validTransitions (phase s)) target = Some p ->
  healthy k s -> healthy k (updatedWith ttl s (phaseUpdate p) a b).
Proof.
  intros Ht Hf (Hk & Hp & Hc).
  assert (p = Confirmation) as ->.
  { destruct Ht as [-> | ->], Hp as [Hp | Hp]; rewrite Hp in Hf;
      vm_compute in Hf; congruence. }
  repeat split; auto.
Qed.

Lemma reachable_healthy (clock : nat -> Z) (ttl : Z) (w : World) :
  reachable clock ttl w -> storeInvK healthy w.
Proof.
  apply (reachable_invK clock ttl healthy).
  - intros k s st calls a b H. exact H.
  - intros k s l a b H. exact H.
  - intros k s iu a b. apply healthy_intent.
  - intros k s p target a b. apply healthy_phase.
  - intros k s m H. exact H.
  - intros id uid a b c. repeat split. now left.
Qed.

Lemma turn_healthy (clock : nat -> Z) (ttl : Z) (w : World) (ext : Reasoning)
    (uid message : string) (sid : option string) (r : Response) (w' : World) :
  reachable clock ttl w ->
  handleChatRequest clock ttl ext uid message sid w = (Ok r, w') ->
  exists k s response, healthy k s /\ r = buildResponse s response.
Proof.
  intros Hreach Hrun.
  pose proof (handleChatRequest_invK clock ttl healthy
                ltac:(intros k s st calls a b H; exact H)
                ltac:(intros k s l a b H; exact H)
                (healthy_intent ttl) (healthy_phase ttl)
                ltac:(intros k s m H; exact H)
                ltac:(intros id x a b c; repeat split; now left)
                ext uid message sid w (reachable_healthy clock ttl w Hreach)) as H.
  rewrite Hrun in H. tauto.
Qed.

(** X12. In every world reached by the operations of the core, every
    session is stored under its own [sessionId]; and after a turn that
    returns a response, the [sessionId] of the response names a stored
    session, whose phase is the one the response reports. *)
Theorem sessions_stored_under_own_id (clock : nat -> Z) (ttl : Z) (w : World) :
  reachable clock ttl w ->
  (forall k s, sessions w !! k = Some s -> sessionId s = k)
  /\ (forall ext uid message sid r w',
        handleChatRequest clock ttl ext uid message sid w = (Ok r, w') ->
        exists s, sessions w' !! r_sessionId r = Some s
                  /\ r_phase r = phaseName (phase s)).
Proof.
  intros Hreach. split.
  - intros k s Hs. exact (proj1 (reachable_healthy clock ttl w Hreach k s Hs)).
  - intros ext uid message sid r w' Hrun.
    assert (storeInvK healthy w') as Hw'.
    { apply (reachable_healthy clock ttl).
      replace w' with (snd (handleChatRequest clock ttl ext uid message sid w))
        by now rewrite Hrun.
      now apply reach_turn. }
    revert Hrun. unfold handleChatRequest.
    destruct (negb (Str.truthy uid)); [discriminate | ].
    destruct (negb (Str.truthy message) || Str.blank message)%bool; [discriminate | ].
    unfold bind at 1.
    destruct (openSession clock ttl ext uid sid w) as [[[key session]|e] w1];
      [ | discriminate].
    cbn [fst snd]. unfold bind at 1.
    destruct (now clock w1) as [[t1|e] w2]; [ | discriminate].
    unfold bind at 1.
    destruct (pushStored key _ w2) as [[?|e] w3]; [ | discriminate].
    unfold bind at 1.
    destruct (getAgent ext w3) as [[?|e] w4]; [ | discriminate].
    unfold bind at 1.
    destruct (tryCatch _ _ w4) as [[response|e] w5]; [ | discriminate].
    unfold finishTurn.
    unfold bind at 1.
    destruct (analyzeAgentResponse clock response session message w5)
      as [[su|e] w6]; [ | discriminate].
    unfold bind at 1.
    destruct ((match su_intent su with
               | Some iu => updateIntent clock ttl (sessionId session) iu ;; ret tt
               | None => ret tt
               end) w6) as [[?|e] w7]; [ | discriminate].
    unfold bind at 1.
    destruct ((match su_phase su with
               | Some p => transitionPhase clock ttl (sessionId session) p ;; ret tt
               | None => ret tt
               end) w7) as [[?|e] w8]; [ | discriminate].
    unfold bind at 1.
    destruct (now clock w8) as [[t2|e] w9]; [ | discriminate].
    cbv zeta. unfold bind at 1.
    destruct (updateSession clock ttl (sessionId session) _ w9) as [[[s|]|e] w10] eqn:Hu;
      try discriminate.
    intros [= <- <-].
    apply updateSession_Some in Hu as (s0 & Hs0 & _ & _ & Hs & ->).
    exists s. split; [ | reflexivity].
    assert (sessions (withSessions (<[sessionId session := s]> (sessions w9))
                        (tick (tick (tick w9)))) !! sessionId session = Some s) as Hl
      by apply lookup_insert_eq.
    cbn [buildResponse r_sessionId].
    rewrite (proj1 (Hw' _ _ Hl)). exact Hl.
Qed.

Lemma sessions_stored_under_own_id_witness :
  storeInvK (fun k s => sessionId s = k)
    (snd (handleChatRequest Sample.ticking Sample.TTL Sample.helpful "u1"
            "我下週要去日本" None Sample.emptyWorld)).
Proof.
  unfold storeInvK.
  refine (proj1 (sessions_stored_under_own_id Sample.ticking Sample.TTL _ _)).
  apply reach_turn. apply (reach_init _ _ 0).
Defined.

(** X13. The phases approval, data-collection and recommendation are never
    reached: in every world reached by the operations of the core every
    session is in phase intent-detection or confirmation, and every
    response reports one of these two phases. *)
Theorem later_phases_unreachable (clock : nat -> Z) (ttl : Z) (w : World) :
  reachable clock ttl w ->
  (forall k s, sessions w !! k = Some s ->
               phase s = IntentDetection \/ phase s = Confirmation)
  /\ (forall ext uid message sid r w',
        handleChatRequest clock ttl ext uid message sid w = (Ok r, w') ->
        r_phase r = "intent-detection" \/ r_phase r = "confirmation").
Proof.
  intros Hreach. split.
  - intros k s Hs.
    exact (proj1 (proj2 (reachable_healthy clock ttl w Hreach k s Hs))).
  - intros ext uid message sid r w' Hrun.
    destruct (turn_healthy clock ttl w ext uid message sid r w' Hreach Hrun)
      as (k & s & response & (_ & Hp & _) & ->).
    simpl. destruct Hp as [-> | ->]; auto.
Qed.

Lemma later_phases_unreachable_witness :
  storeInvK (fun _ s => phase s = IntentDetection \/ phase s = Confirmation)
    (snd (handleChatRequest Sample.ticking Sample.TTL Sample.direct "u1" "好"
            (Some "s1")
            (snd (handleChatRequest Sample.ticking Sample.TTL Sample.direct "u1"
                    "我下週要去日本" None Sample.emptyWorld)))).
Proof.
  unfold storeInvK.
  refine (proj1 (later_phases_unreachable Sample.ticking Sample.TTL _ _)).
  apply reach_turn. apply reach_turn. apply (reach_init _ _ 0).
Defined.

(** X14. Confirmation and approval are one signal: in every world reached
    by the operations of the core, [intent.confirmed] and
    [intent.userApproved] of every session are equal, and so are they in
    the intent that a response carries. *)
Theorem confirmed_iff_approved (clock : nat -> Z) (ttl : Z) (w : World) :
  reachable clock ttl w ->
  (forall k s, sessions w !! k = Some s ->
               confirmed (intent s) = userApproved (intent s))
  /\ (forall ext uid message sid r w' i,
        handleChatRequest clock ttl ext uid message sid w = (Ok r, w') ->
        d_intent (r_data r) = Some i ->
        confirmed i = userApproved i).
Proof.
  intros Hreach. split.
  - intros k s Hs.
    exact (proj2 (proj2 (reachable_healthy clock ttl w Hreach k s Hs))).
  - intros ext uid message sid r w' i Hrun Hi.
    destruct (turn_healthy clock ttl w ext uid message sid r w' Hreach Hrun)
      as (k & s & response & (_ & _ & Hc) & ->).
    simpl in Hi. destruct (truthyOpt (destination (intent s))); [ | discriminate].
    injection Hi as <-. exact Hc.
Qed.

Lemma confirmed_iff_approved_witness :
  storeInvK (fun _ s => confirmed (intent s) = userApproved (intent s))
    (snd (handleChatRequest Sample.ticking Sample.TTL Sample.direct "u1" "好"
            (Some "s1")
            (snd (handleChatRequest Sample.ticking Sample.TTL Sample.direct "u1"
                    "我下週要去日本" None Sample.emptyWorld)))).
Proof.
  unfold storeInvK.
  refine (proj1 (confirmed_iff_approved Sample.ticking Sample.TTL _ _)).
  apply reach_turn. apply reach_turn. apply (reach_init _ _ 0).
Defined.

(** ** The message log of a turn *)

Lemma truncated_log (ttl : Z) (s : Session) (l : list Message) (a b : Z) :
  messages (updatedWith ttl s (messagesUpdate l) a b) = sliceLast MAX_MESSAGES l.
Proof.
  simpl. destruct (Nat.ltb MAX_MESSAGES (List.length l)) eqn:H; [reflexivity | ].
  apply Nat.ltb_ge in H. unfold sliceLast.
  replace (List.length l - MAX_MESSAGES)%nat with 0%nat by lia. reflexivity.
Qed.

Section TurnLog.

Variable clock : nat -> Z.
Variable ttl : Z.
Variables lo hi : nat.
Variable key : string.
Variable ag : bool.
Hypothesis Hcalm : calm clock ttl lo hi.
Hypothesis Hkey : Str.truthy key = true.

Let E0 : Exn -> World -> Prop := fun _ _ => False.
Let live := liveAt clock lo hi key ag.

Lemma log_finishTurn (uid : string) (n : nat) (session : Session)
    (message : string) (userMessage : Message) (response : string) :
  (lo + n + 13 <= hi)%nat ->
  sessionId session = key ->
  hoare (live (ownedBy key uid) n)
        (finishTurn clock ttl session message userMessage response)
        (fun r w' =>
           exists t2 s',
             let l := sliceLast MAX_MESSAGES
                        (messages session
                           ++ [userMessage; assistantMessageAt response t2])%list in
             r = buildResponse s' response
             /\ logIs key uid l s'
             /\ live (logIs key uid l) (n + 13) w') E0.
Proof.
  intros Hn Hsid. unfold finishTurn. rewrite Hsid.
  assert (forall s u a b, ownedBy key uid s -> ownedBy key uid (updatedWith ttl s u a b))
    as Hstable by (intros s u a b H; exact H).
  eapply hoare_bind; [apply (live_analyze clock lo hi key ag) | ]. intros su.
  eapply hoare_bind with (Q := fun _ => live (ownedBy key uid) (n + 5)).
  { destruct (su_intent su) as [iu|].
    - eapply hoare_bind;
        [apply (live_updateIntent clock ttl lo hi key ag Hcalm Hkey
                  (ownedBy key uid) (ownedBy key uid)); [lia | ] | ].
      + intros s x y Hs. now apply Hstable.
      + intros o w (s' & _ & _ & Hl). simpl.
        eapply liveAt_weaken; [ | | exact Hl]; [lia | auto].
    - intros w Hl. simpl. eapply liveAt_weaken; [ | | exact Hl]; [lia | auto]. }
  intros ?.
  eapply hoare_bind with (Q := fun _ => live (ownedBy key uid) (n + 9)).
  { destruct (su_phase su) as [p|].
    - eapply hoare_bind;
        [apply (live_transition clock ttl lo hi key ag Hcalm Hkey (ownedBy key uid));
         [lia | ] | ].
      + intros s q x y Hs. now apply Hstable.
      + intros o w Hl. simpl.
        eapply liveAt_weaken; [ | | exact Hl]; [lia | auto].
    - intros w Hl. simpl. eapply liveAt_weaken; [ | | exact Hl]; [lia | auto]. }
  intros ?.
  eapply hoare_bind; [apply (live_now clock lo hi key ag) | ]. intros t2. cbv zeta.
  eapply hoare_bind;
    [apply (live_updateSession clock ttl lo hi key ag Hcalm Hkey (ownedBy key uid)
              (logIs key uid
                 (sliceLast MAX_MESSAGES
                    (messages session
                       ++ [userMessage;
                           {| role := assistant; content := response;
                              timestamp := t2 |}])%list))); [lia | ] | ].
  { intros s x y Hs. split; [now apply Hstable | apply truncated_log]. }
  intros o w (s' & -> & Hs' & Hl). simpl.
  exists t2, s'. split; [reflexivity | ]. split; [exact Hs' | ].
  eapply liveAt_weaken; [ | | exact Hl]; [lia | auto].
Qed.

Lemma log_handle (ext : Reasoning) (uid message : string) (l : list Message) :
  validRequest uid message ->
  agentCreated ext = ag ->
  (lo + 18 <= hi)%nat ->
  hoare (live (logIs key uid l) 0) (handleChatRequest clock ttl ext uid message (Some key))
        (fun r w' =>
           exists t1 t2 s',
             let l' := sliceLast MAX_MESSAGES
                         (l ++ [userMessageAt message t1;
                                assistantMessageAt (r_response r) t2])%list in
             r_sessionId r = key
             /\ r_phase r = phaseName (phase s')
             /\ live (logIs key uid l') 18 w') E0.
Proof.
  intros (Hu & Hm & Hb) Hext Hn.
  unfold handleChatRequest. rewrite Hu, Hm, Hb. simpl.
  eapply hoare_bind;
    [apply (live_openSession clock ttl lo hi key ag Hkey (logIs key uid l) 0);
     [lia | intros s Hs; exact (proj2 (proj1 Hs))] | ].
  intros [k s] w0 (Hk & Hphi & Hl0). simpl in Hk, Hphi. subst k.
  revert w0 Hl0. change (hoare (live (logIs key uid l) 1)
    (let! t1 := now clock in
     let userMessage := {| role := user; content := message; timestamp := t1 |} in
     pushStored key userMessage ;;
     getAgent ext ;;
     let! assistantResponse :=
       tryCatch (agentStep clock ttl ext s message) (fun _ => ret errorResponse) in
     finishTurn clock ttl s message userMessage assistantResponse)
    (fun r w' =>
       exists t1 t2 s',
         r_sessionId r = key
         /\ r_phase r = phaseName (phase s')
         /\ live (logIs key uid
                    (sliceLast MAX_MESSAGES
                       (l ++ [userMessageAt message t1;
                              assistantMessageAt (r_response r) t2])%list)) 18 w') E0).
  destruct Hphi as [[Hsid Huid] Hlog].
  eapply hoare_bind; [apply (live_now clock lo hi key ag) | ]. intros t1. cbv zeta.
  eapply hoare_bind;
    [apply (live_pushStored clock lo hi key ag (logIs key uid l) (ownedBy key uid));
     intros x Hx; exact (proj1 Hx) | ].
  intros ?.
  eapply hoare_bind; [apply (live_getAgent clock lo hi key ag); exact Hext | ]. intros ?.
  eapply hoare_bind;
    [apply (live_agentStep clock ttl lo hi key ag Hcalm Hkey (ownedBy key uid) 2 ext s
              message); [lia | exact Hsid | intros x st calls y z Hx; exact Hx] | ].
  intros response.
  eapply hoare_weaken;
    [apply (log_finishTurn uid 5 s message _ response); [lia | exact Hsid] | | | ];
    simpl; auto.
  intros r w2 (t2 & s' & -> & Hs' & Hl2).
  exists t1, t2, s'. rewrite Hlog in Hl2. split; [exact (proj1 (proj1 Hs')) | ].
  split; [reflexivity | exact Hl2].
Qed.

End TurnLog.

(** X15. A turn on a live session that does not enter the
    approve-and-run-again loop (a loop that the handler does not bound)
    returns a response, whether the runs of the reasoning layer resolve or
    reject.  Let the session stored under [key] carry this very id, belong
    to the user and an agent exist or be creatable; let less than a TTL
    pass between the clock reads of the turn (at most 18) and the session
    not expire before the last of them.  Then the turn returns a response
    for session [key], and the log stored afterwards is the log stored
    before, followed by the user's message and the reply of the response,
    cut to its last 20 entries. *)
Theorem turn_appends_to_log (clock : nat -> Z) (ttl : Z) (key uid message : string)
    (ext : Reasoning) (w : World) (s0 : Session) :
  sessions w !! key = Some s0 ->
  Str.truthy key = true ->
  sessionId s0 = key ->
  userId s0 = uid ->
  validRequest uid message ->
  agentInstance w = true \/ agentCreated ext = true ->
  entersLoop ext (pendingRunState s0) message = false ->
  calm clock ttl (ticks w) (ticks w + 18) ->
  alive clock (ticks w) (ticks w + 18) s0 ->
  exists r w' s' t1 t2,
    handleChatRequest clock ttl ext uid message (Some key) w = (Ok r, w')
    /\ r_sessionId r = key
    /\ sessions w' !! key = Some s'
    /\ messages s' =
       sliceLast MAX_MESSAGES
         (messages s0 ++ [userMessageAt message t1;
                          assistantMessageAt (r_response r) t2])%list
    /\ (ticks w' <= ticks w + 18)%nat.
Proof.
  intros Hs Hkey Hsid Huid Hvalid Hag _ Hcalm Halive.
  assert (liveAt clock (ticks w) (ticks w + 18) key (agentCreated ext)
            (logIs key uid (messages s0)) 0 w) as Hlive.
  { apply liveAt_intro with (s := s0);
      [exact Hs | repeat split; assumption | tauto | exact Halive]. }
  pose proof (log_handle clock ttl (ticks w) (ticks w + 18) key (agentCreated ext)
                Hcalm Hkey ext uid message (messages s0) Hvalid eq_refl ltac:(lia) w
                Hlive) as H.
  destruct (handleChatRequest clock ttl ext uid message (Some key) w) as [[r|e] w'].
  - destruct H as (t1 & t2 & s' & Hr & _ & Ht & _ & s'' & Hs'' & (_ & Hlog) & _).
    exists r, w', s'', t1, t2. repeat split; auto. lia.
  - destruct H.
Qed.

Lemma turn_appends_to_log_witness :
  exists r w' s' t1 t2,
    handleChatRequest Sample.ticking Sample.TTL Sample.helpful "u1" "我下週去日本玩"
      (Some "s1") (Sample.worldOf (Sample.sessionIn IntentDetection Sample.noIntent None []))
    = (Ok r, w')
    /\ r_sessionId r = "s1"
    /\ sessions w' !! "s1" = Some s'
    /\ messages s' =
       sliceLast MAX_MESSAGES
         ([] ++ [userMessageAt "我下週去日本玩" t1;
                 assistantMessageAt (r_response r) t2])%list
    /\ (ticks w' <= 0 + 18)%nat.
Proof.
  apply (turn_appends_to_log Sample.ticking Sample.TTL "s1" "u1" "我下週去日本玩"
           Sample.helpful
           (Sample.worldOf (Sample.sessionIn IntentDetection Sample.noIntent None []))
           (Sample.sessionIn IntentDetection Sample.noIntent None [])).
  - reflexivity.
  - reflexivity.
  - reflexivity.
  - reflexivity.
  - repeat split; reflexivity.
  - left. reflexivity.
  - reflexivity.
  - intros i j Hi Hj. unfold Sample.ticking, Sample.TTL. simpl in Hi, Hj. lia.
  - intros j Hj. unfold Sample.ticking. simpl in *. unfold Sample.TTL. lia.
Defined.

(** ** The first turn of a session *)

Lemma openSession_new (clock : nat -> Z) (ttl : Z) (ext : Reasoning)
    (uid id : string) (sid : option string) (w : World) :
  (forall s, sid = Some s -> Str.truthy s = false) ->
  sdkSessionId ext = Some id ->
  Str.truthy id = true ->
  clock (S (S (S (ticks w)))) <= clock (S (S (ticks w))) + ttl ->
  let w1 := snd (createSession clock ttl id uid w) in
  openSession clock ttl ext uid sid w = openSession clock ttl ext uid (Some id) w1.
Proof.
  intros Hsid Hext Hid Hclock w1.
  assert (getSession clock id w1
          = (Ok (Some (freshSession ttl id uid (clock (ticks w)) (clock (S (ticks w)))
                         (clock (S (S (ticks w)))))), tick w1)) as Hget.
  { rewrite getSession_eq, Hid. unfold w1. rewrite createSession_eq. simpl.
    rewrite lookup_insert_eq. simpl.
    destruct (clock (S (S (S (ticks w)))) >? clock (S (S (ticks w))) + ttl) eqn:Hc;
      [lia | reflexivity]. }
  rewrite (openSession_existing clock ttl ext uid id w1 Hid), Hget.
  cbn [userId freshSession]. rewrite String.eqb_refl.
  assert (openSession clock ttl ext uid sid w
          = (let! newSessionId := createSession clock ttl id uid in
             let! o := getSession clock newSessionId in
             match o with
             | None => now clock ;; throw TypeError
             | Some session => ret (newSessionId, session)
             end) w) as ->.
  { unfold openSession. destruct sid as [s|].
    - rewrite (Hsid s eq_refl), Hext. reflexivity.
    - rewrite Hext. reflexivity. }
  unfold bind at 1. rewrite createSession_eq.
  unfold bind at 1. fold w1.
  change (withSessions _ _) with w1 in *.
  rewrite Hget. reflexivity.
Qed.

Lemma bind_same {A B} (c c' : M A) (k : A -> M B) (w w' : World) :
  c w = c' w' -> bind c k w = bind c' k w'.
Proof. intros H. unfold bind. now rewrite H. Qed.

Lemma handleChatRequest_new (clock : nat -> Z) (ttl : Z) (ext : Reasoning)
    (uid id message : string) (sid : option string) (w : World) :
  validRequest uid message ->
  (forall s, sid = Some s -> Str.truthy s = false) ->
  sdkSessionId ext = Some id ->
  Str.truthy id = true ->
  clock (S (S (S (ticks w)))) <= clock (S (S (ticks w))) + ttl ->
  handleChatRequest clock ttl ext uid message sid w
  = handleChatRequest clock ttl ext uid message (Some id)
      (snd (createSession clock ttl id uid w)).
Proof.
  intros (Hu & Hm & Hb) Hsid Hext Hid Hclock. unfold handleChatRequest.
  rewrite Hu, Hm, Hb. cbn [negb orb].
  apply bind_same. now apply openSession_new.
Qed.

(** X16. A request without a session id (or with an empty one) starts a
    session under the identifier that the SDK hands out, replacing
    whatever was stored under it.  If that identifier is not empty, an
    agent exists or can be created, the turn does not enter the
    approve-and-run-again loop (a loop that the handler does not bound),
    and less than a TTL passes between the clock reads of the turn (at
    most 21), the turn returns a response for the new session, which then
    is stored for the user with a log of exactly the user's message and
    the reply. *)
Theorem first_turn_starts_session (clock : nat -> Z) (ttl : Z) (ext : Reasoning)
    (uid id message : string) (sid : option string) (w : World) :
  validRequest uid message ->
  (forall s, sid = Some s -> Str.truthy s = false) ->
  sdkSessionId ext = Some id ->
  Str.truthy id = true ->
  agentInstance w = true \/ agentCreated ext = true ->
  entersLoop ext None message = false ->
  calm clock ttl (ticks w) (ticks w + 21) ->
  exists r w' s' t1 t2,
    handleChatRequest clock ttl ext uid message sid w = (Ok r, w')
    /\ r_sessionId r = id
    /\ sessions w' !! id = Some s'
    /\ userId s' = uid
    /\ messages s' = [userMessageAt message t1; assistantMessageAt (r_response r) t2]
    /\ (ticks w' <= ticks w + 21)%nat.
Proof.
  intros Hvalid Hsid Hext Hid Hag _ Hcalm.
  assert (forall j, (ticks w + 3 <= j < ticks w + 21)%nat ->
                    clock j <= clock (S (S (ticks w))) + ttl) as Hlate
    by (intros j Hj; apply Hcalm; lia).
  rewrite (handleChatRequest_new clock ttl ext uid id message sid w Hvalid Hsid Hext Hid)
    by (apply Hlate; lia).
  rewrite createSession_eq. cbn [snd].
  set (s0 := freshSession ttl id uid (clock (ticks w)) (clock (S (ticks w)))
               (clock (S (S (ticks w))))).
  set (w1 := withSessions (<[id := s0]> (sessions w)) (tick (tick (tick w)))).
  assert (liveAt clock (ticks w1) (ticks w1 + 18) id (agentCreated ext)
            (logIs id uid []) 0 w1) as Hlive.
  { apply liveAt_intro with (s := s0).
    - apply lookup_insert_eq.
    - repeat split.
    - exact Hag.
    - intros j Hj. simpl in Hj. apply Hlate. lia. }
  assert (calm clock ttl (ticks w1) (ticks w1 + 18)) as Hcalm1
    by (intros i j Hi Hj; simpl in Hi, Hj; apply Hcalm; lia).
  pose proof (log_handle clock ttl (ticks w1) (ticks w1 + 18) id (agentCreated ext)
                Hcalm1 Hid ext uid message [] Hvalid eq_refl ltac:(lia) w1 Hlive) as H.
  destruct (handleChatRequest clock ttl ext uid message (Some id) w1) as [[r|e] w'].
  - destruct H as (t1 & t2 & s' & Hr & _ & Ht & _ & s'' & Hs'' & ((_ & Hu) & Hlog) & _).
    exists r, w', s'', t1, t2. simpl in Ht.
    repeat split; auto; lia.
  - destruct H.
Qed.

Lemma first_turn_starts_session_witness :
  exists r w' s' t1 t2,
    handleChatRequest Sample.ticking Sample.TTL Sample.helpful "u1" "我下週去日本玩" None
      (Sample.worldOf (Sample.sessionIn Confirmation Sample.japan (Some "state-1") []))
    = (Ok r, w')
    /\ r_sessionId r = "s1"
    /\ sessions w' !! "s1" = Some s'
    /\ userId s' = "u1"
    /\ messages s' = [userMessageAt "我下週去日本玩" t1;
                      assistantMessageAt (r_response r) t2]
    /\ (ticks w' <= 0 + 21)%nat.
Proof.
  apply (first_turn_starts_session Sample.ticking Sample.TTL Sample.helpful "u1" "s1"
           "我下週去日本玩" None
           (Sample.worldOf (Sample.sessionIn Confirmation Sample.japan (Some "state-1") []))).
  - repeat split; reflexivity.
  - intros s Hs. discriminate Hs.
  - reflexivity.
  - reflexivity.
  - left. reflexivity.
  - reflexivity.
  - intros i j Hi Hj. unfold Sample.ticking, Sample.TTL. simpl in Hi, Hj. lia.
Defined.
